(** * gwemopt: the command-line driver and the core it sequences

    The driver ([gwemopt/__main__.py]) parses the options, builds the
    [params] dictionary and then runs the stages of a follow-up campaign in a
    fixed order: skymap source, telescope segments, skymap reading, catalog,
    observability, samples, splitting, tiling, time allocation and
    scheduling, summary, efficiency.  The stages themselves live in other
    modules of the package; the driver only sequences them, so it is embedded
    here as a program in a small trace-and-exception monad whose events are
    the calls it makes to its collaborators. *)

From Stdlib Require Import ZArith QArith Qcanon Qround Qpower Lqa Floats String Ascii List Lia Permutation.
From stdpp Require Import gmap strings list sorting.

(** ** Python values that the driver touches *)

(** Exceptions of the driver's own statements.  [exit(0)] is not one of
    them: it is the [Exit] result below. *)
Inductive exn :=
| KeyError (key : string)
| NameError (name : string)
| ValueError (text : string)
| TypeError
| IndexError
| AttributeError
| OSError (file : string).

(** One row [[index, ra, dec]] of a tessellation array.  numpy stores the
    three columns as float64; the index is kept as the integer it is cast
    from. *)
Record tess_row := { row_index : Z; row_ra : float; row_dec : float }.

(** The values stored under the keys of one telescope's configuration. *)
Inductive value :=
| VFloat (x : float)
| VStr (s : string)
| VUninit (n : nat)                       (* np.empty((n,)) *)
| VTess (rows : list tess_row)            (* an (n,3) array *)
| VRefs (images : list (Z * list (string + Z)))
| VObserver (lon lat elev : value).

(** One tile of a [tile_structs[telescope]] dictionary: its key and the
    two fields of it that the driver reads. *)
Record tile := { tile_index : Z; tile_ra : float; tile_dec : float }.

(** One entry of a [lightcurve_structs] dictionary: its key and the two
    fields the driver reads. *)
Record lightcurve := { lc_key : string; lc_name : string; lc_legend_label : string }.

(** [params["Ntiles"]] is the integer option until hierarchical tiling
    rebinds it to a list. *)
Inductive ntiles :=
| NtilesInt (n : Z)
| NtilesList (counts : list nat).

(** ** Command-line options (the fields the driver's control flow reads) *)
Module Opts.
Record t := {
  configDirectory : string;
  skymap : string;
  gpstime : float;
  do3D : bool;
  outputDir : string;
  doEvent : bool;
  doSkymap : bool;
  doSamples : bool;
  doCoverage : bool;
  doSchedule : bool;
  doPlots : bool;
  doTiles : bool;
  tilesType : string;
  doCatalog : bool;
  doObservability : bool;
  doObservabilityExit : bool;
  observability_thresh : float;
  doEfficiency : bool;
  modelType : string;
  mag : float;
  dmag : float;
  telescopes : string;
  lightcurveFiles : string;
  Ntiles : Z;
  Tobs : string;
  doFootprint : bool;
  start_time : option string;
  end_time : option string;
  doTrueLocation : bool;
  doSingleExposure : bool;
  filters : string;
  exposuretimes : string;
  max_nb_tiles : string;
  doSplit : bool;
  raslice : string;
}.
End Opts.

(** ** The [params] dictionary (the keys the driver reads or rebinds; the
    remaining keys are plain copies of options) *)
Module Params.
Record t := {
  config : gmap string (gmap string value);
  skymap : string;
  gpstime : float;
  outputDir : string;
  telescopes : list string;
  lightcurveFiles : list string;
  tilesType : string;
  Ntiles : ntiles;
  Tobs : list float;
  raslice : list float;
  doTrueLocation : bool;
  filters : list string;
  exposuretimes : list float;
  max_nb_tiles : list float;
  start_time : string;
  end_time : string;
}.

Definition set_config (c : gmap string (gmap string value)) (p : t) : t :=
  {| config := c; skymap := skymap p; gpstime := gpstime p;
     outputDir := outputDir p; telescopes := telescopes p;
     lightcurveFiles := lightcurveFiles p; tilesType := tilesType p;
     Ntiles := Ntiles p; Tobs := Tobs p; raslice := raslice p;
     doTrueLocation := doTrueLocation p; filters := filters p;
     exposuretimes := exposuretimes p; max_nb_tiles := max_nb_tiles p;
     start_time := start_time p; end_time := end_time p |}.

Definition set_skymap (x : string) (p : t) : t :=
  {| config := config p; skymap := x; gpstime := gpstime p;
     outputDir := outputDir p; telescopes := telescopes p;
     lightcurveFiles := lightcurveFiles p; tilesType := tilesType p;
     Ntiles := Ntiles p; Tobs := Tobs p; raslice := raslice p;
     doTrueLocation := doTrueLocation p; filters := filters p;
     exposuretimes := exposuretimes p; max_nb_tiles := max_nb_tiles p;
     start_time := start_time p; end_time := end_time p |}.

Definition set_gpstime (x : float) (p : t) : t :=
  {| config := config p; skymap := skymap p; gpstime := x;
     outputDir := outputDir p; telescopes := telescopes p;
     lightcurveFiles := lightcurveFiles p; tilesType := tilesType p;
     Ntiles := Ntiles p; Tobs := Tobs p; raslice := raslice p;
     doTrueLocation := doTrueLocation p; filters := filters p;
     exposuretimes := exposuretimes p; max_nb_tiles := max_nb_tiles p;
     start_time := start_time p; end_time := end_time p |}.

Definition set_Ntiles (x : ntiles) (p : t) : t :=
  {| config := config p; skymap := skymap p; gpstime := gpstime p;
     outputDir := outputDir p; telescopes := telescopes p;
     lightcurveFiles := lightcurveFiles p; tilesType := tilesType p;
     Ntiles := x; Tobs := Tobs p; raslice := raslice p;
     doTrueLocation := doTrueLocation p; filters := filters p;
     exposuretimes := exposuretimes p; max_nb_tiles := max_nb_tiles p;
     start_time := start_time p; end_time := end_time p |}.
End Params.

(** ** The collaborators

    Everything the driver calls but does not define: the other modules of
    the package, numpy, the file system and the clock.  A run of the driver
    is a function of the options and of what these return.  Calls are
    assumed to return; what the driver does with the results (look-ups,
    arithmetic, comparisons) is modelled with Python's failures. *)
Record Env := {
  (* Python and numpy *)
  py_float : string -> option float;           (* float(s), None = ValueError *)
  np_log10 : float -> float;
  np_sum : list float -> float;
  (* file system and clock *)
  isdir : string -> bool;
  isfile : string -> bool;
  loadtxt : string -> option (list tess_row);  (* None = file cannot be read *)
  now : string;
  yesterday : string;                          (* Time.now() - TimeDelta(1 day) *)
  isot : string -> option string;              (* Time(s, format="isot") *)
  (* gwemopt.utils.readParamsFromFile, by telescope name *)
  readParamsFromFile : string -> gmap string value;
  read_reference_table : string -> list (Z * list Z);
  (* gwemopt.gracedb.get_event: the skymap and eventinfo["gpstime"] *)
  get_event : string * float;
  (* gwemopt.footprint.get_skymap *)
  footprint_skymap : string;
  (* gwemopt.utils.observability: observability_struct[telescope]["prob"] *)
  observability : gmap string (list float);
  (* gwemopt.lightcurve.read_files and gwemopt.lightcurve.tophat *)
  read_files : list string -> list lightcurve;
  tophat : float -> float -> list lightcurve;
  (* the tile_structs returned by the tiling strategies (gwemopt.tiles.moc
     on the MOC and on the ranked structures) and by time allocation; the
     tiles of a telescope in dictionary order *)
  tiles_moc : gmap string (list tile);
  tiles_ranked : gmap string (list tile);
  tiles_hierarchical : gmap string (list tile);
  tiles_greedy : gmap string (list tile);
  tiles_galaxy : gmap string (list tile);
  tiles_allocated : gmap string (list tile);
  (* does compute_efficiency's result carry the key "3D" *)
  efficiency_has_3D : bool;
}.

(** ** Events: the calls and outputs of a run, in order *)
Inductive event :=
| Print (msg : string)
| PrintObservabilityExit (telescope : string) (p thresh : float)
| PrintPercent (key : string)
| Makedirs (dir : string)
| ReadParamsFromFile (telescope : string)
| TesselationSpiral (telescope : string)
| TesselationPacking (telescope : string)
| Loadtxt (file : string)
| ReadReferenceTable (file : string)
| GracedbGetEvent
| FootprintGetSkymap
| GetTelescopeSegments
| ReadSkymap (is3D : bool)
| GetCatalog
| PlotSkymap
| Observability
| PlotObservability
| LightcurveReadFiles
| WriteFile (dir base content : string)
| SamplesFromSkymap (is3D : bool)
| SimilarRange
| CreateMoc
| CreateRanked
| TilesMoc
| TilesHierarchical
| TilesGreedy
| TilesGalaxy
| PlotTiles
| Timeallocation
| ReadCoverageFiles
| SchedulerSummary (with_catalog : bool)
| PlotCoverage (with_catalog : bool)
| LightcurveTophat
| ComputeEfficiency (key : string)
| PlotEfficiency.

(** ** The monad: a state, the trace of events, and how the run ended *)
Inductive res (St A : Type) :=
| Ok (a : A) (s : St)
| Exit                                   (* exit(0) *)
| Raise (e : exn).
Arguments Ok {St A} a s.
Arguments Exit {St A}.
Arguments Raise {St A} e.

Definition M (St A : Type) : Type := St -> list event * res St A.

Definition ret {St A} (a : A) : M St A := fun s => ([], Ok a s).

Definition bind {St A B} (m : M St A) (k : A -> M St B) : M St B :=
  fun s =>
    match m s with
    | (t1, Ok a s1) => let '(t2, r) := k a s1 in (t1 ++ t2, r)
    | (t1, Exit) => (t1, Exit)
    | (t1, Raise e) => (t1, Raise e)
    end.

#[global] Instance M_ret {St} : MRet (M St) := fun A a => ret a.
#[global] Instance M_bind {St} : MBind (M St) := fun A B k m => bind m k.

Definition emit {St} (e : event) : M St unit := fun s => ([e], Ok tt s).
Definition exit0 {St A} : M St A := fun _ => ([], Exit).
Definition raise {St A} (e : exn) : M St A := fun _ => ([], Raise e).
Definition get {St} : M St St := fun s => ([], Ok s s).
Definition put {St} (s : St) : M St unit := fun _ => ([], Ok tt s).
Definition modify {St} (f : St -> St) : M St unit := fun s => ([], Ok tt (f s)).

Definition when {St} (b : bool) (m : M St unit) : M St unit :=
  if b then m else ret tt.

(** [for x in xs: body] *)
Fixpoint for_ {St A} (xs : list A) (body : A -> M St unit) : M St unit :=
  match xs with
  | [] => ret tt
  | x :: xs' => body x;; for_ xs' body
  end.

(** [d[k]] on an optional binding *)
Definition of_option {St A} (e : exn) (o : option A) : M St A :=
  match o with
  | Some a => ret a
  | None => raise e
  end.

Definition trace_of {St A} (r : list event * res St A) : list event := fst r.
Definition result_of {St A} (r : list event * res St A) : res St A := snd r.

(** ** Strings and float lists *)

(** [s.split(c)] for a one-character separator: never empty. *)
Fixpoint split_on (c : ascii) (s : string) : list string :=
  match s with
  | EmptyString => [EmptyString]
  | String a s' =>
      if Ascii.eqb a c then EmptyString :: split_on c s'
      else match split_on c s' with
           | [] => [String a EmptyString]
           | w :: ws => String a w :: ws
           end
  end.

Definition split_comma : string -> list string := split_on ","%char.

(** [np.array(tokens, dtype=float)]: every token goes through [float()]. *)
Fixpoint float_array {St} (env : Env) (tokens : list string) : M St (list float) :=
  match tokens with
  | [] => ret []
  | tok :: rest =>
      x ← of_option (ValueError tok) (py_float env tok);
      xs ← float_array env rest;
      ret (x :: xs)
  end.

Definition as_float {St} (v : value) : M St float :=
  match v with
  | VFloat x => ret x
  | _ => raise TypeError
  end.

Definition as_str {St} (v : value) : M St string :=
  match v with
  | VStr s => ret s
  | _ => raise TypeError
  end.

(** [v == "text"] for a configuration value *)
Definition value_eq_str (v : value) (text : string) : bool :=
  match v with
  | VStr s => String.eqb s text
  | _ => false
  end.

(** ** [params_struct] *)

(** Lines 279-295: the single-exposure rescaling of one telescope's
    configuration.  [exposuretimes] is the raw option string. *)
Definition single_exposure {St} (env : Env) (exposuretimes : string)
    (cfg : gmap string value) : M St (gmap string value) :=
  times ← float_array env (split_comma exposuretimes);
  exposuretime ← of_option IndexError (head times);
  magnitude ← of_option (KeyError "magnitude") (cfg !! "magnitude");
  let cfg := <["magnitude_orig" := magnitude]> cfg in
  old ← of_option (KeyError "exposuretime") (cfg !! "exposuretime");
  let cfg := <["exposuretime_orig" := old]> cfg in
  old ← of_option (KeyError "exposuretime") (cfg !! "exposuretime");
  old ← as_float old;
  let nmag :=
    PrimFloat.mul (-2.5)%float
      (np_log10 env (PrimFloat.sqrt (PrimFloat.div old exposuretime))) in
  magnitude ← of_option (KeyError "magnitude") (cfg !! "magnitude");
  magnitude ← as_float magnitude;
  let cfg := <["magnitude" := VFloat (PrimFloat.add magnitude nmag)]> cfg in
  ret (<["exposuretime" := VFloat exposuretime]> cfg).

(** Lines 296-311: the tessellation of a telescope that names a
    tessellation file; the file is generated when it is missing. *)
Definition load_tesselation {St} (env : Env) (opts : Opts.t) (telescope : string)
    (cfg : gmap string value) : M St (gmap string value) :=
  match cfg !! "tesselationFile" with
  | None => ret cfg
  | Some name =>
      tessfile ← as_str name;
      (if isfile env tessfile then ret tt
       else
         fov ← of_option (KeyError "FOV_type") (cfg !! "FOV_type");
         if value_eq_str fov "circle" then emit (TesselationSpiral telescope)
         else if value_eq_str fov "square" then emit (TesselationPacking telescope)
         else ret tt);;
      if String.eqb (Opts.tilesType opts) "galaxy"
      then ret (<["tesselation" := VUninit 3]> cfg)
      else
        emit (Loadtxt tessfile);;
        rows ← of_option (OSError tessfile) (loadtxt env tessfile);
        ret (<["tesselation" := VTess rows]> cfg)
  end.

(** [reference_images_map.get(n, n)] *)
Definition reference_filter (n : Z) : string + Z :=
  if Z.eqb n 1 then inl "g"
  else if Z.eqb n 2 then inl "r"
  else if Z.eqb n 3 then inl "i"
  else inr n.

(** Lines 313-331 *)
Definition load_references {St} (env : Env) (cfg : gmap string value)
  : M St (gmap string value) :=
  match cfg !! "referenceFile" with
  | None => ret cfg
  | Some name =>
      reffile ← as_str name;
      emit (ReadReferenceTable reffile);;
      let images :=
        map (fun '(field, fids) => (field, map reference_filter fids))
            (read_reference_table env reffile) in
      ret (<["reference_images" := VRefs images]> cfg)
  end.

(** Lines 333-339 *)
Definition make_observer {St} (cfg : gmap string value) : M St (gmap string value) :=
  lon ← of_option (KeyError "longitude") (cfg !! "longitude");
  lat ← of_option (KeyError "latitude") (cfg !! "latitude");
  elev ← of_option (KeyError "elevation") (cfg !! "elevation");
  ret (<["observer" := VObserver lon lat elev]> cfg).

(** The body of the loop over telescopes (lines 276-339); the state is
    [params["config"]]. *)
Definition telescope_config (env : Env) (opts : Opts.t) (telescope : string)
  : M (gmap string (gmap string value)) unit :=
  emit (ReadParamsFromFile telescope);;
  let cfg := <["telescope" := VStr telescope]> (readParamsFromFile env telescope) in
  cfg ← (if Opts.doSingleExposure opts
         then single_exposure env (Opts.exposuretimes opts) cfg
         else ret cfg);
  cfg ← load_tesselation env opts telescope cfg;
  cfg ← load_references env cfg;
  cfg ← make_observer cfg;
  modify (insert telescope cfg).

Definition parse_time {St} (env : Env) (default : string) (o : option string)
  : M St string :=
  match o with
  | None => ret default
  | Some s => of_option (ValueError s) (isot env s)
  end.

Definition params_struct (env : Env) (opts : Opts.t)
  : M (gmap string (gmap string value)) Params.t :=
  let telescopes := split_comma (Opts.telescopes opts) in
  for_ telescopes (telescope_config env opts);;
  Tobs ← float_array env (split_comma (Opts.Tobs opts));
  raslice ← float_array env (split_comma (Opts.raslice opts));
  exposuretimes ← float_array env (split_comma (Opts.exposuretimes opts));
  max_nb_tiles ← float_array env (split_comma (Opts.max_nb_tiles opts));
  start_time ← parse_time env (yesterday env) (Opts.start_time opts);
  end_time ← parse_time env (now env) (Opts.end_time opts);
  config ← get;
  ret {| Params.config := config;
         Params.skymap := Opts.skymap opts;
         Params.gpstime := Opts.gpstime opts;
         Params.outputDir := Opts.outputDir opts;
         Params.telescopes := telescopes;
         Params.lightcurveFiles := split_comma (Opts.lightcurveFiles opts);
         Params.tilesType := Opts.tilesType opts;
         Params.Ntiles := NtilesInt (Opts.Ntiles opts);
         Params.Tobs := Tobs;
         Params.raslice := raslice;
         Params.doTrueLocation := Opts.doTrueLocation opts;
         Params.filters := split_comma (Opts.filters opts);
         Params.exposuretimes := exposuretimes;
         Params.max_nb_tiles := max_nb_tiles;
         Params.start_time := start_time;
         Params.end_time := end_time |}.

(** ** The script (lines 481-696) *)

(** The module-level variables that are bound on some paths only.  A
    variable that is read while unbound raises [NameError]. *)
Record state := {
  params : Params.t;
  catalog_struct : bool;
  moc_structs : bool;
  tile_structs : option (gmap string (list tile));
  coverage_struct : bool;
}.

Definition init_state (p : Params.t) : state :=
  {| params := p; catalog_struct := false; moc_structs := false;
     tile_structs := None; coverage_struct := false |}.

Definition set_params (f : Params.t -> Params.t) (s : state) : state :=
  {| params := f (params s); catalog_struct := catalog_struct s;
     moc_structs := moc_structs s; tile_structs := tile_structs s;
     coverage_struct := coverage_struct s |}.

Definition bind_catalog_struct (s : state) : state :=
  {| params := params s; catalog_struct := true;
     moc_structs := moc_structs s; tile_structs := tile_structs s;
     coverage_struct := coverage_struct s |}.

Definition bind_moc_structs (s : state) : state :=
  {| params := params s; catalog_struct := catalog_struct s;
     moc_structs := true; tile_structs := tile_structs s;
     coverage_struct := coverage_struct s |}.

Definition bind_tile_structs (t : gmap string (list tile)) (s : state) : state :=
  {| params := params s; catalog_struct := catalog_struct s;
     moc_structs := moc_structs s; tile_structs := Some t;
     coverage_struct := coverage_struct s |}.

Definition bind_coverage_struct (s : state) : state :=
  {| params := params s; catalog_struct := catalog_struct s;
     moc_structs := moc_structs s; tile_structs := tile_structs s;
     coverage_struct := true |}.

Definition gets {A} (f : state -> A) : M state A := fun s => ([], Ok (f s) s).

(** Reading a variable that may be unbound *)
Definition bound (name : string) (f : state -> bool) : M state unit :=
  bind (gets f) (fun b : bool => if b then ret tt else raise (NameError name)).

(** Lines 490-492 *)
Definition check_lengths : M state unit :=
  p ← gets params;
  if Nat.eqb (length (Params.filters p)) (length (Params.exposuretimes p))
  then ret tt
  else
    emit (Print "The number of filters specified must match the number of exposure times.");;
    exit0.

(** Lines 494-503 *)
Definition select_skymap (env : Env) (opts : Opts.t) : M state unit :=
  if Opts.doEvent opts then
    emit GracedbGetEvent;;
    modify (set_params (Params.set_skymap (fst (get_event env))));;
    modify (set_params (Params.set_gpstime (snd (get_event env))))
  else if Opts.doFootprint opts then
    emit FootprintGetSkymap;;
    modify (set_params (Params.set_skymap (footprint_skymap env)))
  else if Opts.doSkymap opts then
    ret tt
  else
    emit (Print "Need to enable --doEvent, --doFootprint or --doSkymap");;
    exit0.

(** Lines 505-520.  [get_telescope_segments] returns the dictionary it is
    given; the keys it adds are none of those the driver reads. *)
Definition load_skymap (opts : Opts.t) : M state unit :=
  emit GetTelescopeSegments;;
  emit (Print "Loading skymap...");;
  emit (ReadSkymap (Opts.do3D opts));;
  when (Opts.doCatalog opts)
    (emit (Print "Generating catalog...");;
     emit GetCatalog;;
     modify bind_catalog_struct);;
  when (Opts.doPlots opts)
    (emit (Print "Plotting skymap...");;
     emit PlotSkymap).

(** Lines 531-558: the body of the loop of the observability exit *)
Definition observability_exit (env : Env) (opts : Opts.t) (telescope : string)
  : M state unit :=
  prob ← of_option (KeyError telescope) (observability env !! telescope);
  if PrimFloat.ltb (np_sum env prob) (Opts.observability_thresh opts) then
    emit (PrintObservabilityExit telescope (np_sum env prob)
            (Opts.observability_thresh opts));;
    p ← gets params;
    when (Params.doTrueLocation p)
      (emit LightcurveReadFiles;;
       for_ (read_files env (Params.lightcurveFiles p))
         (fun lc =>
            emit (WriteFile (Params.outputDir p)
                    ("efficiency_true_" +:+ lc_name lc +:+ ".txt") "0")));;
    exit0
  else ret tt.

(** Lines 522-558 *)
Definition check_observability (env : Env) (opts : Opts.t) : M state unit :=
  when (Opts.doObservability opts)
    (emit (Print "Generating observability");;
     emit Observability;;
     when (Opts.doPlots opts)
       (emit (Print "Plotting observability...");;
        emit PlotObservability);;
     when (Opts.doObservabilityExit opts)
       (p ← gets params;
        for_ (Params.telescopes p) (observability_exit env opts))).

(** Lines 560-570 *)
Definition samples_and_split (opts : Opts.t) : M state unit :=
  when (Opts.doSamples opts)
    (emit (Print "Generating samples from skymap...");;
     emit (SamplesFromSkymap (Opts.do3D opts)));;
  when (Opts.doSplit opts)
    (emit (Print "Splitting skymap...");;
     emit SimilarRange).

(** [params["config"][telescope]["tesselation"] = v] *)
Definition set_tesselation (telescope : string) (v : value) : M state unit :=
  p ← gets params;
  cfg ← of_option (KeyError telescope) (Params.config p !! telescope);
  modify (set_params
            (Params.set_config
               (<[telescope := <["tesselation" := v]> cfg]> (Params.config p)))).

(** The row [[index, ra, dec]] of a tile *)
Definition row_of_tile (t : tile) : tess_row :=
  {| row_index := tile_index t; row_ra := tile_ra t; row_dec := tile_dec t |}.

(** [np.append(params["config"][telescope]["tesselation"], [[index, ra, dec]], axis=0)] *)
Definition append_row (telescope : string) (t : tile) : M state unit :=
  p ← gets params;
  cfg ← of_option (KeyError telescope) (Params.config p !! telescope);
  tess ← of_option (KeyError "tesselation") (cfg !! "tesselation");
  match tess with
  | VTess rows => set_tesselation telescope (VTess (rows ++ [row_of_tile t]))
  | _ => raise (ValueError "all the input arrays must have same number of dimensions")
  end.

(** The loop body shared by the hierarchical, greedy and galaxy branches
    (lines 587-595, 602-610, 616-624): the tessellation of one telescope is
    emptied and refilled from the tiles just generated.  Returns
    [tiles_struct]. *)
Definition rebuild_tesselation (telescope : string) : M state (list tile) :=
  set_tesselation telescope (VTess []);;
  structs ← gets tile_structs;
  structs ← of_option (NameError "tile_structs") structs;
  tiles_struct ← of_option (KeyError telescope) (structs !! telescope);
  for_ tiles_struct (append_row telescope);;
  ret tiles_struct.

(** [params["Ntiles"].append(n)] *)
Definition append_Ntiles (n : nat) : M state unit :=
  p ← gets params;
  match Params.Ntiles p with
  | NtilesList counts => modify (set_params (Params.set_Ntiles (NtilesList (counts ++ [n]))))
  | NtilesInt _ => raise AttributeError
  end.

(** Lines 573-627: the dispatch on [params["tilesType"]] *)
Definition dispatch_tiles (env : Env) : M state unit :=
  p ← gets params;
  let tilesType := Params.tilesType p in
  if String.eqb tilesType "moc" then
    emit (Print "Generating MOC struct...");;
    emit CreateMoc;;
    modify bind_moc_structs;;
    emit TilesMoc;;
    modify (bind_tile_structs (tiles_moc env))
  else if String.eqb tilesType "ranked" then
    emit (Print "Generating ranked struct...");;
    emit CreateRanked;;
    modify bind_moc_structs;;
    emit TilesMoc;;
    modify (bind_tile_structs (tiles_ranked env))
  else if String.eqb tilesType "hierarchical" then
    emit (Print "Generating hierarchical struct...");;
    emit TilesHierarchical;;
    modify (bind_tile_structs (tiles_hierarchical env));;
    modify (set_params (Params.set_Ntiles (NtilesList [])));;
    p ← gets params;
    for_ (Params.telescopes p)
      (fun telescope =>
         tiles_struct ← rebuild_tesselation telescope;
         append_Ntiles (length tiles_struct))
  else if String.eqb tilesType "greedy" then
    emit (Print "Generating greedy struct...");;
    emit TilesGreedy;;
    modify (bind_tile_structs (tiles_greedy env));;
    p ← gets params;
    for_ (Params.telescopes p)
      (fun telescope => rebuild_tesselation telescope;; ret tt)
  else if String.eqb tilesType "galaxy" then
    emit (Print "Generating galaxy struct...");;
    bound "catalog_struct" catalog_struct;;
    emit TilesGalaxy;;
    modify (bind_tile_structs (tiles_galaxy env));;
    p ← gets params;
    for_ (Params.telescopes p)
      (fun telescope => rebuild_tesselation telescope;; ret tt)
  else
    emit (Print "Need tilesType to be moc, greedy, hierarchical, ranked or galaxy");;
    exit0.

(** Lines 572-631 *)
Definition generate_tiles (env : Env) (opts : Opts.t) : M state unit :=
  when (Opts.doTiles opts)
    (dispatch_tiles env;;
     when (Opts.doPlots opts)
       (emit (Print "Plotting tiles struct...");;
        emit PlotTiles)).

(** Lines 634-647 *)
Definition schedule (env : Env) (opts : Opts.t) : M state unit :=
  if Opts.doSchedule opts then
    if Opts.doTiles opts then
      emit (Print "Generating coverage...");;
      structs ← gets tile_structs;
      of_option (NameError "tile_structs") structs;;
      emit Timeallocation;;
      modify (bind_tile_structs (tiles_allocated env));;
      modify bind_coverage_struct
    else
      emit (Print "Need to enable --doTiles to use --doSchedule");;
      exit0
  else if Opts.doCoverage opts then
    emit (Print "Reading coverage from file...");;
    bound "moc_structs" moc_structs;;
    emit ReadCoverageFiles;;
    modify bind_coverage_struct
  else ret tt.

(** Lines 649-665 *)
Definition summary (opts : Opts.t) : M state unit :=
  when (Opts.doSchedule opts || Opts.doCoverage opts)
    (emit (Print "Summary of coverage...");;
     (if Opts.doCatalog opts then
        bound "coverage_struct" coverage_struct;;
        bound "catalog_struct" catalog_struct;;
        emit (SchedulerSummary true)
      else
        bound "coverage_struct" coverage_struct;;
        emit (SchedulerSummary false));;
     when (Opts.doPlots opts)
       (emit (Print "Plotting coverage...");;
        if Opts.doCatalog opts then
          bound "coverage_struct" coverage_struct;;
          bound "catalog_struct" catalog_struct;;
          emit (PlotCoverage true)
        else
          bound "coverage_struct" coverage_struct;;
          emit (PlotCoverage false))).

(** Lines 667-696 *)
Definition efficiency (env : Env) (opts : Opts.t) : M state unit :=
  when (Opts.doEfficiency opts)
    (if Opts.doSchedule opts || Opts.doCoverage opts then
       emit (Print "Computing efficiency...");;
       p ← gets params;
       lightcurve_structs ←
         (if String.eqb (Opts.modelType opts) "file" then
            emit LightcurveReadFiles;;
            ret (Some (read_files env (Params.lightcurveFiles p)))
          else if String.eqb (Opts.modelType opts) "Tophat" then
            emit LightcurveTophat;;
            ret (Some (tophat env (Opts.mag opts) (Opts.dmag opts)))
          else ret None);
       lightcurve_structs ← of_option (NameError "lightcurve_structs") lightcurve_structs;
       for_ lightcurve_structs
         (fun lc =>
            bound "coverage_struct" coverage_struct;;
            emit (ComputeEfficiency (lc_key lc));;
            when (Opts.do3D opts)
              (if efficiency_has_3D env then emit (PrintPercent (lc_key lc))
               else raise (KeyError "3D")));;
       when (Opts.doPlots opts)
         (emit (Print "Plotting efficiency...");;
          emit PlotEfficiency)
     else
       emit (Print "Need to enable --doSchedule or --doCoverage for --doEfficiency");;
       exit0).

(** Lines 490-696, after [params] is built *)
Definition script (env : Env) (opts : Opts.t) : M state unit :=
  check_lengths;;
  select_skymap env opts;;
  load_skymap opts;;
  check_observability env opts;;
  samples_and_split opts;;
  generate_tiles env opts;;
  schedule env opts;;
  summary opts;;
  efficiency env opts.

(** Lines 484-488 *)
Definition prelude (env : Env) (opts : Opts.t)
  : M (gmap string (gmap string value)) Params.t :=
  when (negb (isdir env (Opts.outputDir opts)))
    (emit (Makedirs (Opts.outputDir opts)));;
  params_struct env opts.

(** The whole run: its trace and how it ended *)
Definition main (env : Env) (opts : Opts.t) : list event * res state unit :=
  match prelude env opts ∅ with
  | (t1, Ok p _) => let '(t2, r) := script env opts (init_state p) in (t1 ++ t2, r)
  | (t1, Exit) => (t1, Exit)
  | (t1, Raise e) => (t1, Raise e)
  end.

(** * The core the driver sequences

    The time allocator and the scheduler are other modules of the package.
    They are embedded below as the specification describes them, over exact
    rationals and integer time. *)

(** ** Time allocation *)
Module TimeAllocator.

(** A tile as the allocator sees it: its probability mass and, when the 3D
    distance distribution is enabled, its distance factor (1 otherwise) *)
Record tile := {
  tile_id : nat;
  probability_mass : Q;
  distance_factor : Q;
}.

Record params := {
  exposure_duration : Q;
  min_significance : Q;          (* the minimum-significance threshold *)
  max_tiles : option nat;        (* the per-telescope maximum tile count *)
}.

(** Allocation: [{tile_id, exposure_count, exposure_duration}] *)
Record allocation := {
  alloc_tile : nat;
  exposure_count : Z;
  alloc_duration : Q;
}.

(** The specification writes [round] and names no rounding mode.  Every
    mode takes a number to an integer less than one away from it; the
    allocator below takes the mode as a parameter. *)
Definition rounding (rnd : Q -> Z) : Prop :=
  forall x : Q, (x - 1 < inject_Z (rnd x) /\ inject_Z (rnd x) < x + 1)%Q.

(** Three modes: downwards ([Qfloor]), upwards ([Qceiling]) and to the
    nearest integer, ties to the even one *)
Definition nearest (x : Q) : Z :=
  let f := Qfloor x in
  match (x - inject_Z f ?= 1 # 2)%Q with
  | Lt => f
  | Gt => (f + 1)%Z
  | Eq => if Z.even f then f else (f + 1)%Z
  end.

(** [w = probability_mass^n × distance_factor^d] for whole exponents.  The
    exponents of the options are floats; the allocator below takes the law
    as a parameter, so that any exponents are covered. *)
Definition powerlaw (n d : Z) (t : tile) : Q :=
  (probability_mass t ^ n * distance_factor t ^ d)%Q.

Section Allocator.
Variable rnd : Q -> Z.          (* the rounding mode *)
Variable weight : tile -> Q.    (* the weight law *)

Definition total_weight (tiles : list tile) : Q :=
  foldr (fun t acc => (weight t + acc)%Q) 0%Q tiles.

Definition normalized (tiles : list tile) (t : tile) : Q :=
  (weight t / total_weight tiles)%Q.

(** Modelled from the spec: the exposure count of one tile (part of the
    allocator, which is not in the sources).  Section 4.2:
    [exposure_count = round(w_normalized × budget / exposure_duration)], at
    least one for a tile whose normalized weight exceeds the threshold. *)
Definition count (p : params) (budget : Q) (tiles : list tile) (t : tile) : Z :=
  let w := normalized tiles t in
  let c := rnd (w * budget / exposure_duration p)%Q in
  if Qlt_le_dec (min_significance p) w then Z.max 1 c else c.

(** Drops one tile of lowest weight: the first that no later tile undercuts *)
Fixpoint drop_lowest (tiles : list tile) : list tile :=
  match tiles with
  | [] => []
  | t :: rest =>
      if forallb (fun u => Qle_bool (weight t) (weight u)) rest
      then rest
      else t :: drop_lowest rest
  end.

(** The hard cap: lowest-weight tiles are dropped first while it binds. *)
Definition cap (p : params) (tiles : list tile) : list tile :=
  match max_tiles p with
  | None => tiles
  | Some m => Nat.iter (length tiles - m) drop_lowest tiles
  end.

Definition allocate_among (p : params) (budget : Q) (kept tiles : list tile)
  : list allocation :=
  map (fun t => {| alloc_tile := tile_id t;
                   exposure_count := count p budget kept t;
                   alloc_duration := exposure_duration p |}) tiles.

(** Modelled from the spec: the TimeAllocator
    ([gwemopt.coverage.timeallocation], which is not in the sources), in
    its power-law mode.  Section 4.2: "Each tile receives a weight
    w = probability_mass^n × distance_factor^d ...  Weights are normalized so
    that total allocated exposure time equals the time budget; normalized
    weight converts to an integer exposure count via duration-aware rounding
    (exposure_count = round(w_normalized × budget / exposure_duration)), with
    a floor of at least one exposure for any tile whose normalized weight
    exceeds a minimum-significance threshold, and a hard cap from a
    per-telescope maximum-tile-count parameter (lowest-weight tiles dropped
    first when the cap binds)".  The tiles that survive the cap share the
    budget. *)
Definition allocate (tiles : list tile) (budget : Q) (p : params) : list allocation :=
  allocate_among p budget (cap p tiles) (cap p tiles).

End Allocator.



(** One tile that carries all the probability; exposures of 30 time units *)
Definition sample_tiles : list tile :=
  [ {| tile_id := 0; probability_mass := 1; distance_factor := 1 |} ].

Definition sample_params : params :=
  {| exposure_duration := 30; min_significance := 1 # 100; max_tiles := None |}.

End TimeAllocator.

(** ** Greedy, slew-aware scheduling *)
Module Scheduler.

Definition position : Type := Z * Z.

Inductive reason := WindowClosed | BudgetExhausted | ReservedByOther.

(** The orderings of step 1: descending probability mass, or the tile
    whose window closes soonest first *)
Inductive ordering := ByProbability | ByObservability.

(** A candidate: a tile with its allocation, its remaining exposure count
    and the intervals of its VisibilityWindow that are still ahead, in time
    order.  [not_before] carries the minimum revisit gap. *)
Record tile := {
  tile_id : nat;
  center : position;
  probability_mass : Q;
  exposure_count : nat;
  exposure_duration : Z;
  visibility : list (Z * Z);
  not_before : Z;
}.

Record profile := {
  telescope_id : nat;
  slew_time : position -> position -> Z;
  home : position;
  filters : list string;
  alternating : bool;
  max_filter_sets : nat;
  order : ordering;
  budget : Z;
  observing_start : Z;
  observing_end : Z;
  revisit_gap : Z;
  exclusive : bool;
}.

(** ScheduleEntry: [{telescope_id, tile_id, start_time, end_time, filter}] *)
Record entry := {
  entry_telescope : nat;
  entry_tile : nat;
  start_time : Z;
  end_time : Z;
  entry_filter : string;
}.

(** State per telescope: [{current_time, current_position,
    remaining_budget}], the candidate queue, what has been emitted and
    missed so far, and the shared reservation table (tile id to telescope
    id). *)
Record state := {
  current_time : Z;
  current_position : position;
  remaining_budget : Z;
  queue : list tile;
  entries : list entry;
  missed : list (nat * reason);
  reserved : gmap nat nat;
}.

(** The end of the interval a candidate is waiting for *)
Definition closes (t : tile) : option Z :=
  match visibility t with
  | [] => None
  | (_, we) :: _ => Some we
  end.

(** [better o b t]: [b] goes before [t] *)
Definition better (o : ordering) (b t : tile) : bool :=
  match o with
  | ByProbability =>
      if Qlt_le_dec (probability_mass t) (probability_mass b) then true else false
  | ByObservability =>
      match closes b, closes t with
      | Some x, Some y => x <? y
      | None, Some _ => true
      | _, _ => false
      end
  end%Z.

(** Step 1: the best candidate and the others; among equals the first *)
Fixpoint pick (o : ordering) (q : list tile) : option (tile * list tile) :=
  match q with
  | [] => None
  | t :: rest =>
      match pick o rest with
      | None => Some (t, [])
      | Some (b, rest') =>
          if better o b t then Some (b, t :: rest') else Some (t, rest)
      end
  end.

(** Step 5: the filter of the [k]-th exposure *)
Definition filter_of (p : profile) (k : nat) : string :=
  let cycle := take (max_filter_sets p) (filters p) in
  if alternating p
  then default ""%string (cycle !! (k mod length cycle)%nat)
  else default ""%string (head (filters p)).

Definition set_queue (q : list tile) (s : state) : state :=
  {| current_time := current_time s; current_position := current_position s;
     remaining_budget := remaining_budget s; queue := q; entries := entries s;
     missed := missed s; reserved := reserved s |}.

(** The candidate leaves the queue unscheduled. *)
Definition miss (c : tile) (why : reason) (rest : list tile) (s : state) : state :=
  {| current_time := current_time s; current_position := current_position s;
     remaining_budget := remaining_budget s; queue := rest; entries := entries s;
     missed := missed s ++ [(tile_id c, why)]; reserved := reserved s |}.

Definition with_visibility (w : list (Z * Z)) (c : tile) : tile :=
  {| tile_id := tile_id c; center := center c;
     probability_mass := probability_mass c; exposure_count := exposure_count c;
     exposure_duration := exposure_duration c; visibility := w;
     not_before := not_before c |}.

(** One exposure fewer to go, the next one not before [t] *)
Definition exposed (t : Z) (c : tile) : tile :=
  {| tile_id := tile_id c; center := center c;
     probability_mass := probability_mass c;
     exposure_count := pred (exposure_count c);
     exposure_duration := exposure_duration c; visibility := visibility c;
     not_before := t |}.

Definition reserved_by_other (p : profile) (s : state) (c : tile) : bool :=
  exclusive p &&
  match reserved s !! tile_id c with
  | Some owner => negb (owner =? telescope_id p)%nat
  | None => false
  end.

(** Step 4: emit the entry and advance. *)
Definition expose (p : profile) (c : tile) (rest : list tile) (slew start : Z)
    (s : state) : state :=
  let stop := (start + exposure_duration c)%Z in
  let c' := exposed (stop + revisit_gap p)%Z c in
  {| current_time := stop;
     current_position := center c;
     remaining_budget := (remaining_budget s - (slew + exposure_duration c))%Z;
     queue := if (exposure_count c' =? 0)%nat then rest else c' :: rest;
     entries := entries s ++
       [ {| entry_telescope := telescope_id p; entry_tile := tile_id c;
            start_time := start; end_time := stop;
            entry_filter := filter_of p (length (entries s)) |} ];
     missed := missed s;
     reserved := if exclusive p
                 then <[tile_id c := telescope_id p]> (reserved s)
                 else reserved s |}.

(** Modelled from the spec: one round of the scheduling loop (part of the
    scheduler, which is not in the sources), steps 1 to 5 of section 4.3:
    SELECTING, SLEWING and EXPOSING. *)
Definition step (p : profile) (s : state) : state :=
  if (remaining_budget s <=? 0)%Z then
    {| current_time := current_time s; current_position := current_position s;
       remaining_budget := remaining_budget s; queue := [];
       entries := entries s;
       missed := missed s ++ map (fun t => (tile_id t, BudgetExhausted)) (queue s);
       reserved := reserved s |}
  else
    match pick (order p) (queue s) with
    | None => s
    | Some (c, rest) =>
        if reserved_by_other p s c then miss c ReservedByOther rest s
        else
          match visibility c with
          | [] => miss c WindowClosed rest s
          | (ws, we) :: later =>
              let slew := slew_time p (current_position s) (center c) in
              let start :=
                Z.max (Z.max (current_time s + slew) ws) (not_before c) in
              let stop := (start + exposure_duration c)%Z in
              if ((we <? stop) || (observing_end p <? stop))%Z then
                match later with
                | (ws', _) :: _ =>
                    if (ws' <? observing_end p)%Z
                    then set_queue (with_visibility later c :: rest) s
                    else miss c WindowClosed rest s
                | [] => miss c WindowClosed rest s
                end
              else if (remaining_budget s <? slew + exposure_duration c)%Z then
                miss c BudgetExhausted rest s
              else expose p c rest slew start s
          end
    end.

(** The loop: until the queue is empty *)
Fixpoint run (fuel : nat) (p : profile) (s : state) : state :=
  match fuel with
  | O => s
  | S n =>
      match queue s with
      | [] => s
      | _ => run n p (step p s)
      end
  end.

(** What bounds the number of rounds: every round removes a candidate, an
    interval or an exposure. *)
Fixpoint measure (q : list tile) : nat :=
  match q with
  | [] => 0%nat
  | t :: q' => (S (exposure_count t + length (visibility t)) + measure q')%nat
  end.

Definition init (p : profile) (table : gmap nat nat) (tiles : list tile) : state :=
  {| current_time := observing_start p;
     current_position := home p;
     remaining_budget := budget p;
     queue := List.filter (fun t => (0 <? exposure_count t)%nat) tiles;
     entries := [];
     missed := [];
     reserved := table |}.

(** Modelled from the spec: the Scheduler for one telescope
    ([gwemopt.scheduler], called through [gwemopt.coverage.timeallocation];
    not in the sources).  Section 4.3: a greedy loop that selects the next
    candidate, computes the slew, defers the candidate to its next interval
    or marks it missed when [current_time + slew + exposure_duration] exceeds
    its current interval, and otherwise emits a ScheduleEntry, advances
    [current_time], updates [current_position] and decrements the remaining
    exposure count.  A tile with no exposure allocated is dropped from
    scheduling; the telescope waits for an interval that has not opened yet
    (Scenario C). *)
Definition schedule_telescope (p : profile) (table : gmap nat nat)
    (tiles : list tile) : state :=
  run (measure (queue (init p table tiles))) p (init p table tiles).

(** CoveragePlan: the entries of all telescopes and the missed tiles with
    the telescope and the reason *)
Record plan := {
  plan_entries : list entry;
  plan_missed : list (nat * nat * reason);
}.

(** Modelled from the spec: the Scheduler across telescopes.  The
    telescopes are scheduled one after the other and share the reservation
    table. *)
Fixpoint schedule_from (table : gmap nat nat) (inputs : list (profile * list tile))
  : plan :=
  match inputs with
  | [] => {| plan_entries := []; plan_missed := [] |}
  | (p, tiles) :: rest =>
      let s := schedule_telescope p table tiles in
      let r := schedule_from (reserved s) rest in
      {| plan_entries := entries s ++ plan_entries r;
         plan_missed :=
           map (fun m => (telescope_id p, fst m, snd m)) (missed s) ++ plan_missed r |}
  end.

Definition schedule_all (inputs : list (profile * list tile)) : plan :=
  schedule_from ∅ inputs.




(** The entries of one telescope are in time order, one ending before the
    next starts, and each takes time. *)
Definition time_ordered (es : list entry) : Prop :=
  StronglySorted (fun a b => (end_time a <= start_time b)%Z) es /\
  Forall (fun e => (start_time e < end_time e)%Z) es.


(** A telescope that slews instantly, and the tiles of scenarios C and D *)
Definition sample_profile : profile :=
  {| telescope_id := 0; slew_time := fun _ _ => 0%Z; home := (0, 0)%Z;
     filters := ["r"%string]; alternating := false; max_filter_sets := 4;
     order := ByProbability; budget := 100; observing_start := 0;
     observing_end := 100; revisit_gap := 0; exclusive := false |}.

Definition sample_tile (id : nat) (duration : Z) (w : list (Z * Z)) : tile :=
  {| tile_id := id; center := (0, 0)%Z; probability_mass := 1 # 2;
     exposure_count := 1; exposure_duration := duration; visibility := w;
     not_before := 0 |}.

Definition scenario_C : list tile :=
  [ sample_tile 0 5 [(0, 10)%Z]; sample_tile 1 5 [(20, 30)%Z] ].

Definition scenario_D : list tile := [ sample_tile 0 10 [(0, 5)%Z] ].

End Scheduler.

(** ** A concrete world for the examples

    Two telescopes whose configuration files give a limiting magnitude, an
    exposure time and a site; [float()] and [np.log10] are given by the
    table of the values the examples use, [np.sum] adds from the left. *)
Definition sample_float (s : string) : option float :=
  if String.eqb s "30.0" then Some 30%float
  else if String.eqb s "60.0" then Some 60%float
  else if String.eqb s "0.0" then Some 0%float
  else if String.eqb s "1.0" then Some 1%float
  else if String.eqb s "24.0" then Some 24%float
  else if String.eqb s "-1" then Some (-1)%float
  else None.

Definition sample_log10 (x : float) : float :=
  if PrimFloat.eqb x 1%float then 0%float
  else if PrimFloat.eqb x 10%float then 1%float
  else if PrimFloat.eqb x 100%float then 2%float
  else PrimFloat.nan.

Definition sample_config : gmap string value :=
  <["magnitude" := VFloat 20%float]>
  (<["exposuretime" := VFloat 3000%float]>
  (<["longitude" := VFloat 10%float]>
  (<["latitude" := VFloat 20%float]>
  (<["elevation" := VFloat 1000%float]> ∅)))).

Definition sample_tiles : gmap string (list tile) :=
  <["A" := [ {| tile_index := 0; tile_ra := 10%float; tile_dec := 20%float |};
             {| tile_index := 1; tile_ra := 11%float; tile_dec := 20%float |} ]]>
  (<["B" := [ {| tile_index := 0; tile_ra := 10%float; tile_dec := 20%float |} ]]> ∅).

Definition sample_env : Env :=
  {| py_float := sample_float;
     np_log10 := sample_log10;
     np_sum := foldl PrimFloat.add 0%float;
     isdir := fun _ => true;
     isfile := fun _ => true;
     loadtxt := fun _ => Some [];
     now := "2017-01-04T10:11:59";
     yesterday := "2017-01-03T10:11:59";
     isot := fun s => Some s;
     readParamsFromFile := fun _ => sample_config;
     read_reference_table := fun _ => [];
     get_event := ("bayestar.fits", 1167559936%float);
     footprint_skymap := "footprint.fits";
     observability := <["A" := [0.25%float; 0.5%float]]> (<["B" := [0.015625%float]]> ∅);
     read_files := fun files => map (fun f => {| lc_key := f; lc_name := f; lc_legend_label := f |}) files;
     tophat := fun _ _ => [ {| lc_key := "tophat"; lc_name := "tophat"; lc_legend_label := "tophat" |} ];
     tiles_moc := sample_tiles;
     tiles_ranked := sample_tiles;
     tiles_hierarchical := sample_tiles;
     tiles_greedy := sample_tiles;
     tiles_galaxy := sample_tiles;
     tiles_allocated := sample_tiles;
     efficiency_has_3D := true |}.

(** The options at their defaults for the two telescopes of [sample_env],
    as a function of the ones the examples vary.  [doObservability] also
    sets [doObservabilityExit]. *)
Definition sample_opts (doEvent doFootprint doSkymap doObservability doTiles
    doSchedule doSingleExposure : bool) (tilesType filters : string) : Opts.t :=
  {| Opts.configDirectory := "config";
     Opts.skymap := "skymap.fits";
     Opts.gpstime := 1167559936%float;
     Opts.do3D := false;
     Opts.outputDir := "output";
     Opts.doEvent := doEvent;
     Opts.doSkymap := doSkymap;
     Opts.doSamples := false;
     Opts.doCoverage := false;
     Opts.doSchedule := doSchedule;
     Opts.doPlots := false;
     Opts.doTiles := doTiles;
     Opts.tilesType := tilesType;
     Opts.doCatalog := false;
     Opts.doObservability := doObservability;
     Opts.doObservabilityExit := doObservability;
     Opts.observability_thresh := 0.0625%float;
     Opts.doEfficiency := false;
     Opts.modelType := "Tophat";
     Opts.mag := (-16)%float;
     Opts.dmag := 0%float;
     Opts.telescopes := "A,B";
     Opts.lightcurveFiles := "Me2017_H4M050V20.dat";
     Opts.Ntiles := 10;
     Opts.Tobs := "0.0,1.0";
     Opts.doFootprint := doFootprint;
     Opts.start_time := None;
     Opts.end_time := None;
     Opts.doTrueLocation := false;
     Opts.doSingleExposure := doSingleExposure;
     Opts.filters := filters;
     Opts.exposuretimes := "30.0,30.0,30.0";
     Opts.max_nb_tiles := "-1,-1,-1";
     Opts.doSplit := false;
     Opts.raslice := "0.0,24.0" |}.

(** Two filters for three exposure times *)
Definition mismatched_opts : Opts.t :=
  sample_opts false false true false true true false "moc" "r,g".

(** No skymap source enabled *)
Definition no_source_opts : Opts.t :=
  sample_opts false false false false true true false "moc" "r,g,r".

(** Scheduling without tiling *)
Definition schedule_only_opts : Opts.t :=
  sample_opts false false true false false true false "moc" "r,g,r".

(** Observability exit, tiling and scheduling for telescopes A and B; in
    [sample_env] A is well above the threshold and B is below it. *)
Definition low_visibility_opts : Opts.t :=
  sample_opts false false true true true true false "moc" "r,g,r".

(** Galaxy tiling requested without the catalog *)
Definition galaxy_opts : Opts.t :=
  sample_opts false false true false true false false "galaxy" "r,g,r".

(** Hierarchical tiling *)
Definition hierarchical_opts : Opts.t :=
  sample_opts false false true false true false false "hierarchical" "r,g,r".

(** A state at the dispatch: two configured telescopes and the tag
    [hierarchical] *)
Definition hierarchical_state : state :=
  init_state
    {| Params.config := <["A" := sample_config]> (<["B" := sample_config]> ∅);
       Params.skymap := "skymap.fits";
       Params.gpstime := 1167559936%float;
       Params.outputDir := "output";
       Params.telescopes := ["A"; "B"];
       Params.lightcurveFiles := ["Me2017_H4M050V20.dat"];
       Params.tilesType := "hierarchical";
       Params.Ntiles := NtilesInt 10;
       Params.Tobs := [0%float; 1%float];
       Params.raslice := [0%float; 24%float];
       Params.doTrueLocation := false;
       Params.filters := ["r"; "g"; "r"];
       Params.exposuretimes := [30%float; 30%float; 30%float];
       Params.max_nb_tiles := [(-1)%float; (-1)%float; (-1)%float];
       Params.start_time := "2017-01-03T10:11:59";
       Params.end_time := "2017-01-04T10:11:59" |}.

(** Single-exposure mode: 30 s instead of the configured 3000 s *)
Definition single_exposure_opts : Opts.t :=
  sample_opts false false true false false false true "moc" "r,g,r".

(** ** Properties of computations

    [emits P m]: every event of [m] satisfies [P], from every state.
    [halts m]: [m] never returns; it ends in [exit(0)] or in an exception.
    [triple P m Q E]: from a history and a state that satisfy [P], [m]
    either returns with [Q] of its value, the extended history and the new
    state, or stops with [E] of the extended history. *)
Definition emits {St A} (P : event -> Prop) (m : M St A) : Prop :=
  forall s, Forall P (trace_of (m s)).

Definition halts {St A} (m : M St A) : Prop :=
  forall s a s', result_of (m s) <> Ok a s'.

Definition returns {St A} (r : res St A) : bool :=
  match r with
  | Ok _ _ => true
  | _ => false
  end.

Definition triple {St A} (P : list event -> St -> Prop) (m : M St A)
    (Q : A -> list event -> St -> Prop) (E : list event -> Prop) : Prop :=
  forall h s, P h s ->
    match m s with
    | (t, Ok a s') => Q a (h ++ t) s'
    | (t, _) => E (h ++ t)
    end.

(** The outcome [r] after the events [t] *)
Definition prepend {St A} (t : list event) (r : list event * res St A)
  : list event * res St A :=
  (t ++ trace_of r, result_of r).

(** [keeps f m]: [m] leaves the component [f] of the state as it found it. *)
Definition keeps {St A B} (f : St -> B) (m : M St A) : Prop :=
  forall s a s', result_of (m s) = Ok a s' -> f s' = f s.

(** ** Kinds of events *)

(** The calls that make up the five tiling strategies *)
Definition tiling_event (e : event) : bool :=
  match e with
  | CreateMoc | CreateRanked | TilesMoc | TilesHierarchical | TilesGreedy
  | TilesGalaxy => true
  | _ => false
  end.

(** Time allocation and scheduling ([gwemopt.coverage.timeallocation] does
    both), reading a coverage plan, and reporting on one *)
Definition coverage_event (e : event) : bool :=
  match e with
  | Timeallocation | ReadCoverageFiles | SchedulerSummary _ | PlotCoverage _
  | ComputeEfficiency _ | PlotEfficiency => true
  | _ => false
  end.

(** What building [params] may do: read configuration, generate and read
    tessellation files, read reference tables. *)
Definition setup_event (e : event) : bool :=
  match e with
  | Makedirs _ | ReadParamsFromFile _ | TesselationSpiral _
  | TesselationPacking _ | Loadtxt _ | ReadReferenceTable _ => true
  | _ => false
  end.

Inductive strategy := Moc | Ranked | Hierarchical | Greedy | Galaxy.

(** The strategy an event starts, if any.  [gwemopt.tiles.moc] is the second
    step of both the MOC and the ranked strategy and starts neither. *)
Definition starts (e : event) : option strategy :=
  match e with
  | CreateMoc => Some Moc
  | CreateRanked => Some Ranked
  | TilesHierarchical => Some Hierarchical
  | TilesGreedy => Some Greedy
  | TilesGalaxy => Some Galaxy
  | _ => None
  end.

(** The strategies that ran, in order *)
Definition strategies_run (t : list event) : list strategy := omap starts t.

Definition strategy_of_tag (tag : string) : option strategy :=
  if String.eqb tag "moc" then Some Moc
  else if String.eqb tag "ranked" then Some Ranked
  else if String.eqb tag "hierarchical" then Some Hierarchical
  else if String.eqb tag "greedy" then Some Greedy
  else if String.eqb tag "galaxy" then Some Galaxy
  else None.

(** The part of the script an event belongs to *)
Inductive stage :=
| SOutput          (* messages *)
| SSetup           (* lines 484-488 *)
| SSource          (* lines 494-503 *)
| SLoad            (* lines 505-520 *)
| SObservability   (* lines 522-558 *)
| SLightcurve      (* reading lightcurve files, lines 545 and 671 *)
| SSamples         (* lines 560-570 *)
| STiles           (* lines 572-631 *)
| SSchedule        (* lines 634-647 *)
| SSummary         (* lines 649-665 *)
| SEfficiency.     (* lines 667-696 *)

Definition stage_of (e : event) : stage :=
  match e with
  | Print _ | PrintObservabilityExit _ _ _ | PrintPercent _ => SOutput
  | Makedirs _ | ReadParamsFromFile _ | TesselationSpiral _
  | TesselationPacking _ | Loadtxt _ | ReadReferenceTable _ => SSetup
  | GracedbGetEvent | FootprintGetSkymap => SSource
  | GetTelescopeSegments | ReadSkymap _ | GetCatalog | PlotSkymap => SLoad
  | Observability | PlotObservability | WriteFile _ _ _ => SObservability
  | LightcurveReadFiles => SLightcurve
  | SamplesFromSkymap _ | SimilarRange => SSamples
  | CreateMoc | CreateRanked | TilesMoc | TilesHierarchical | TilesGreedy
  | TilesGalaxy | PlotTiles => STiles
  | Timeallocation | ReadCoverageFiles => SSchedule
  | SchedulerSummary _ | PlotCoverage _ => SSummary
  | LightcurveTophat | ComputeEfficiency _ | PlotEfficiency => SEfficiency
  end.

(** [from l e]: the event [e] belongs to one of the parts [l] *)
Definition from (l : list stage) (e : event) : Prop := In (stage_of e) l.

(** The skymap a run uses, by the precedence of lines 494-503 *)
Definition skymap_by_precedence (env : Env) (opts : Opts.t) : string :=
  if Opts.doEvent opts then fst (get_event env)
  else if Opts.doFootprint opts then footprint_skymap env
  else Opts.skymap opts.

(** The call that fetches it: none for a user-supplied skymap *)
Definition source_calls (opts : Opts.t) : list event :=
  if Opts.doEvent opts then [GracedbGetEvent]
  else if Opts.doFootprint opts then [FootprintGetSkymap]
  else [].

(** Every call of time allocation in a trace comes after a tiling call of
    the same trace. *)
Definition allocation_after_tiling (h : list event) : Prop :=
  forall t1 t2, h = t1 ++ Timeallocation :: t2 ->
    Exists (fun e => tiling_event e = true) t1.

(** [emits_some Q m]: when [m] returns, one of its events satisfies [Q]. *)
Definition emits_some {St A} (Q : event -> Prop) (m : M St A) : Prop :=
  forall s a s', result_of (m s) = Ok a s' -> Exists Q (trace_of (m s)).

(** The invariant of the script behind [allocation_after_tiling]:
    [tile_structs] is bound only once a tiling call has been made. *)
Definition tiles_bound_after_tiling (h : list event) (s : state) : Prop :=
  allocation_after_tiling h /\
  (is_Some (tile_structs s) -> Exists (fun e => tiling_event e = true) h).

(** The state after [params["config"][telescope]["tesselation"] = v] *)
Definition put_tesselation (telescope : string) (v : value) (s : state) : state :=
  match Params.config (params s) !! telescope with
  | Some cfg =>
      set_params
        (Params.set_config
           (<[telescope := <["tesselation" := v]> cfg]> (Params.config (params s)))) s
  | None => s
  end.

(** The tessellation array made of the centers of a telescope's tiles *)
Definition tesselation_of (tiles : list tile) : value := VTess (map row_of_tile tiles).

(** The tiles the hierarchical strategy returned for a telescope *)
Definition hierarchical_tiles (env : Env) (telescope : string) : list tile :=
  default [] (tiles_hierarchical env !! telescope).

(** The four keys the single-exposure block writes *)
Definition single_exposure_keys : list string :=
  ["magnitude"; "exposuretime"; "magnitude_orig"; "exposuretime_orig"].

(** The keys [params_struct] adds to what the configuration file gives *)
Definition derived_keys : list string :=
  ["telescope"; "tesselation"; "reference_images"; "observer"].

(** The limiting magnitude after the exposure time changes from [old] to
    [new]: [magnitude + (-2.5 * log10(sqrt(old / new)))] *)
Definition rescaled_magnitude (env : Env) (magnitude old new : float) : float :=
  PrimFloat.add magnitude
    (PrimFloat.mul (-2.5)%float
       (np_log10 env (PrimFloat.sqrt (PrimFloat.div old new)))).

(** What single-exposure mode leaves in a telescope's configuration [cfg],
    given the configuration file [file] and the first exposure time *)
Definition single_exposure_applied (env : Env) (file cfg : gmap string value)
    (first : float) : Prop :=
  exists magnitude exposuretime,
    file !! "magnitude" = Some (VFloat magnitude) /\
    file !! "exposuretime" = Some (VFloat exposuretime) /\
    cfg !! "exposuretime" = Some (VFloat first) /\
    cfg !! "magnitude" =
      Some (VFloat (rescaled_magnitude env magnitude exposuretime first)) /\
    cfg !! "magnitude_orig" = Some (VFloat magnitude) /\
    cfg !! "exposuretime_orig" = Some (VFloat exposuretime) /\
    forall k, k ∉ single_exposure_keys -> k ∉ derived_keys ->
      cfg !! k = file !! k.

(** ** Order of events *)

(** [preceded_by P Q h]: every event of [h] that satisfies [P] comes after
    an event of [h] that satisfies [Q]. *)
Definition preceded_by (P Q : event -> Prop) (h : list event) : Prop :=
  forall t1 e t2, h = t1 ++ e :: t2 -> P e -> Exists Q t1.

(** [keeps_or_emits f Q m]: when [m] returns it has left the component [f]
    of the state alone or has emitted an event that satisfies [Q]. *)
Definition keeps_or_emits {A B} (f : state -> B) (Q : event -> Prop)
    (m : M state A) : Prop :=
  forall s a s', result_of (m s) = Ok a s' ->
    f s' = f s \/ Exists Q (trace_of (m s)).

(** The calls that create MOC structures *)
Definition creates_moc (e : event) : Prop := e = CreateMoc \/ e = CreateRanked.

(** The calls that produce a coverage plan *)
Definition makes_coverage (e : event) : Prop :=
  e = Timeallocation \/ e = ReadCoverageFiles.

(** The calls that consume a coverage plan *)
Definition uses_coverage (e : event) : Prop :=
  match e with
  | SchedulerSummary _ | PlotCoverage _ | ComputeEfficiency _ | PlotEfficiency => True
  | _ => False
  end.

Definition plotting_event (e : event) : bool :=
  match e with
  | PlotSkymap | PlotObservability | PlotTiles | PlotCoverage _ | PlotEfficiency => true
  | _ => false
  end.

(** ** The set-up *)

(** [m] never ends the run by [exit(0)]. *)
Definition never_exits {St A} (m : M St A) : Prop :=
  forall s, result_of (m s) <> Exit.

(** The calls of lines 296-311 and what each of them presupposes: a
    tessellation is generated for a telescope whose configuration file names
    a tessellation file that does not exist, by the spiral for a circular
    and by the packing for a square field of view; a tessellation file is
    read when the tiling is not the galaxy one. *)
Definition tesselation_call_justified (env : Env) (opts : Opts.t) (e : event) : Prop :=
  match e with
  | TesselationSpiral t =>
      exists f, readParamsFromFile env t !! "tesselationFile" = Some (VStr f) /\
                isfile env f = false /\
                readParamsFromFile env t !! "FOV_type" = Some (VStr "circle")
  | TesselationPacking t =>
      exists f, readParamsFromFile env t !! "tesselationFile" = Some (VStr f) /\
                isfile env f = false /\
                readParamsFromFile env t !! "FOV_type" = Some (VStr "square")
  | Loadtxt f =>
      Opts.tilesType opts <> "galaxy"%string /\
      exists t, readParamsFromFile env t !! "tesselationFile" = Some (VStr f)
  | _ => True
  end.

(** The value of [params["config"][telescope]["tesselation"]] that
    [params_struct] leaves for a configuration file [file] *)
Definition tesselation_loaded (env : Env) (opts : Opts.t)
    (file cfg : gmap string value) : Prop :=
  match file !! "tesselationFile" with
  | None => cfg !! "tesselation" = file !! "tesselation"
  | Some v =>
      exists f, v = VStr f /\
        if String.eqb (Opts.tilesType opts) "galaxy"
        then cfg !! "tesselation" = Some (VUninit 3)
        else exists rows, loadtxt env f = Some rows /\
                          cfg !! "tesselation" = Some (VTess rows)
  end.

(** ** The tiling branches that keep [Ntiles] *)

(** The tiles a strategy returned for a telescope *)
Definition tiles_for (structs : gmap string (list tile)) (telescope : string)
  : list tile :=
  default [] (structs !! telescope).

(** [s'] is [s] after the loop of lines 601-610 (and 615-624) over the
    tiles [structs]: every telescope's tessellation is the array of the
    centers of its own tiles and nothing else of [params] has changed. *)
Definition rebuilt_from (structs : gmap string (list tile)) (s s' : state) : Prop :=
  tile_structs s' = Some structs /\
  Params.Ntiles (params s') = Params.Ntiles (params s) /\
  (forall t, t ∈ Params.telescopes (params s) ->
     exists cfg,
       Params.config (params s) !! t = Some cfg /\
       Params.config (params s') !! t =
         Some (<["tesselation" := tesselation_of (tiles_for structs t)]> cfg)) /\
  (forall t, t ∉ Params.telescopes (params s) ->
     Params.config (params s') !! t = Params.config (params s) !! t).

(** [params["Ntiles"]] at the end of a run that returns *)
Definition final_Ntiles (env : Env) (opts : Opts.t) : ntiles :=
  if Opts.doTiles opts && String.eqb (Opts.tilesType opts) "hierarchical"
  then NtilesList (map (fun t => length (tiles_for (tiles_hierarchical env) t))
                       (split_comma (Opts.telescopes opts)))
  else NtilesInt (Opts.Ntiles opts).

(** A state of the script for the given telescopes and tag, the catalog
    bound *)
Definition sample_state (telescopes : list string) (tag : string) : state :=
  {| params :=
       {| Params.config := Params.config (params hierarchical_state);
          Params.skymap := "skymap.fits";
          Params.gpstime := 1167559936%float;
          Params.outputDir := "output";
          Params.telescopes := telescopes;
          Params.lightcurveFiles := ["Me2017_H4M050V20.dat"];
          Params.tilesType := tag;
          Params.Ntiles := NtilesInt 10;
          Params.Tobs := [0%float; 1%float];
          Params.raslice := [0%float; 24%float];
          Params.doTrueLocation := true;
          Params.filters := ["r"; "g"; "r"];
          Params.exposuretimes := [30%float; 30%float; 30%float];
          Params.max_nb_tiles := [(-1)%float; (-1)%float; (-1)%float];
          Params.start_time := "2017-01-03T10:11:59";
          Params.end_time := "2017-01-04T10:11:59" |};
     catalog_struct := true;
     moc_structs := false;
     tile_structs := None;
     coverage_struct := false |}.

Definition tagged_state (tag : string) : state := sample_state ["A"; "B"] tag.

(** ** The observability check *)

(** The calls of lines 523-528 *)
Definition observability_calls (opts : Opts.t) : list event :=
  if Opts.doObservability opts then
    [Print "Generating observability"; Observability] ++
    (if Opts.doPlots opts
     then [Print "Plotting observability..."; PlotObservability]
     else [])
  else [].

(** The files of lines 544-557: with [doTrueLocation], one file
    [efficiency_true_<name>.txt] with the content "0" per light curve *)
Definition true_location_files (env : Env) (p : Params.t) : list event :=
  if Params.doTrueLocation p then
    LightcurveReadFiles ::
    map (fun lc => WriteFile (Params.outputDir p)
                     ("efficiency_true_" +:+ lc_name lc +:+ ".txt") "0")
        (read_files env (Params.lightcurveFiles p))
  else [].

(** The telescope has an observability entry and its summed probability is
    not below the threshold. *)
Definition visible_enough (env : Env) (opts : Opts.t) (telescope : string) : Prop :=
  exists prob,
    observability env !! telescope = Some prob /\
    PrimFloat.ltb (np_sum env prob) (Opts.observability_thresh opts) = false.

(** ** The order of the parts *)

(** The place of a part in the script; messages and the reading of the
    light-curve files, which two parts do, have none. *)
Definition stage_rank (st : stage) : option nat :=
  match st with
  | SOutput | SLightcurve => None
  | SSetup => Some 0
  | SSource => Some 1
  | SLoad => Some 2
  | SObservability => Some 3
  | SSamples => Some 4
  | STiles => Some 5
  | SSchedule => Some 6
  | SSummary => Some 7
  | SEfficiency => Some 8
  end.

(** The places of the calls of a trace, in the order of the trace *)
Definition call_order (h : list event) : list nat :=
  omap (fun e => stage_rank (stage_of e)) h.

(** ** How a run can fail *)

(** [wp m Q P s]: from [s] the computation [m] returns in a state that
    satisfies [Q], exits, or raises an exception that satisfies [P]. *)
Definition wp {St A} (m : M St A) (Q : A -> St -> Prop) (P : exn -> Prop) (s : St)
  : Prop :=
  match result_of (m s) with
  | Ok a s' => Q a s'
  | Exit => True
  | Raise e => P e
  end.

(** The three ways in which the script reads a variable that no earlier
    statement has bound: the galaxy tiling without the catalog (line 614),
    the reading of coverage files without MOC structures (line 646), and
    the efficiency for a model type that is neither of the two the script
    knows (line 679). *)
Definition name_error_cause (opts : Opts.t) (x : string) : Prop :=
  (x = "catalog_struct"%string /\ Opts.doTiles opts = true /\
   Opts.tilesType opts = "galaxy"%string /\ Opts.doCatalog opts = false) \/
  (x = "moc_structs"%string /\ Opts.doSchedule opts = false /\
   Opts.doCoverage opts = true /\
   (Opts.doTiles opts = false \/
    (Opts.tilesType opts <> "moc"%string /\ Opts.tilesType opts <> "ranked"%string))) \/
  (x = "lightcurve_structs"%string /\ Opts.doEfficiency opts = true /\
   Opts.doSchedule opts || Opts.doCoverage opts = true /\
   Opts.modelType opts <> "file"%string /\ Opts.modelType opts <> "Tophat"%string).

(** The exceptions a run can end with *)
Definition expected_exn (opts : Opts.t) (e : exn) : Prop :=
  match e with
  | NameError x => name_error_cause opts x
  | AttributeError | IndexError => False
  | _ => True
  end.

(** [s'] binds the variables of the script as [s] does and has the same
    [params["Ntiles"]]. *)
Definition same_bindings (s s' : state) : Prop :=
  tile_structs s' = tile_structs s /\
  catalog_struct s' = catalog_struct s /\
  moc_structs s' = moc_structs s /\
  coverage_struct s' = coverage_struct s /\
  Params.tilesType (params s') = Params.tilesType (params s) /\
  Params.Ntiles (params s') = Params.Ntiles (params s).

(** The state of the script before the skymap is loaded, after it, after
    the tiling and after the scheduling *)
Definition tagged (opts : Opts.t) (s : state) : Prop :=
  Params.tilesType (params s) = Opts.tilesType opts.

Definition loaded (opts : Opts.t) (s : state) : Prop :=
  tagged opts s /\ (Opts.doCatalog opts = true -> catalog_struct s = true).

Definition tiled (opts : Opts.t) (s : state) : Prop :=
  (Opts.doCatalog opts = true -> catalog_struct s = true) /\
  (Opts.doTiles opts = true -> is_Some (tile_structs s)) /\
  (Opts.doTiles opts = true ->
   Opts.tilesType opts = "moc"%string \/ Opts.tilesType opts = "ranked"%string ->
   moc_structs s = true).

Definition planned (opts : Opts.t) (s : state) : Prop :=
  (Opts.doCatalog opts = true -> catalog_struct s = true) /\
  (Opts.doSchedule opts || Opts.doCoverage opts = true -> coverage_struct s = true).

(** ** The efficiency step *)

(** The light curves of lines 670-677 and the call that gives them *)
Definition lightcurves (env : Env) (opts : Opts.t) (p : Params.t)
  : option (list lightcurve) :=
  if String.eqb (Opts.modelType opts) "file"
  then Some (read_files env (Params.lightcurveFiles p))
  else if String.eqb (Opts.modelType opts) "Tophat"
  then Some (tophat env (Opts.mag opts) (Opts.dmag opts))
  else None.

Definition lightcurve_call (opts : Opts.t) : list event :=
  if String.eqb (Opts.modelType opts) "file" then [LightcurveReadFiles]
  else if String.eqb (Opts.modelType opts) "Tophat" then [LightcurveTophat]
  else [].

(** The calls of lines 679-689 for one light curve *)
Definition efficiency_of (opts : Opts.t) (lc : lightcurve) : list event :=
  ComputeEfficiency (lc_key lc) ::
  (if Opts.do3D opts then [PrintPercent (lc_key lc)] else []).

(** The calls of lines 691-693 *)
Definition efficiency_plot (opts : Opts.t) : list event :=
  if Opts.doPlots opts then [Print "Plotting efficiency..."; PlotEfficiency] else [].

(** ** The options in [params] *)

(** The GPS time a run uses (lines 495-496) *)
Definition gpstime_by_source (env : Env) (opts : Opts.t) : float :=
  if Opts.doEvent opts then snd (get_event env) else Opts.gpstime opts.

(** ** Further sample runs *)

(** Reading a coverage plan from files after hierarchical tiling *)
Definition coverage_only_opts : Opts.t :=
  {| Opts.configDirectory := "config"; Opts.skymap := "skymap.fits";
     Opts.gpstime := 1167559936%float; Opts.do3D := false;
     Opts.outputDir := "output"; Opts.doEvent := false; Opts.doSkymap := true;
     Opts.doSamples := false; Opts.doCoverage := true; Opts.doSchedule := false;
     Opts.doPlots := false; Opts.doTiles := true; Opts.tilesType := "hierarchical";
     Opts.doCatalog := false; Opts.doObservability := false;
     Opts.doObservabilityExit := false; Opts.observability_thresh := 0.0625%float;
     Opts.doEfficiency := true; Opts.modelType := "Bulla"; Opts.mag := (-16)%float;
     Opts.dmag := 0%float; Opts.telescopes := "A,B";
     Opts.lightcurveFiles := "Me2017_H4M050V20.dat"; Opts.Ntiles := 10;
     Opts.Tobs := "0.0,1.0"; Opts.doFootprint := false; Opts.start_time := None;
     Opts.end_time := None; Opts.doTrueLocation := false;
     Opts.doSingleExposure := false; Opts.filters := "r,g,r";
     Opts.exposuretimes := "30.0,30.0,30.0"; Opts.max_nb_tiles := "-1,-1,-1";
     Opts.doSplit := false; Opts.raslice := "0.0,24.0" |}.

(** A run that asks for the efficiency, with or without a coverage plan *)
Definition efficiency_opts (doSchedule doCoverage : bool) (modelType : string)
  : Opts.t :=
  {| Opts.configDirectory := "config"; Opts.skymap := "skymap.fits";
     Opts.gpstime := 1167559936%float; Opts.do3D := false;
     Opts.outputDir := "output"; Opts.doEvent := false; Opts.doSkymap := true;
     Opts.doSamples := false; Opts.doCoverage := doCoverage;
     Opts.doSchedule := doSchedule;
     Opts.doPlots := false; Opts.doTiles := true; Opts.tilesType := "moc";
     Opts.doCatalog := false; Opts.doObservability := false;
     Opts.doObservabilityExit := false; Opts.observability_thresh := 0.0625%float;
     Opts.doEfficiency := true; Opts.modelType := modelType; Opts.mag := (-16)%float;
     Opts.dmag := 0%float; Opts.telescopes := "A,B";
     Opts.lightcurveFiles := "Me2017_H4M050V20.dat"; Opts.Ntiles := 10;
     Opts.Tobs := "0.0,1.0"; Opts.doFootprint := false; Opts.start_time := None;
     Opts.end_time := None; Opts.doTrueLocation := false;
     Opts.doSingleExposure := false; Opts.filters := "r,g,r";
     Opts.exposuretimes := "30.0,30.0,30.0"; Opts.max_nb_tiles := "-1,-1,-1";
     Opts.doSplit := false; Opts.raslice := "0.0,24.0" |}.

(** [env] with other configuration files *)
Definition with_files (files : string -> gmap string value) (env : Env) : Env :=
  {| py_float := py_float env; np_log10 := np_log10 env; np_sum := np_sum env;
     isdir := isdir env; isfile := isfile env; loadtxt := loadtxt env;
     now := now env; yesterday := yesterday env; isot := isot env;
     readParamsFromFile := files;
     read_reference_table := read_reference_table env;
     get_event := get_event env; footprint_skymap := footprint_skymap env;
     observability := observability env; read_files := read_files env;
     tophat := tophat env; tiles_moc := tiles_moc env;
     tiles_ranked := tiles_ranked env;
     tiles_hierarchical := tiles_hierarchical env;
     tiles_greedy := tiles_greedy env; tiles_galaxy := tiles_galaxy env;
     tiles_allocated := tiles_allocated env;
     efficiency_has_3D := efficiency_has_3D env |}.

(** Telescope B's file gives no elevation. *)
Definition no_elevation_env : Env :=
  with_files (fun t => if String.eqb t "B" then delete "elevation" sample_config
                       else sample_config) sample_env.

(** Both telescopes name the tessellation file of their own. *)
Definition tesselation_env : Env :=
  with_files (fun t => <["tesselationFile" := VStr (t +:+ ".tess")]>
                         (<["FOV_type" := VStr "square"]> sample_config))
             sample_env.

(** [opts] with another observation window *)
Definition with_Tobs (Tobs : string) (o : Opts.t) : Opts.t :=
  {| Opts.configDirectory := Opts.configDirectory o; Opts.skymap := Opts.skymap o;
     Opts.gpstime := Opts.gpstime o; Opts.do3D := Opts.do3D o;
     Opts.outputDir := Opts.outputDir o; Opts.doEvent := Opts.doEvent o;
     Opts.doSkymap := Opts.doSkymap o; Opts.doSamples := Opts.doSamples o;
     Opts.doCoverage := Opts.doCoverage o; Opts.doSchedule := Opts.doSchedule o;
     Opts.doPlots := Opts.doPlots o; Opts.doTiles := Opts.doTiles o;
     Opts.tilesType := Opts.tilesType o; Opts.doCatalog := Opts.doCatalog o;
     Opts.doObservability := Opts.doObservability o;
     Opts.doObservabilityExit := Opts.doObservabilityExit o;
     Opts.observability_thresh := Opts.observability_thresh o;
     Opts.doEfficiency := Opts.doEfficiency o; Opts.modelType := Opts.modelType o;
     Opts.mag := Opts.mag o; Opts.dmag := Opts.dmag o;
     Opts.telescopes := Opts.telescopes o;
     Opts.lightcurveFiles := Opts.lightcurveFiles o; Opts.Ntiles := Opts.Ntiles o;
     Opts.Tobs := Tobs; Opts.doFootprint := Opts.doFootprint o;
     Opts.start_time := Opts.start_time o; Opts.end_time := Opts.end_time o;
     Opts.doTrueLocation := Opts.doTrueLocation o;
     Opts.doSingleExposure := Opts.doSingleExposure o;
     Opts.filters := Opts.filters o; Opts.exposuretimes := Opts.exposuretimes o;
     Opts.max_nb_tiles := Opts.max_nb_tiles o; Opts.doSplit := Opts.doSplit o;
     Opts.raslice := Opts.raslice o |}.

(** Tiling and scheduling with the MOC strategy, all defaults *)
Definition plain_opts : Opts.t :=
  sample_opts false false true false true true false "moc" "r,g,r".

(** * Reasoning about runs *)

Section MonadLaws.
Context {St : Type}.

Lemma run_bind {A B} (m : M St A) (k : A -> M St B) s :
  (m ≫= k) s =
    match m s with
    | (t1, Ok a s1) => prepend t1 (k a s1)
    | (t1, Exit) => (t1, Exit)
    | (t1, Raise e) => (t1, Raise e)
    end.
Proof.
  unfold mbind, M_bind, bind. destruct (m s) as [t1 [a s1| |e]]; try reflexivity.
  destruct (k a s1); reflexivity.
Qed.

Lemma run_bind_pure {A B} (m : M St A) (k : A -> M St B) s a s1 :
  m s = ([], Ok a s1) -> (m ≫= k) s = k a s1.
Proof.
  intros H. unfold mbind, M_bind, bind. rewrite H. destruct (k a s1); reflexivity.
Qed.

Lemma run_ret_bind {A B} (a : A) (k : A -> M St B) s : (ret a ≫= k) s = k a s.
Proof. apply run_bind_pure. reflexivity. Qed.

Lemma run_of_option_bind {A B} e (a : A) (k : A -> M St B) s :
  (of_option e (Some a) ≫= k) s = k a s.
Proof. apply run_bind_pure. reflexivity. Qed.

Lemma run_as_float_bind {B} x (k : float -> M St B) s :
  (as_float (VFloat x) ≫= k) s = k x s.
Proof. apply run_bind_pure. reflexivity. Qed.

Lemma emits_ret {A} P (a : A) : emits P (ret a : M St A).
Proof. intros s. constructor. Qed.

Lemma emits_bind {A B} P (m : M St A) (k : A -> M St B) :
  emits P m -> (forall a, emits P (k a)) -> emits P (m ≫= k).
Proof.
  intros Hm Hk s. rewrite run_bind. specialize (Hm s).
  destruct (m s) as [t1 [a s1| |e]]; simpl in *; try assumption.
  apply Forall_app. split; [assumption | apply Hk].
Qed.

Lemma emits_emit P e : P e -> emits P (emit e : M St unit).
Proof. intros H s. repeat constructor. exact H. Qed.

Lemma emits_exit {A} P : emits P (exit0 : M St A).
Proof. intros s. constructor. Qed.

Lemma emits_raise {A} P e : emits P (raise e : M St A).
Proof. intros s. constructor. Qed.

Lemma emits_get P : emits P (get : M St St).
Proof. intros s. constructor. Qed.

Lemma emits_modify P f : emits P (modify f : M St unit).
Proof. intros s. constructor. Qed.

Lemma emits_of_option {A} P e (o : option A) : emits P (of_option e o : M St A).
Proof. destruct o; [apply emits_ret | apply emits_raise]. Qed.

Lemma emits_when P b (m : M St unit) : emits P m -> emits P (when b m).
Proof. destruct b; [trivial | intros _; apply emits_ret]. Qed.

Lemma emits_for {A} P (xs : list A) (body : A -> M St unit) :
  (forall x, emits P (body x)) -> emits P (for_ xs body).
Proof.
  intros H. induction xs as [|x xs IH]; simpl.
  - apply emits_ret.
  - apply emits_bind; [apply H | intros _; exact IH].
Qed.

Lemma emits_as_float P v : emits P (as_float v : M St float).
Proof. destruct v; first [apply emits_ret | apply emits_raise]. Qed.

Lemma emits_as_str P v : emits P (as_str v : M St string).
Proof. destruct v; first [apply emits_ret | apply emits_raise]. Qed.

Lemma emits_float_array P env tokens : emits P (float_array env tokens : M St _).
Proof.
  induction tokens as [|tok rest IH]; simpl.
  - apply emits_ret.
  - apply emits_bind; [apply emits_of_option | intros x].
    apply emits_bind; [exact IH | intros xs; apply emits_ret].
Qed.

Lemma emits_weaken {A} (P P' : event -> Prop) (m : M St A) :
  (forall e, P e -> P' e) -> emits P m -> emits P' m.
Proof. intros H Hm s. eapply Forall_impl; [apply Hm | exact H]. Qed.

Lemma halts_exit {A} : halts (exit0 : M St A).
Proof. intros s a s'. discriminate. Qed.

Lemma halts_raise {A} e : halts (raise e : M St A).
Proof. intros s a s'. discriminate. Qed.

Lemma halts_bind_l {A B} (m : M St A) (k : A -> M St B) :
  halts m -> halts (m ≫= k).
Proof.
  intros Hm s b s'. rewrite run_bind. specialize (Hm s).
  destruct (m s) as [t1 [a s1| |e]]; simpl in *; try discriminate.
  exfalso. exact (Hm a s1 eq_refl).
Qed.

Lemma halts_bind_r {A B} (m : M St A) (k : A -> M St B) :
  (forall a, halts (k a)) -> halts (m ≫= k).
Proof.
  intros Hk s b s'. rewrite run_bind.
  destruct (m s) as [t1 [a s1| |e]]; simpl; try discriminate.
  apply Hk.
Qed.

Lemma keeps_ret {A B} (f : St -> B) (a : A) : keeps f (ret a : M St A).
Proof. intros s a' s' [= _ <-]. reflexivity. Qed.

Lemma keeps_bind {A B C} (f : St -> C) (m : M St A) (k : A -> M St B) :
  keeps f m -> (forall a, keeps f (k a)) -> keeps f (m ≫= k).
Proof.
  intros Hm Hk s b s'. rewrite run_bind. specialize (Hm s).
  destruct (m s) as [t1 [a s1| |e]]; simpl in *; try discriminate.
  intros H. rewrite (Hk a s1 b s' H). exact (Hm a s1 eq_refl).
Qed.

Lemma keeps_emit {B} (f : St -> B) e : keeps f (emit e : M St unit).
Proof. intros s a s' [= _ <-]. reflexivity. Qed.

Lemma keeps_exit {A B} (f : St -> B) : keeps f (exit0 : M St A).
Proof. intros s a s'. discriminate. Qed.

Lemma keeps_raise {A B} (f : St -> B) e : keeps f (raise e : M St A).
Proof. intros s a s'. discriminate. Qed.

Lemma keeps_modify {B} (f : St -> B) g :
  (forall s, f (g s) = f s) -> keeps f (modify g : M St unit).
Proof. intros H s a s' [= _ <-]. apply H. Qed.

Lemma keeps_of_option {A B} (f : St -> B) e (o : option A) :
  keeps f (of_option e o : M St A).
Proof. destruct o; [apply keeps_ret | apply keeps_raise]. Qed.

Lemma keeps_when {B} (f : St -> B) b (m : M St unit) :
  keeps f m -> keeps f (when b m).
Proof. destruct b; [trivial | intros _; apply keeps_ret]. Qed.

Lemma keeps_for {A B} (f : St -> B) (xs : list A) (body : A -> M St unit) :
  (forall x, keeps f (body x)) -> keeps f (for_ xs body).
Proof.
  intros H. induction xs as [|x xs IH]; simpl.
  - apply keeps_ret.
  - apply keeps_bind; [apply H | intros _; exact IH].
Qed.

Lemma triple_bind {A B} P (m : M St A) R (k : A -> M St B) Q E :
  triple P m R E -> (forall a, triple (R a) (k a) Q E) -> triple P (m ≫= k) Q E.
Proof.
  intros Hm Hk h s HP. rewrite run_bind. specialize (Hm h s HP).
  destruct (m s) as [t1 [a s1| |e]]; try assumption.
  specialize (Hk a (h ++ t1) s1 Hm). unfold trace_of, result_of.
  destruct (k a s1) as [t2 r]. simpl. rewrite app_assoc. exact Hk.
Qed.

Lemma triple_weaken {A} (P P' : list event -> St -> Prop) (m : M St A)
    (Q Q' : A -> list event -> St -> Prop) (E E' : list event -> Prop) :
  triple P m Q E ->
  (forall h s, P' h s -> P h s) ->
  (forall a h s, Q a h s -> Q' a h s) ->
  (forall h, E h -> E' h) ->
  triple P' m Q' E'.
Proof.
  intros Hm HP HQ HE h s H. specialize (Hm h s (HP h s H)).
  destruct (m s) as [t [a s'| |e]]; auto.
Qed.
End MonadLaws.

Lemma emits_gets {A} P (f : state -> A) : emits P (gets f).
Proof. intros s. constructor. Qed.

Lemma emits_bound P name f : emits P (bound name f).
Proof.
  intros s. unfold bound, bind, gets, trace_of. simpl. destruct (f s); constructor.
Qed.

Lemma keeps_gets {A B} (g : state -> B) (f : state -> A) : keeps g (gets f).
Proof. intros s a s' [= _ <-]. reflexivity. Qed.

Lemma keeps_bound {B} (g : state -> B) name f : keeps g (bound name f).
Proof.
  intros s a s'. unfold bound, bind, gets, result_of. simpl. destruct (f s); simpl.
  - intros [= _ <-]. reflexivity.
  - discriminate.
Qed.

(** Symbolic steps for goals [emits P m] and [keeps f m] over the
    combinators of the script *)
Ltac emits_step :=
  first
    [ apply emits_ret | apply emits_exit | apply emits_raise | apply emits_get
    | apply emits_gets | apply emits_modify | apply emits_of_option
    | apply emits_bound | apply emits_as_float | apply emits_as_str
    | apply emits_float_array
    | apply emits_emit; (reflexivity || discriminate || (simpl; tauto) || (simpl; congruence))
    | apply emits_when | apply emits_for; intros ?
    | apply emits_bind; [ | intros ? ]
    | match goal with
      | |- emits _ (if ?b then _ else _) => destruct b
      | |- emits _ (match ?o with Some _ => _ | None => _ end) => destruct o
      | |- emits _ (match ?v with VTess _ => _ | _ => _ end) => destruct v
      | |- emits _ (match ?v with NtilesList _ => _ | _ => _ end) => destruct v
      end ].

Ltac keeps_step :=
  first
    [ apply keeps_ret | apply keeps_exit | apply keeps_raise
    | apply keeps_gets | apply keeps_of_option | apply keeps_bound
    | apply keeps_emit
    | apply keeps_modify; intros ?; reflexivity
    | apply keeps_when | apply keeps_for; intros ?
    | apply keeps_bind; [ | intros ? ]
    | match goal with
      | |- keeps _ (if ?b then _ else _) => destruct b
      | |- keeps _ (match ?o with Some _ => _ | None => _ end) => destruct o
      | |- keeps _ (match ?v with VTess _ => _ | _ => _ end) => destruct v
      | |- keeps _ (match ?v with NtilesList _ => _ | _ => _ end) => destruct v
      end ].

(** * What each part of the script emits and keeps *)

Section Pointwise.
Context {St : Type}.

Lemma trace_bind {A B} P (m : M St A) (k : A -> M St B) s :
  Forall P (trace_of (m s)) ->
  (forall a s1, result_of (m s) = Ok a s1 -> Forall P (trace_of (k a s1))) ->
  Forall P (trace_of ((m ≫= k) s)).
Proof.
  intros Hm Hk. rewrite run_bind.
  destruct (m s) as [t1 [a s1| |e]]; simpl in *; try assumption.
  apply Forall_app. split; [assumption | apply Hk; reflexivity].
Qed.

Lemma ok_bind_inv {A B} (m : M St A) (k : A -> M St B) s b s' :
  result_of ((m ≫= k) s) = Ok b s' ->
  exists a s1, result_of (m s) = Ok a s1 /\ result_of (k a s1) = Ok b s'.
Proof.
  rewrite run_bind. destruct (m s) as [t1 [a s1| |e]]; simpl; try discriminate.
  intros H. exists a, s1. split; [reflexivity | exact H].
Qed.
End Pointwise.

Ltac emits_all := repeat emits_step.
Ltac keeps_all := repeat keeps_step.

Lemma emits_single_exposure {St} env times cfg :
  emits (from []) (single_exposure env times cfg : M St _).
Proof. unfold single_exposure. emits_all. Qed.

Lemma emits_load_tesselation {St} env opts telescope cfg :
  emits (from [SSetup]) (load_tesselation env opts telescope cfg : M St _).
Proof. unfold load_tesselation, from. emits_all. Qed.

Lemma emits_load_references {St} env cfg :
  emits (from [SSetup]) (load_references env cfg : M St _).
Proof. unfold load_references, from. emits_all. Qed.

Lemma emits_make_observer {St} cfg :
  emits (from []) (make_observer cfg : M St _).
Proof. unfold make_observer. emits_all. Qed.

Lemma emits_telescope_config env opts telescope :
  emits (from [SSetup]) (telescope_config env opts telescope).
Proof.
  unfold telescope_config.
  apply emits_bind; [apply emits_emit; unfold from; simpl; tauto | intros _].
  apply emits_bind; [ | intros cfg1 ].
  { destruct (Opts.doSingleExposure opts); [ | apply emits_ret ].
    eapply emits_weaken; [ | apply emits_single_exposure ]. intros e []. }
  apply emits_bind; [apply emits_load_tesselation | intros cfg2].
  apply emits_bind; [apply emits_load_references | intros cfg3].
  apply emits_bind; [ | intros cfg4; apply emits_modify ].
  eapply emits_weaken; [ | apply emits_make_observer ]. intros e [].
Qed.

Lemma emits_parse_time {St} P env d o : emits P (parse_time env d o : M St _).
Proof. unfold parse_time. emits_all. Qed.

Lemma emits_params_struct env opts :
  emits (from [SSetup]) (params_struct env opts).
Proof.
  unfold params_struct.
  apply emits_bind; [ apply emits_for; intros t; apply emits_telescope_config | intros _ ].
  repeat (apply emits_bind; [ first [ apply emits_float_array | apply emits_parse_time | apply emits_get ] | intros ? ]).
  apply emits_ret.
Qed.

Lemma emits_prelude env opts : emits (from [SSetup]) (prelude env opts).
Proof.
  unfold prelude. apply emits_bind; [ | intros _; apply emits_params_struct ].
  apply emits_when, emits_emit. unfold from. simpl. tauto.
Qed.

Lemma emits_check_lengths : emits (from [SOutput]) check_lengths.
Proof. unfold check_lengths, from. emits_all. Qed.

Lemma emits_select_skymap env opts :
  emits (from [SOutput; SSource]) (select_skymap env opts).
Proof. unfold select_skymap, from. emits_all. Qed.

Lemma emits_load_skymap opts : emits (from [SOutput; SLoad]) (load_skymap opts).
Proof. unfold load_skymap, from. emits_all. Qed.

Lemma emits_check_observability env opts :
  emits (from [SOutput; SObservability; SLightcurve]) (check_observability env opts).
Proof. unfold check_observability, observability_exit, from. emits_all. Qed.

Lemma emits_samples_and_split opts :
  emits (from [SOutput; SSamples]) (samples_and_split opts).
Proof. unfold samples_and_split, from. emits_all. Qed.

Lemma emits_set_tesselation P telescope v : emits P (set_tesselation telescope v).
Proof. unfold set_tesselation. emits_all. Qed.

Lemma emits_append_row P telescope t : emits P (append_row telescope t).
Proof.
  unfold append_row. emits_all; try apply emits_set_tesselation.
Qed.

Lemma emits_rebuild_tesselation P telescope : emits P (rebuild_tesselation telescope).
Proof.
  unfold rebuild_tesselation.
  apply emits_bind; [apply emits_set_tesselation | intros _].
  emits_all.
Qed.

Lemma emits_append_Ntiles P n : emits P (append_Ntiles n).
Proof. unfold append_Ntiles. emits_all. Qed.

Lemma emits_dispatch_tiles env : emits (from [SOutput; STiles]) (dispatch_tiles env).
Proof.
  unfold dispatch_tiles, from.
  emits_all.
Qed.

Lemma emits_generate_tiles env opts :
  emits (from [SOutput; STiles]) (generate_tiles env opts).
Proof.
  unfold generate_tiles. apply emits_when.
  apply emits_bind; [apply emits_dispatch_tiles | intros _].
  unfold from. emits_all.
Qed.

Lemma emits_schedule env opts :
  emits (from [SOutput; SSchedule]) (schedule env opts).
Proof. unfold schedule, from. emits_all. Qed.

Lemma emits_summary opts : emits (from [SOutput; SSummary]) (summary opts).
Proof. unfold summary, from. emits_all. Qed.

Lemma emits_efficiency env opts :
  emits (from [SOutput; SLightcurve; SEfficiency]) (efficiency env opts).
Proof. unfold efficiency, from. emits_all. Qed.

(** * The run as a whole *)

Lemma float_array_ok {St} env tokens (s : St) xs s' :
  result_of (float_array env tokens s) = Ok xs s' ->
  length xs = length tokens /\ s' = s.
Proof.
  revert xs s'. induction tokens as [|tok rest IH]; intros xs s'; simpl.
  - intros [= <- <-]. split; reflexivity.
  - intros H. apply ok_bind_inv in H as (x & s1 & Hx & H).
    apply ok_bind_inv in H as (ys & s2 & Hys & H).
    injection H as <- <-.
    destruct (py_float env tok); simpl in Hx; [ | discriminate ].
    injection Hx as _ <-.
    destruct (IH _ _ Hys) as [Hlen ->]. simpl. split; [ congruence | reflexivity ].
Qed.

(** The keys of [params] that [params_struct] copies or splits from the
    options *)
Lemma params_struct_fields env opts c p c' :
  result_of (params_struct env opts c) = Ok p c' ->
  Params.telescopes p = split_comma (Opts.telescopes opts) /\
  Params.filters p = split_comma (Opts.filters opts) /\
  length (Params.exposuretimes p) = length (split_comma (Opts.exposuretimes opts)) /\
  Params.tilesType p = Opts.tilesType opts /\
  Params.doTrueLocation p = Opts.doTrueLocation opts /\
  Params.skymap p = Opts.skymap opts /\
  Params.Ntiles p = NtilesInt (Opts.Ntiles opts).
Proof.
  unfold params_struct. intros H.
  apply ok_bind_inv in H as (? & s1 & _ & H).
  apply ok_bind_inv in H as (Tobs & s2 & _ & H).
  apply ok_bind_inv in H as (raslice & s3 & _ & H).
  apply ok_bind_inv in H as (times & s4 & Htimes & H).
  apply ok_bind_inv in H as (nb & s5 & _ & H).
  apply ok_bind_inv in H as (t0 & s6 & _ & H).
  apply ok_bind_inv in H as (t1 & s7 & _ & H).
  apply ok_bind_inv in H as (cfg & s8 & _ & H).
  injection H as <- _. simpl.
  apply float_array_ok in Htimes as [Hlen _].
  repeat split; try reflexivity. exact Hlen.
Qed.

Lemma prelude_fields env opts c p c' :
  result_of (prelude env opts c) = Ok p c' ->
  Params.telescopes p = split_comma (Opts.telescopes opts) /\
  Params.filters p = split_comma (Opts.filters opts) /\
  length (Params.exposuretimes p) = length (split_comma (Opts.exposuretimes opts)) /\
  Params.tilesType p = Opts.tilesType opts /\
  Params.doTrueLocation p = Opts.doTrueLocation opts /\
  Params.skymap p = Opts.skymap opts /\
  Params.Ntiles p = NtilesInt (Opts.Ntiles opts).
Proof.
  unfold prelude. intros H. apply ok_bind_inv in H as (? & s1 & _ & H).
  eapply params_struct_fields, H.
Qed.

(** The run is the prelude followed, when it returns, by the script. *)
Lemma main_cases env opts :
  (exists t1 p c, prelude env opts ∅ = (t1, Ok p c) /\
     main env opts = (t1 ++ trace_of (script env opts (init_state p)),
                      result_of (script env opts (init_state p)))) \/
  (returns (result_of (prelude env opts ∅)) = false /\
   returns (result_of (main env opts)) = false /\
   trace_of (main env opts) = trace_of (prelude env opts ∅)).
Proof.
  unfold main. destruct (prelude env opts ∅) as [t1 [p c| |e]] eqn:Hp.
  - left. exists t1, p, c. split; [reflexivity | ].
    destruct (script env opts (init_state p)); reflexivity.
  - right. repeat split.
  - right. repeat split.
Qed.

Lemma main_trace P env opts :
  (forall e, from [SSetup] e -> P e) ->
  (forall p c, result_of (prelude env opts ∅) = Ok p c ->
     Forall P (trace_of (script env opts (init_state p)))) ->
  Forall P (trace_of (main env opts)).
Proof.
  intros HP Hs.
  assert (Hpre : Forall P (trace_of (prelude env opts ∅))).
  { eapply Forall_impl; [ apply emits_prelude | exact HP ]. }
  destruct (main_cases env opts) as [(t1 & p & c & Hp & ->)|(_ & _ & ->)];
    [ | exact Hpre ].
  rewrite Hp in Hpre, Hs. simpl in *. apply Forall_app. split; [ exact Hpre | ].
  eapply Hs. reflexivity.
Qed.

Lemma main_returns env opts :
  returns (result_of (main env opts)) = true ->
  exists p c, result_of (prelude env opts ∅) = Ok p c /\
    returns (result_of (script env opts (init_state p))) = true.
Proof.
  destruct (main_cases env opts) as [(t1 & p & c & Hp & ->)|(_ & -> & _)];
    [ | discriminate ].
  intros H. exists p, c. rewrite Hp. split; [ reflexivity | exact H ].
Qed.

Lemma returns_Ok {St A} (r : res St A) :
  returns r = true -> exists a s, r = Ok a s.
Proof. destruct r; try discriminate. eauto. Qed.

Lemma check_lengths_mismatch s :
  length (Params.filters (params s)) <> length (Params.exposuretimes (params s)) ->
  check_lengths s =
    ([Print "The number of filters specified must match the number of exposure times."],
     Exit).
Proof.
  intros H. unfold check_lengths. rewrite run_bind. simpl.
  apply Nat.eqb_neq in H. rewrite H. reflexivity.
Qed.

Lemma script_mismatch env opts s :
  length (Params.filters (params s)) <> length (Params.exposuretimes (params s)) ->
  script env opts s =
    ([Print "The number of filters specified must match the number of exposure times."],
     Exit).
Proof.
  intros H. unfold script. rewrite run_bind, (check_lengths_mismatch s H). reflexivity.
Qed.

(** C3: when the filters list and the exposure-times list differ in length,
    the run does not return: it stops at the length check with [exit(0)]
    (or earlier, while [params] is built).  Every event of the run is a
    message or belongs to the construction of [params]; none belongs to
    tiling, time allocation, scheduling or reporting. *)
Theorem mismatched_lengths_rejected env opts :
  length (split_comma (Opts.filters opts))
    <> length (split_comma (Opts.exposuretimes opts)) ->
  returns (result_of (main env opts)) = false /\
  Forall (fun e => from [SOutput; SSetup] e /\
                   tiling_event e = false /\ coverage_event e = false)
         (trace_of (main env opts)) /\
  (forall t p c, prelude env opts ∅ = (t, Ok p c) ->
     main env opts =
       (t ++ [Print "The number of filters specified must match the number of exposure times."],
        Exit)).
Proof.
  intros Hne.
  assert (Hs : forall p c, result_of (prelude env opts ∅) = Ok p c ->
     script env opts (init_state p) =
       ([Print "The number of filters specified must match the number of exposure times."],
        Exit)).
  { intros p c Hp. apply script_mismatch. simpl.
    destruct (prelude_fields _ _ _ _ _ Hp) as (_ & -> & -> & _). exact Hne. }
  split; [ | split ].
  - destruct (returns (result_of (main env opts))) eqn:Hr; [ | reflexivity ].
    apply main_returns in Hr as (p & c & Hp & Hr).
    rewrite (Hs p c Hp) in Hr. discriminate.
  - apply main_trace.
    + intros e He. unfold from in *. simpl in He.
      destruct e; simpl in *; intuition discriminate.
    + intros p c Hp. rewrite (Hs p c Hp). simpl.
      constructor; [ | constructor ]. unfold from. simpl. tauto.
  - intros t p c Hp.
    destruct (main_cases env opts) as [(t1 & p' & c' & Hp' & ->)|(Hr & _)].
    + rewrite Hp in Hp'. injection Hp' as <- <- <-.
      rewrite (Hs p c); [ reflexivity | rewrite Hp; reflexivity ].
    + rewrite Hp in Hr. discriminate.
Qed.

Lemma mismatched_lengths_rejected_witness :
  length (split_comma "r,g") <> length (split_comma "30.0,30.0,30.0") /\
  returns (result_of (main sample_env mismatched_opts)) = false.
Proof.
  split.
  - vm_compute. discriminate.
  - apply (mismatched_lengths_rejected sample_env mismatched_opts).
    vm_compute. discriminate.
Defined.

(** * The skymap source *)

(** A goal [forall e, from l e -> P e] for a concrete [l] and [P] *)
Ltac by_stage :=
  let e := fresh "e" in
  intros e; unfold from; destruct e; simpl;
  intuition (try discriminate; try congruence).

Lemma emits_script P env opts :
  emits P check_lengths ->
  emits P (select_skymap env opts) ->
  emits P (load_skymap opts) ->
  emits P (check_observability env opts) ->
  emits P (samples_and_split opts) ->
  emits P (generate_tiles env opts) ->
  emits P (schedule env opts) ->
  emits P (summary opts) ->
  emits P (efficiency env opts) ->
  emits P (script env opts).
Proof.
  intros. unfold script.
  repeat (apply emits_bind; [ assumption | intros _ ]). assumption.
Qed.

(** A run that returns went through every part of the script. *)
Lemma script_ok_inv env opts s0 a s9 :
  result_of (script env opts s0) = Ok a s9 ->
  exists s1 s2 s3 s4 s5 s6 s7 s8,
    result_of (check_lengths s0) = Ok tt s1 /\
    result_of (select_skymap env opts s1) = Ok tt s2 /\
    result_of (load_skymap opts s2) = Ok tt s3 /\
    result_of (check_observability env opts s3) = Ok tt s4 /\
    result_of (samples_and_split opts s4) = Ok tt s5 /\
    result_of (generate_tiles env opts s5) = Ok tt s6 /\
    result_of (schedule env opts s6) = Ok tt s7 /\
    result_of (summary opts s7) = Ok tt s8 /\
    result_of (efficiency env opts s8) = Ok a s9.
Proof.
  unfold script. intros H.
  apply ok_bind_inv in H as ([] & s1 & H1 & H).
  apply ok_bind_inv in H as ([] & s2 & H2 & H).
  apply ok_bind_inv in H as ([] & s3 & H3 & H).
  apply ok_bind_inv in H as ([] & s4 & H4 & H).
  apply ok_bind_inv in H as ([] & s5 & H5 & H).
  apply ok_bind_inv in H as ([] & s6 & H6 & H).
  apply ok_bind_inv in H as ([] & s7 & H7 & H).
  apply ok_bind_inv in H as ([] & s8 & H8 & H).
  exists s1, s2, s3, s4, s5, s6, s7, s8. auto 10.
Qed.

Lemma check_lengths_ok s a s1 :
  result_of (check_lengths s) = Ok a s1 ->
  s1 = s /\ check_lengths s = ([], Ok tt s) /\
  length (Params.filters (params s)) = length (Params.exposuretimes (params s)).
Proof.
  unfold check_lengths. rewrite run_bind. simpl.
  destruct (Nat.eqb_spec (length (Params.filters (params s)))
              (length (Params.exposuretimes (params s)))) as [Heq|Hne]; simpl.
  - intros [= _ <-]. auto.
  - discriminate.
Qed.

Lemma check_lengths_match s :
  length (Params.filters (params s)) = length (Params.exposuretimes (params s)) ->
  check_lengths s = ([], Ok tt s).
Proof.
  intros H. unfold check_lengths. rewrite run_bind. simpl.
  apply Nat.eqb_eq in H. rewrite H. reflexivity.
Qed.

(** Lines 494-503 in one equation *)
Lemma select_skymap_run env opts s :
  select_skymap env opts s =
    if Opts.doEvent opts then
      ([GracedbGetEvent],
       Ok tt (set_params (Params.set_gpstime (snd (get_event env)))
                (set_params (Params.set_skymap (fst (get_event env))) s)))
    else if Opts.doFootprint opts then
      ([FootprintGetSkymap],
       Ok tt (set_params (Params.set_skymap (footprint_skymap env)) s))
    else if Opts.doSkymap opts then ([], Ok tt s)
    else ([Print "Need to enable --doEvent, --doFootprint or --doSkymap"], Exit).
Proof.
  unfold select_skymap.
  destruct (Opts.doEvent opts); [ reflexivity | ].
  destruct (Opts.doFootprint opts); [ reflexivity | ].
  destruct (Opts.doSkymap opts); reflexivity.
Qed.

Lemma select_skymap_trace env opts s :
  exists msgs, trace_of (select_skymap env opts s) = source_calls opts ++ msgs.
Proof.
  rewrite select_skymap_run. unfold source_calls.
  destruct (Opts.doEvent opts); [ exists []; reflexivity | ].
  destruct (Opts.doFootprint opts); [ exists []; reflexivity | ].
  destruct (Opts.doSkymap opts); eexists; reflexivity.
Qed.

Lemma select_skymap_skymap env opts s s' :
  result_of (select_skymap env opts s) = Ok tt s' ->
  Params.skymap (params s) = Opts.skymap opts ->
  Params.skymap (params s') = skymap_by_precedence env opts.
Proof.
  rewrite select_skymap_run. unfold skymap_by_precedence.
  destruct (Opts.doEvent opts); [ intros [= <-]; reflexivity | ].
  destruct (Opts.doFootprint opts); [ intros [= <-]; reflexivity | ].
  destruct (Opts.doSkymap opts); [ intros [= <-]; trivial | discriminate ].
Qed.

Lemma emits_select_sources env opts :
  emits (fun e => stage_of e = SSource -> In e (source_calls opts))
        (select_skymap env opts).
Proof.
  intros s. rewrite select_skymap_run. unfold source_calls.
  destruct (Opts.doEvent opts);
    [ | destruct (Opts.doFootprint opts); [ | destruct (Opts.doSkymap opts) ] ];
    simpl; repeat constructor; simpl; auto; discriminate.
Qed.

Lemma keeps_skymap_after_select env opts :
  keeps (fun s => Params.skymap (params s)) (load_skymap opts) /\
  keeps (fun s => Params.skymap (params s)) (check_observability env opts) /\
  keeps (fun s => Params.skymap (params s)) (samples_and_split opts) /\
  keeps (fun s => Params.skymap (params s)) (generate_tiles env opts) /\
  keeps (fun s => Params.skymap (params s)) (schedule env opts) /\
  keeps (fun s => Params.skymap (params s)) (summary opts) /\
  keeps (fun s => Params.skymap (params s)) (efficiency env opts).
Proof.
  repeat split.
  - unfold load_skymap. keeps_all.
  - unfold check_observability, observability_exit. keeps_all.
  - unfold samples_and_split. keeps_all.
  - unfold generate_tiles, dispatch_tiles. keeps_all.
  - unfold schedule. keeps_all.
  - unfold summary. keeps_all.
  - unfold efficiency. keeps_all.
Qed.

(** C9: the skymap of a run comes from the event database when [doEvent] is
    set, else from the generated footprint when [doFootprint] is set, else
    it is the user-supplied one when [doSkymap] is set.  No other source is
    called; a run that gets past the length check calls the chosen source
    right after building [params]; a run that returns used the chosen
    skymap.  With none of the three enabled the run stops and every event of
    it is a message or belongs to the construction of [params]: no telescope
    segments are computed and no skymap is read. *)
Theorem skymap_source_precedence env opts :
  Forall (fun e => stage_of e = SSource -> In e (source_calls opts))
         (trace_of (main env opts)) /\
  (forall t1 p c, prelude env opts ∅ = (t1, Ok p c) ->
     length (Params.filters p) = length (Params.exposuretimes p) ->
     exists rest, trace_of (main env opts) = t1 ++ source_calls opts ++ rest) /\
  (forall a s, result_of (main env opts) = Ok a s ->
     Params.skymap (params s) = skymap_by_precedence env opts) /\
  (Opts.doEvent opts = false -> Opts.doFootprint opts = false ->
   Opts.doSkymap opts = false ->
   returns (result_of (main env opts)) = false /\
   Forall (fun e => from [SOutput; SSetup] e /\ e <> GetTelescopeSegments /\
                    forall is3D, e <> ReadSkymap is3D)
          (trace_of (main env opts))).
Proof.
  split; [ | split; [ | split ] ].
  - apply main_trace; [ by_stage | intros p c _ ].
    apply emits_script; try apply emits_select_sources;
      (eapply emits_weaken;
       [ | first [ apply emits_check_lengths | apply emits_load_skymap
                 | apply emits_check_observability | apply emits_samples_and_split
                 | apply emits_generate_tiles | apply emits_schedule
                 | apply emits_summary | apply emits_efficiency ] ]; by_stage).
  - intros t1 p c Hp Hlen.
    destruct (main_cases env opts) as [(t1' & p' & c' & Hp' & ->)|(Hr & _)];
      [ | rewrite Hp in Hr; discriminate ].
    rewrite Hp in Hp'. injection Hp' as <- <- <-. simpl.
    unfold script. rewrite run_bind, check_lengths_match by exact Hlen. simpl.
    rewrite run_bind.
    destruct (select_skymap_trace env opts (init_state p)) as [msgs Hmsgs].
    destruct (select_skymap env opts (init_state p)) as [t2 [[] s2| |e]];
      simpl in *; subst t2; rewrite <- ?app_assoc; eexists; reflexivity.
  - intros a s Hr.
    destruct (main_cases env opts) as [(t1 & p & c & Hp & Hm)|(_ & Hr' & _)];
      [ | rewrite Hr in Hr'; discriminate ].
    rewrite Hm in Hr. simpl in Hr.
    apply script_ok_inv in Hr
      as (s1 & s2 & s3 & s4 & s5 & s6 & s7 & s8 & H1 & H2 & H3 & H4 & H5 & H6 & H7 & H8 & H9).
    apply check_lengths_ok in H1 as (-> & _).
    destruct (keeps_skymap_after_select env opts) as (K3 & K4 & K5 & K6 & K7 & K8 & K9).
    rewrite (K9 _ _ _ H9), (K8 _ _ _ H8), (K7 _ _ _ H7), (K6 _ _ _ H6),
      (K5 _ _ _ H5), (K4 _ _ _ H4), (K3 _ _ _ H3).
    apply (select_skymap_skymap env opts _ _ H2). simpl.
    assert (Hp' : result_of (prelude env opts ∅) = Ok p c) by (rewrite Hp; reflexivity).
    apply prelude_fields in Hp'. tauto.
  - intros He Hf Hs.
    assert (Hsel : forall s, select_skymap env opts s =
              ([Print "Need to enable --doEvent, --doFootprint or --doSkymap"], Exit)).
    { intros s. rewrite select_skymap_run, He, Hf, Hs. reflexivity. }
    split.
    + destruct (returns (result_of (main env opts))) eqn:Hr; [ | reflexivity ].
      apply main_returns in Hr as (p & c & _ & Hr).
      apply returns_Ok in Hr as (a & s & Hr).
      apply script_ok_inv in Hr as (s1 & s2 & ? & ? & ? & ? & ? & ? & _ & H2 & _).
      rewrite Hsel in H2. discriminate.
    + apply main_trace; [ by_stage | intros p c _ ].
      unfold script. apply trace_bind.
      { eapply Forall_impl; [ apply emits_check_lengths | by_stage ]. }
      intros [] s1 _. apply trace_bind.
      { rewrite Hsel. simpl. constructor; [ | constructor ].
        unfold from. simpl. intuition discriminate. }
      intros [] s2 H2. rewrite Hsel in H2. discriminate.
Qed.

Lemma skymap_source_precedence_witness :
  returns (result_of (main sample_env no_source_opts)) = false.
Proof.
  apply (skymap_source_precedence sample_env no_source_opts); reflexivity.
Defined.

(** * Scheduling needs the tiles of the same run *)

Section EmitsSome.
Context {St : Type}.

Lemma emits_some_bind_l {A B} Q (m : M St A) (k : A -> M St B) :
  emits_some Q m -> emits_some Q (m ≫= k).
Proof.
  intros Hm s b s'. rewrite run_bind. specialize (Hm s).
  destruct (m s) as [t1 [a s1| |e]]; simpl in *; try discriminate.
  intros _. apply Exists_app. left. eapply Hm. reflexivity.
Qed.

Lemma emits_some_bind_r {A B} Q (m : M St A) (k : A -> M St B) :
  (forall a, emits_some Q (k a)) -> emits_some Q (m ≫= k).
Proof.
  intros Hk s b s'. rewrite run_bind.
  destruct (m s) as [t1 [a s1| |e]]; simpl in *; try discriminate.
  intros H. apply Exists_app. right. eapply Hk, H.
Qed.

Lemma emits_some_emit (Q : event -> Prop) e : Q e -> emits_some Q (emit e : M St unit).
Proof. intros H s a s' _. apply Exists_cons_hd. exact H. Qed.

Lemma emits_some_halts {A} Q (m : M St A) : halts m -> emits_some Q m.
Proof. intros H s a s' Hr. exfalso. exact (H s a s' Hr). Qed.
End EmitsSome.

(** A dispatch that returns has called a tiling strategy. *)
Lemma dispatch_tiles_emits_some env :
  emits_some (fun e => tiling_event e = true) (dispatch_tiles env).
Proof.
  unfold dispatch_tiles. apply emits_some_bind_r. intros p.
  repeat match goal with
         | |- emits_some _ (if ?b then _ else _) => destruct b
         end;
    apply emits_some_bind_r; intros _;
    first [ apply emits_some_bind_l, emits_some_emit; reflexivity
          | apply emits_some_bind_r; intros _;
            apply emits_some_bind_l, emits_some_emit; reflexivity
          | apply emits_some_halts, halts_exit ].
Qed.

Lemma generate_tiles_binds env opts s a s' :
  result_of (generate_tiles env opts s) = Ok a s' ->
  tile_structs s' = tile_structs s \/
  Exists (fun e => tiling_event e = true) (trace_of (generate_tiles env opts s)).
Proof.
  unfold generate_tiles, when. destruct (Opts.doTiles opts).
  - intros H. right. revert H. apply emits_some_bind_l, dispatch_tiles_emits_some.
  - intros [= _ <-]. left. reflexivity.
Qed.

(** Lines 634-647 in one equation *)
Lemma schedule_run env opts s :
  schedule env opts s =
    if Opts.doSchedule opts then
      if Opts.doTiles opts then
        match tile_structs s with
        | Some _ =>
            ([Print "Generating coverage..."; Timeallocation],
             Ok tt (bind_coverage_struct (bind_tile_structs (tiles_allocated env) s)))
        | None => ([Print "Generating coverage..."], Raise (NameError "tile_structs"))
        end
      else ([Print "Need to enable --doTiles to use --doSchedule"], Exit)
    else if Opts.doCoverage opts then
      if moc_structs s then
        ([Print "Reading coverage from file..."; ReadCoverageFiles],
         Ok tt (bind_coverage_struct s))
      else ([Print "Reading coverage from file..."], Raise (NameError "moc_structs"))
    else ([], Ok tt s).
Proof.
  unfold schedule.
  destruct (Opts.doSchedule opts); [ destruct (Opts.doTiles opts) | destruct (Opts.doCoverage opts) ];
    try reflexivity.
  - unfold mbind, M_bind, bind, emit, gets, of_option. simpl.
    destruct (tile_structs s); reflexivity.
  - unfold mbind, M_bind, bind, emit, bound, gets. simpl.
    unfold bind. simpl. destruct (moc_structs s); reflexivity.
Qed.

Lemma allocation_after_tiling_nil : allocation_after_tiling [].
Proof. intros t1 t2 H. destruct t1; discriminate. Qed.

Lemma allocation_after_tiling_snoc h e :
  allocation_after_tiling h ->
  (e = Timeallocation -> Exists (fun e => tiling_event e = true) h) ->
  allocation_after_tiling (h ++ [e]).
Proof.
  intros Hh He t1 t2 Heq.
  destruct t2 as [|x t2' _] using rev_ind.
  - apply app_inj_tail in Heq as [<- Heq]. apply He. exact Heq.
  - change (h ++ [e] = t1 ++ (Timeallocation :: t2') ++ [x]) in Heq.
    rewrite app_assoc in Heq. apply app_inj_tail in Heq as [-> _].
    eapply Hh. reflexivity.
Qed.

Lemma allocation_after_tiling_app h t :
  allocation_after_tiling h ->
  Forall (fun e => e <> Timeallocation) t ->
  allocation_after_tiling (h ++ t).
Proof.
  intros Hh Ht. revert h Hh. induction Ht as [|e t He _ IH]; intros h Hh.
  - rewrite app_nil_r. exact Hh.
  - change (h ++ e :: t) with (h ++ [e] ++ t). rewrite app_assoc. apply IH.
    apply allocation_after_tiling_snoc; [ exact Hh | intros ->; contradiction ].
Qed.

(** A part that never calls time allocation and leaves [tile_structs]
    alone preserves the invariant. *)
Lemma triple_quiet {A} (m : M state A) :
  emits (fun e => e <> Timeallocation) m ->
  keeps tile_structs m ->
  triple tiles_bound_after_tiling m (fun _ => tiles_bound_after_tiling)
         allocation_after_tiling.
Proof.
  intros He Hk h s [H1 H2]. specialize (He s). specialize (Hk s).
  destruct (m s) as [t [a s'| |e]]; simpl in *;
    try (apply allocation_after_tiling_app; assumption).
  split; [ apply allocation_after_tiling_app; assumption | ].
  rewrite (Hk a s' eq_refl). intros Hb. apply Exists_app. left. auto.
Qed.

Lemma triple_generate_tiles env opts :
  triple tiles_bound_after_tiling (generate_tiles env opts)
         (fun _ => tiles_bound_after_tiling) allocation_after_tiling.
Proof.
  intros h s [H1 H2].
  assert (He : Forall (fun e => e <> Timeallocation)
                 (trace_of (generate_tiles env opts s))).
  { eapply Forall_impl; [ apply emits_generate_tiles | by_stage ]. }
  pose proof (generate_tiles_binds env opts s) as Hb.
  destruct (generate_tiles env opts s) as [t [a s'| |e]]; simpl in *;
    try (apply allocation_after_tiling_app; assumption).
  split; [ apply allocation_after_tiling_app; assumption | ].
  intros Hs. apply Exists_app.
  destruct (Hb a s' eq_refl) as [Heq|Hex]; [ left | right; exact Hex ].
  apply H2. rewrite <- Heq. exact Hs.
Qed.

Lemma triple_schedule env opts :
  triple tiles_bound_after_tiling (schedule env opts)
         (fun _ => tiles_bound_after_tiling) allocation_after_tiling.
Proof.
  intros h s [H1 H2]. rewrite schedule_run.
  destruct (Opts.doSchedule opts);
    [ destruct (Opts.doTiles opts); [ destruct (tile_structs s) eqn:Hts | ]
    | destruct (Opts.doCoverage opts); [ destruct (moc_structs s) | ] ].
  - assert (Hex : Exists (fun e => tiling_event e = true) h) by (apply H2; eauto).
    split.
    + change (allocation_after_tiling (h ++ [Print "Generating coverage..."] ++ [Timeallocation])).
      rewrite app_assoc. apply allocation_after_tiling_snoc.
      * apply allocation_after_tiling_snoc; [ exact H1 | discriminate ].
      * intros _. apply Exists_app. left. exact Hex.
    + intros _. apply Exists_app. left. exact Hex.
  - apply allocation_after_tiling_snoc; [ exact H1 | discriminate ].
  - apply allocation_after_tiling_snoc; [ exact H1 | discriminate ].
  - split.
    + apply allocation_after_tiling_app; [ exact H1 | ].
      repeat constructor; discriminate.
    + simpl. intros Hs. apply Exists_app. left. auto.
  - apply allocation_after_tiling_snoc; [ exact H1 | discriminate ].
  - rewrite app_nil_r. split; assumption.
Qed.

Lemma keeps_tile_structs env opts :
  keeps tile_structs check_lengths /\
  keeps tile_structs (select_skymap env opts) /\
  keeps tile_structs (load_skymap opts) /\
  keeps tile_structs (check_observability env opts) /\
  keeps tile_structs (samples_and_split opts) /\
  keeps tile_structs (summary opts) /\
  keeps tile_structs (efficiency env opts).
Proof.
  repeat split.
  - unfold check_lengths. keeps_all.
  - unfold select_skymap. keeps_all.
  - unfold load_skymap. keeps_all.
  - unfold check_observability, observability_exit. keeps_all.
  - unfold samples_and_split. keeps_all.
  - unfold summary. keeps_all.
  - unfold efficiency. keeps_all.
Qed.

Lemma triple_script env opts :
  triple tiles_bound_after_tiling (script env opts)
         (fun _ => tiles_bound_after_tiling) allocation_after_tiling.
Proof.
  destruct (keeps_tile_structs env opts) as (K1 & K2 & K3 & K4 & K5 & K8 & K9).
  unfold script.
  apply triple_bind with (R := fun _ => tiles_bound_after_tiling);
    [ apply triple_quiet; [ eapply emits_weaken; [ | apply emits_check_lengths ]; by_stage | exact K1 ] | intros _ ].
  apply triple_bind with (R := fun _ => tiles_bound_after_tiling);
    [ apply triple_quiet; [ eapply emits_weaken; [ | apply emits_select_skymap ]; by_stage | exact K2 ] | intros _ ].
  apply triple_bind with (R := fun _ => tiles_bound_after_tiling);
    [ apply triple_quiet; [ eapply emits_weaken; [ | apply emits_load_skymap ]; by_stage | exact K3 ] | intros _ ].
  apply triple_bind with (R := fun _ => tiles_bound_after_tiling);
    [ apply triple_quiet; [ eapply emits_weaken; [ | apply emits_check_observability ]; by_stage | exact K4 ] | intros _ ].
  apply triple_bind with (R := fun _ => tiles_bound_after_tiling);
    [ apply triple_quiet; [ eapply emits_weaken; [ | apply emits_samples_and_split ]; by_stage | exact K5 ] | intros _ ].
  apply triple_bind with (R := fun _ => tiles_bound_after_tiling);
    [ apply triple_generate_tiles | intros _ ].
  apply triple_bind with (R := fun _ => tiles_bound_after_tiling);
    [ apply triple_schedule | intros _ ].
  apply triple_bind with (R := fun _ => tiles_bound_after_tiling);
    [ apply triple_quiet; [ eapply emits_weaken; [ | apply emits_summary ]; by_stage | exact K8 ] | intros _ ].
  apply triple_quiet; [ eapply emits_weaken; [ | apply emits_efficiency ]; by_stage | exact K9 ].
Qed.

Lemma main_allocation_after_tiling env opts :
  allocation_after_tiling (trace_of (main env opts)).
Proof.
  assert (Hpre : allocation_after_tiling (trace_of (prelude env opts ∅))).
  { apply (allocation_after_tiling_app []); [ apply allocation_after_tiling_nil | ].
    eapply Forall_impl; [ apply emits_prelude | by_stage ]. }
  destruct (main_cases env opts) as [(t1 & p & c & Hp & ->)|(_ & _ & ->)];
    [ | exact Hpre ].
  rewrite Hp in Hpre. simpl in *.
  assert (HJ : tiles_bound_after_tiling t1 (init_state p)).
  { split; [ exact Hpre | ]. simpl. intros [x Hx]. discriminate. }
  pose proof (triple_script env opts t1 (init_state p) HJ) as H.
  destruct (script env opts (init_state p)) as [t [a s'| |e]]; simpl; try exact H.
  apply H.
Qed.

(** C8: with scheduling requested and tiling not enabled the run does not
    return, and no event of it computes, reads or reports a coverage plan;
    the scheduling part itself prints its message and exits.  In every run,
    whatever the options, a call of time allocation (which also schedules)
    comes after a tiling call of the same run. *)
Theorem schedule_requires_tiles env opts :
  (Opts.doSchedule opts = true -> Opts.doTiles opts = false ->
   returns (result_of (main env opts)) = false /\
   Forall (fun e => coverage_event e = false) (trace_of (main env opts)) /\
   forall s, schedule env opts s =
     ([Print "Need to enable --doTiles to use --doSchedule"], Exit)) /\
  allocation_after_tiling (trace_of (main env opts)).
Proof.
  split; [ | apply main_allocation_after_tiling ].
  intros Hs Ht.
  assert (Hrun : forall s, schedule env opts s =
            ([Print "Need to enable --doTiles to use --doSchedule"], Exit)).
  { intros s. rewrite schedule_run, Hs, Ht. reflexivity. }
  split; [ | split; [ | exact Hrun ] ].
  - destruct (returns (result_of (main env opts))) eqn:Hr; [ | reflexivity ].
    apply main_returns in Hr as (p & c & _ & Hr).
    apply returns_Ok in Hr as (a & s & Hr).
    apply script_ok_inv in Hr
      as (s1 & s2 & s3 & s4 & s5 & s6 & s7 & ? & _ & _ & _ & _ & _ & _ & H7 & _).
    rewrite Hrun in H7. discriminate.
  - apply main_trace; [ by_stage | intros p c _ ].
    unfold script.
    apply trace_bind;
      [ eapply Forall_impl; [ apply emits_check_lengths | by_stage ] | intros _ ? _ ].
    apply trace_bind;
      [ eapply Forall_impl; [ apply emits_select_skymap | by_stage ] | intros _ ? _ ].
    apply trace_bind;
      [ eapply Forall_impl; [ apply emits_load_skymap | by_stage ] | intros _ ? _ ].
    apply trace_bind;
      [ eapply Forall_impl; [ apply emits_check_observability | by_stage ] | intros _ ? _ ].
    apply trace_bind;
      [ eapply Forall_impl; [ apply emits_samples_and_split | by_stage ] | intros _ ? _ ].
    apply trace_bind;
      [ eapply Forall_impl; [ apply emits_generate_tiles | by_stage ] | intros _ ? _ ].
    apply trace_bind;
      [ rewrite Hrun; apply Forall_singleton; reflexivity | intros [] ? H7 ].
    rewrite Hrun in H7. discriminate.
Qed.

Lemma schedule_requires_tiles_witness :
  returns (result_of (main sample_env schedule_only_opts)) = false.
Proof.
  apply (schedule_requires_tiles sample_env schedule_only_opts); reflexivity.
Defined.

(** * The observability exit *)

Lemma keeps_telescopes_before_observability env opts :
  keeps (fun s => Params.telescopes (params s)) check_lengths /\
  keeps (fun s => Params.telescopes (params s)) (select_skymap env opts) /\
  keeps (fun s => Params.telescopes (params s)) (load_skymap opts).
Proof.
  repeat split.
  - unfold check_lengths. keeps_all.
  - unfold select_skymap. keeps_all.
  - unfold load_skymap. keeps_all.
Qed.

(** What is left of the loop body once the telescope is found below the
    threshold never returns. *)
Lemma observability_exit_below env opts telescope prob s :
  observability env !! telescope = Some prob ->
  PrimFloat.ltb (np_sum env prob) (Opts.observability_thresh opts) = true ->
  returns (result_of (observability_exit env opts telescope s)) = false /\
  (exists t, observability_exit env opts telescope s = (t, Exit)).
Proof.
  intros Hl Hlt. unfold observability_exit. rewrite Hl.
  unfold of_option. rewrite run_bind. simpl. rewrite Hlt.
  rewrite run_bind. simpl. rewrite run_bind. simpl. rewrite run_bind.
  destruct (Params.doTrueLocation (params s)); simpl.
  - rewrite run_bind. simpl.
    assert (Hfor : forall lcs : list lightcurve,
               exists t, for_ lcs (fun lc : lightcurve =>
                    emit (WriteFile (Params.outputDir (params s))
                            ("efficiency_true_" +:+ lc_name lc +:+ ".txt") "0")) s
               = (t, Ok tt s)).
    { induction lcs as [|lc lcs [t IH]]; simpl.
      - exists []. reflexivity.
      - rewrite run_bind. simpl. rewrite IH. simpl. eexists. reflexivity. }
    destruct (Hfor (read_files env (Params.lightcurveFiles (params s)))) as [t ->].
    simpl. split; [ reflexivity | eexists; reflexivity ].
  - split; [ reflexivity | eexists; reflexivity ].
Qed.

(** With an entry for the telescope the loop body returns or exits. *)
Lemma observability_exit_no_raise env opts telescope s :
  is_Some (observability env !! telescope) ->
  forall e, result_of (observability_exit env opts telescope s) <> Raise e.
Proof.
  intros [prob Hl] e.
  destruct (PrimFloat.ltb (np_sum env prob) (Opts.observability_thresh opts)) eqn:Hlt.
  - destruct (observability_exit_below env opts telescope prob s Hl Hlt) as [_ [t ->]].
    discriminate.
  - unfold observability_exit. rewrite Hl. unfold of_option. rewrite run_bind. simpl.
    rewrite Hlt. discriminate.
Qed.

Lemma observability_loop_stops env opts telescope prob ts s :
  telescope ∈ ts ->
  observability env !! telescope = Some prob ->
  PrimFloat.ltb (np_sum env prob) (Opts.observability_thresh opts) = true ->
  returns (result_of (for_ ts (observability_exit env opts) s)) = false.
Proof.
  intros Hin Hl Hlt. revert s.
  induction ts as [|x ts IH]; intros s; [ inversion Hin | ]. simpl.
  rewrite run_bind.
  destruct (decide (x = telescope)) as [->|Hne].
  - pose proof (observability_exit_below env opts telescope prob s Hl Hlt) as [Hr _].
    destruct (observability_exit env opts telescope s) as [t [a s1| |e]];
      simpl in *; try reflexivity. discriminate.
  - assert (Hin' : telescope ∈ ts).
    { apply elem_of_cons in Hin as [->|]; [ contradiction | assumption ]. }
    destruct (observability_exit env opts x s) as [t [a s1| |e]]; simpl;
      try reflexivity. apply IH. exact Hin'.
Qed.

Lemma observability_loop_exits env opts telescope prob ts s :
  telescope ∈ ts ->
  observability env !! telescope = Some prob ->
  PrimFloat.ltb (np_sum env prob) (Opts.observability_thresh opts) = true ->
  (forall t, t ∈ ts -> is_Some (observability env !! t)) ->
  result_of (for_ ts (observability_exit env opts) s) = Exit.
Proof.
  intros Hin Hl Hlt Hall.
  pose proof (observability_loop_stops env opts telescope prob ts s Hin Hl Hlt) as Hr.
  clear Hin Hl Hlt. revert s Hr.
  induction ts as [|x ts IH]; intros s; simpl; [ discriminate | ].
  rewrite run_bind.
  pose proof (observability_exit_no_raise env opts x s
                (Hall x ltac:(left))) as Hx.
  destruct (observability_exit env opts x s) as [t [a s1| |e]]; simpl.
  - apply IH. intros t' Ht'. apply Hall. right. exact Ht'.
  - reflexivity.
  - exfalso. exact (Hx e eq_refl).
Qed.

(** Lines 522-558 with both options set *)
Lemma check_observability_run env opts s :
  Opts.doObservability opts = true ->
  Opts.doObservabilityExit opts = true ->
  result_of (check_observability env opts s) =
  result_of (for_ (Params.telescopes (params s)) (observability_exit env opts) s).
Proof.
  intros Ho He. unfold check_observability. rewrite Ho, He. simpl.
  rewrite run_bind. simpl. rewrite run_bind. simpl. rewrite run_bind.
  destruct (Opts.doPlots opts); simpl.
  - rewrite run_bind. simpl. destruct (for_ _ _ s); reflexivity.
  - rewrite run_bind. simpl. destruct (for_ _ _ s); reflexivity.
Qed.

(** C4, as the driver has it: with the observability check and its early
    exit enabled, a telescope whose cumulative visible probability is below
    the threshold stops the whole run.  The run does not return and none of
    its events belongs to tiling, time allocation, scheduling or reporting,
    for any telescope; when every telescope has an observability entry the
    check ends in [exit(0)]. *)
Theorem observability_exit_stops_run env opts telescope prob :
  Opts.doObservability opts = true ->
  Opts.doObservabilityExit opts = true ->
  telescope ∈ split_comma (Opts.telescopes opts) ->
  observability env !! telescope = Some prob ->
  PrimFloat.ltb (np_sum env prob) (Opts.observability_thresh opts) = true ->
  returns (result_of (main env opts)) = false /\
  Forall (fun e => tiling_event e = false /\ coverage_event e = false)
         (trace_of (main env opts)) /\
  (forall s,
     Params.telescopes (params s) = split_comma (Opts.telescopes opts) ->
     (forall t, t ∈ split_comma (Opts.telescopes opts) ->
        is_Some (observability env !! t)) ->
     result_of (check_observability env opts s) = Exit).
Proof.
  intros Ho He Hin Hl Hlt.
  destruct (keeps_telescopes_before_observability env opts) as (K1 & K2 & K3).
  assert (Hstop : forall s,
            Params.telescopes (params s) = split_comma (Opts.telescopes opts) ->
            returns (result_of (check_observability env opts s)) = false).
  { intros s Hs. rewrite check_observability_run by assumption. rewrite Hs.
    eapply observability_loop_stops; eassumption. }
  split; [ | split ].
  - destruct (returns (result_of (main env opts))) eqn:Hr; [ | reflexivity ].
    apply main_returns in Hr as (p & c & Hp & Hr).
    apply returns_Ok in Hr as (a & s & Hr).
    apply script_ok_inv in Hr
      as (s1 & s2 & s3 & s4 & ? & ? & ? & ? & H1 & H2 & H3 & H4 & _).
    apply prelude_fields in Hp as (Htel & _).
    specialize (Hstop s3). rewrite H4 in Hstop. simpl in Hstop.
    assert (returns (Ok tt s4 : res state unit) = false) as Hf; [ | discriminate Hf ].
    apply Hstop.
    rewrite (K3 _ _ _ H3), (K2 _ _ _ H2), (K1 _ _ _ H1). exact Htel.
  - apply main_trace; [ by_stage | intros p c Hp ].
    apply prelude_fields in Hp as (Htel & _).
    unfold script.
    apply trace_bind;
      [ eapply Forall_impl; [ apply emits_check_lengths | by_stage ] | intros [] s1 H1 ].
    apply trace_bind;
      [ eapply Forall_impl; [ apply emits_select_skymap | by_stage ] | intros [] s2 H2 ].
    apply trace_bind;
      [ eapply Forall_impl; [ apply emits_load_skymap | by_stage ] | intros [] s3 H3 ].
    apply trace_bind;
      [ eapply Forall_impl; [ apply emits_check_observability | by_stage ] | intros [] s4 H4 ].
    specialize (Hstop s3). rewrite H4 in Hstop. simpl in Hstop.
    assert (returns (Ok tt s4 : res state unit) = false) as Hf; [ | discriminate Hf ].
    apply Hstop.
    rewrite (K3 _ _ _ H3), (K2 _ _ _ H2), (K1 _ _ _ H1). exact Htel.
  - intros s Hs Hall. rewrite check_observability_run by assumption. rewrite Hs.
    eapply observability_loop_exits; eassumption.
Qed.

Lemma observability_exit_stops_run_witness :
  returns (result_of (main sample_env low_visibility_opts)) = false.
Proof.
  apply (observability_exit_stops_run sample_env low_visibility_opts "B" [0.015625%float]).
  - reflexivity.
  - reflexivity.
  - vm_compute. right. left.
  - reflexivity.
  - vm_compute. reflexivity.
Defined.

(** C4 as stated fails: telescope A is above the threshold and telescope B
    is below it, tiling and scheduling are enabled, and the run exits
    without tiling or scheduling anything for A. *)
Lemma observability_exit_spares_no_telescope :
  PrimFloat.ltb (np_sum sample_env [0.25%float; 0.5%float])
                (Opts.observability_thresh low_visibility_opts) = false /\
  PrimFloat.ltb (np_sum sample_env [0.015625%float])
                (Opts.observability_thresh low_visibility_opts) = true /\
  Opts.doTiles low_visibility_opts = true /\
  Opts.doSchedule low_visibility_opts = true /\
  main sample_env low_visibility_opts =
    ([ReadParamsFromFile "A"; ReadParamsFromFile "B"; GetTelescopeSegments;
      Print "Loading skymap..."; ReadSkymap false;
      Print "Generating observability"; Observability;
      PrintObservabilityExit "B" 0.015625%float 0.0625%float],
     Exit).
Proof. repeat split; vm_compute; reflexivity. Qed.

(** * The dispatch on [tilesType] *)

Lemma strategies_run_app t1 t2 :
  strategies_run (t1 ++ t2) = strategies_run t1 ++ strategies_run t2.
Proof. apply omap_app. Qed.

Lemma emits_nothing {St A} (m : M St A) s :
  emits (fun _ => False) m -> trace_of (m s) = [].
Proof.
  intros H. specialize (H s). destruct (trace_of (m s)) as [|e t]; [ reflexivity | ].
  inversion H; contradiction.
Qed.

Lemma trace_bind_eq {St A B} (m : M St A) (k : A -> M St B) s :
  trace_of ((m ≫= k) s) =
    trace_of (m s) ++
    match result_of (m s) with
    | Ok a s1 => trace_of (k a s1)
    | _ => []
    end.
Proof.
  rewrite run_bind. destruct (m s) as [t [a s1| |e]]; simpl;
    rewrite ?app_nil_r; reflexivity.
Qed.

(** The loops that rebuild the tessellations make no call. *)
Lemma rebuild_loops_silent (ts : list string) (k : list tile -> M state unit) s :
  (forall tiles, emits (fun _ => False) (k tiles)) ->
  trace_of (for_ ts (fun telescope => rebuild_tesselation telescope ≫= k) s) = [].
Proof.
  intros Hk. apply emits_nothing. apply emits_for. intros telescope.
  apply emits_bind; [ apply emits_rebuild_tesselation | exact Hk ].
Qed.

(** The dispatch of lines 573-627 runs the strategy its tag names and no
    other, provided the catalog is there when the galaxy strategy is asked
    for; any other tag prints the message and exits. *)
Lemma dispatch_tiles_runs_tagged_strategy env s :
  match strategy_of_tag (Params.tilesType (params s)) with
  | Some st =>
      (st = Galaxy -> catalog_struct s = true) ->
      strategies_run (trace_of (dispatch_tiles env s)) = [st]
  | None =>
      dispatch_tiles env s =
        ([Print "Need tilesType to be moc, greedy, hierarchical, ranked or galaxy"], Exit)
  end.
Proof.
  unfold dispatch_tiles, strategy_of_tag. rewrite run_bind. simpl.
  destruct (String.eqb (Params.tilesType (params s)) "moc"); [ intros _; reflexivity | ].
  destruct (String.eqb (Params.tilesType (params s)) "ranked"); [ intros _; reflexivity | ].
  destruct (String.eqb (Params.tilesType (params s)) "hierarchical").
  { intros _. repeat (rewrite trace_bind_eq; simpl).
    rewrite rebuild_loops_silent; [ reflexivity | ].
    intros tiles. apply emits_append_Ntiles. }
  destruct (String.eqb (Params.tilesType (params s)) "greedy").
  { intros _. repeat (rewrite trace_bind_eq; simpl).
    rewrite rebuild_loops_silent; [ reflexivity | ].
    intros tiles. apply emits_ret. }
  destruct (String.eqb (Params.tilesType (params s)) "galaxy"); [ | reflexivity ].
  intros Hc. repeat (rewrite trace_bind_eq; simpl).
  unfold bound, bind, gets. simpl. rewrite (Hc eq_refl). simpl.
  repeat (rewrite trace_bind_eq; simpl).
  rewrite rebuild_loops_silent; [ reflexivity | ].
  intros tiles. apply emits_ret.
Qed.

(** Without the catalog the galaxy branch stops at the unbound variable,
    before [gwemopt.tiles.galaxy] is called. *)
Lemma dispatch_tiles_galaxy_unbound env s :
  Params.tilesType (params s) = "galaxy" ->
  catalog_struct s = false ->
  dispatch_tiles env s =
    ([Print "Generating galaxy struct..."], Raise (NameError "catalog_struct")).
Proof.
  intros Ht Hc. unfold dispatch_tiles. rewrite run_bind. simpl. rewrite Ht. simpl.
  rewrite run_bind. simpl. rewrite run_bind. unfold bound, gets, bind. simpl.
  rewrite Hc. reflexivity.
Qed.

(** C5 at the failing input: tiling is enabled, the tag is [galaxy], one of
    the five, and the catalog was not requested.  The run stops with
    [NameError] on [catalog_struct]; no strategy has run. *)
Theorem galaxy_without_catalog_runs_no_strategy :
  Opts.doTiles galaxy_opts = true /\
  strategy_of_tag (Opts.tilesType galaxy_opts) = Some Galaxy /\
  main sample_env galaxy_opts =
    ([ReadParamsFromFile "A"; ReadParamsFromFile "B"; GetTelescopeSegments;
      Print "Loading skymap..."; ReadSkymap false;
      Print "Generating galaxy struct..."],
     Raise (NameError "catalog_struct")) /\
  strategies_run (trace_of (main sample_env galaxy_opts)) = [].
Proof. repeat split; vm_compute; reflexivity. Qed.

(** * The hierarchical branch *)

Lemma set_tesselation_run telescope v s :
  is_Some (Params.config (params s) !! telescope) ->
  set_tesselation telescope v s = ([], Ok tt (put_tesselation telescope v s)).
Proof.
  intros [cfg Hc]. unfold set_tesselation, put_tesselation.
  rewrite run_bind. simpl. rewrite Hc. reflexivity.
Qed.

Lemma put_tesselation_config telescope v s t :
  Params.config (params (put_tesselation telescope v s)) !! t =
    if decide (t = telescope)
    then <["tesselation" := v]> <$> Params.config (params s) !! t
    else Params.config (params s) !! t.
Proof.
  unfold put_tesselation.
  destruct (Params.config (params s) !! telescope) as [cfg|] eqn:Hc; simpl.
  - destruct (decide (t = telescope)) as [->|Hne].
    + rewrite lookup_insert_eq, Hc. reflexivity.
    + rewrite lookup_insert_ne by congruence. reflexivity.
  - destruct (decide (t = telescope)) as [->|Hne]; [ rewrite Hc | ]; reflexivity.
Qed.

Lemma put_tesselation_frame telescope v s :
  tile_structs (put_tesselation telescope v s) = tile_structs s /\
  catalog_struct (put_tesselation telescope v s) = catalog_struct s /\
  Params.telescopes (params (put_tesselation telescope v s)) = Params.telescopes (params s) /\
  Params.Ntiles (params (put_tesselation telescope v s)) = Params.Ntiles (params s).
Proof.
  unfold put_tesselation.
  destruct (Params.config (params s) !! telescope); repeat split.
Qed.

Lemma put_tesselation_twice telescope v1 v2 s :
  put_tesselation telescope v2 (put_tesselation telescope v1 s) =
  put_tesselation telescope v2 s.
Proof.
  unfold put_tesselation.
  destruct (Params.config (params s) !! telescope) as [cfg|] eqn:Hc; simpl.
  - rewrite lookup_insert_eq. unfold set_params. simpl. unfold Params.set_config. simpl.
    rewrite !insert_insert_eq. reflexivity.
  - rewrite Hc. reflexivity.
Qed.

Lemma append_row_run telescope rows t s cfg :
  Params.config (params s) !! telescope = Some cfg ->
  cfg !! "tesselation" = Some (VTess rows) ->
  append_row telescope t s =
    ([], Ok tt (put_tesselation telescope (VTess (rows ++ [row_of_tile t])) s)).
Proof.
  intros Hc Ht. unfold append_row. rewrite run_bind. simpl. rewrite Hc.
  rewrite run_bind. simpl. rewrite Ht. rewrite run_bind. simpl.
  rewrite set_tesselation_run by eauto. reflexivity.
Qed.

Lemma append_rows_run telescope tiles rows s :
  is_Some (Params.config (params s) !! telescope) ->
  for_ tiles (append_row telescope) (put_tesselation telescope (VTess rows) s) =
    ([], Ok tt (put_tesselation telescope (VTess (rows ++ map row_of_tile tiles)) s)).
Proof.
  intros [cfg Hc]. revert rows. induction tiles as [|t tiles IH]; intros rows; simpl.
  - rewrite app_nil_r. reflexivity.
  - rewrite run_bind.
    rewrite (append_row_run telescope rows t _ (<["tesselation" := VTess rows]> cfg)).
    + rewrite put_tesselation_twice. simpl. rewrite IH. simpl.
      rewrite <- app_assoc. reflexivity.
    + rewrite put_tesselation_config, decide_True by reflexivity. rewrite Hc. reflexivity.
    + apply lookup_insert_eq.
Qed.

(** Lines 587-595 for one telescope *)
Lemma rebuild_tesselation_run telescope structs tiles s :
  is_Some (Params.config (params s) !! telescope) ->
  tile_structs s = Some structs ->
  structs !! telescope = Some tiles ->
  rebuild_tesselation telescope s =
    ([], Ok tiles (put_tesselation telescope (tesselation_of tiles) s)).
Proof.
  intros Hc Hs Ht. unfold rebuild_tesselation.
  rewrite run_bind, set_tesselation_run by exact Hc. simpl.
  rewrite run_bind. simpl.
  destruct (put_tesselation_frame telescope (VTess []) s) as (-> & _).
  rewrite Hs. simpl. rewrite run_bind. simpl. rewrite Ht. simpl.
  rewrite run_bind. unfold ret at 1. simpl.
  rewrite run_bind, append_rows_run by exact Hc. reflexivity.
Qed.

(** The loop of lines 586-596 over a list of telescopes, from a state
    where [params["Ntiles"]] is the list [counts] *)
Lemma hierarchical_loop_run (structs : gmap string (list tile)) ts :
  forall s counts,
  tile_structs s = Some structs ->
  Params.Ntiles (params s) = NtilesList counts ->
  (forall t, t ∈ ts ->
     is_Some (Params.config (params s) !! t) /\ is_Some (structs !! t)) ->
  exists s',
    for_ ts (fun telescope =>
               tiles_struct ← rebuild_tesselation telescope;
               append_Ntiles (length tiles_struct)) s = ([], Ok tt s') /\
    Params.Ntiles (params s') =
      NtilesList (counts ++ map (fun t => length (default [] (structs !! t))) ts) /\
    Params.telescopes (params s') = Params.telescopes (params s) /\
    tile_structs s' = tile_structs s /\
    forall t,
      Params.config (params s') !! t =
        if decide (t ∈ ts)
        then <["tesselation" := tesselation_of (default [] (structs !! t))]>
               <$> Params.config (params s) !! t
        else Params.config (params s) !! t.
Proof.
  induction ts as [|x ts IH]; intros s counts Hs Hn Hall.
  - exists s. simpl. rewrite app_nil_r. repeat split; try assumption.
  - destruct (Hall x ltac:(left)) as [Hcx [tiles Htx]].
    pose (s1 := set_params (Params.set_Ntiles (NtilesList (counts ++ [length tiles])))
                  (put_tesselation x (tesselation_of tiles) s)).
    assert (Hbody : (rebuild_tesselation x ≫= fun tiles_struct =>
                       append_Ntiles (length tiles_struct)) s = ([], Ok tt s1)).
    { rewrite run_bind, (rebuild_tesselation_run x structs tiles) by assumption.
      simpl. unfold append_Ntiles. rewrite run_bind. simpl.
      destruct (put_tesselation_frame x (tesselation_of tiles) s) as (_ & _ & _ & ->).
      rewrite Hn. reflexivity. }
    destruct (put_tesselation_frame x (tesselation_of tiles) s) as (F1 & _ & F3 & _).
    assert (Hcfg1 : forall t, Params.config (params s1) !! t =
              if decide (t = x)
              then <["tesselation" := tesselation_of tiles]> <$> Params.config (params s) !! t
              else Params.config (params s) !! t).
    { intros t. apply put_tesselation_config. }
    destruct (IH s1 (counts ++ [length tiles])) as (s' & Hrun & HN & HT & HS & HC).
    + simpl. rewrite F1. exact Hs.
    + reflexivity.
    + intros t Ht. destruct (Hall t ltac:(right; exact Ht)) as [[cfg Hc] Hst].
      split; [ | exact Hst ]. rewrite Hcfg1. rewrite Hc.
      destruct (decide (t = x)); simpl; eauto.
    + exists s'. simpl. rewrite run_bind, Hbody. simpl. rewrite Hrun. simpl.
      split; [ reflexivity | ]. split; [ | split; [ | split ] ].
      * rewrite HN, Htx. simpl. rewrite <- app_assoc. reflexivity.
      * rewrite HT. simpl. exact F3.
      * rewrite HS. simpl. exact F1.
      * intros t. rewrite HC, Hcfg1.
        destruct (decide (t = x)) as [->|Hne].
        -- rewrite (decide_True (P := x ∈ x :: ts)) by left.
           rewrite Htx. simpl.
           destruct (decide (x ∈ ts)); [ | reflexivity ].
           destruct (Params.config (params s) !! x); simpl; [ | reflexivity ].
           rewrite insert_insert_eq. reflexivity.
        -- destruct (decide (t ∈ ts)) as [Hin|Hnin].
           ++ rewrite (decide_True (P := t ∈ x :: ts)) by (right; exact Hin). reflexivity.
           ++ rewrite (decide_False (P := t ∈ x :: ts)); [ reflexivity | ].
              intros Hin. apply elem_of_cons in Hin as [?|?]; contradiction.
Qed.

(** C7: the hierarchical branch returns whenever every telescope has a
    configuration and a tile dictionary.  It makes one call, to the
    hierarchical tiler, and reads no tessellation file.  Afterwards
    [params["Ntiles"]] is the list of the telescopes' tile counts, one entry
    per telescope in order, and every telescope's tessellation is the array
    of the centers of its own tiles, whatever it was before; the rest of its
    configuration is untouched.  Two telescopes may get different counts. *)
Theorem hierarchical_rebuilds_tesselation env s :
  Params.tilesType (params s) = "hierarchical" ->
  (forall t, t ∈ Params.telescopes (params s) ->
     is_Some (Params.config (params s) !! t) /\
     is_Some (tiles_hierarchical env !! t)) ->
  exists s',
    dispatch_tiles env s =
      ([Print "Generating hierarchical struct..."; TilesHierarchical], Ok tt s') /\
    Params.Ntiles (params s') =
      NtilesList (map (fun t => length (hierarchical_tiles env t))
                      (Params.telescopes (params s))) /\
    (forall t, t ∈ Params.telescopes (params s) ->
       exists cfg,
         Params.config (params s) !! t = Some cfg /\
         Params.config (params s') !! t =
           Some (<["tesselation" := tesselation_of (hierarchical_tiles env t)]> cfg)) /\
    (forall t, t ∉ Params.telescopes (params s) ->
       Params.config (params s') !! t = Params.config (params s) !! t).
Proof.
  intros Htag Hall.
  pose (s0 := set_params (Params.set_Ntiles (NtilesList []))
                (bind_tile_structs (tiles_hierarchical env) s)).
  destruct (hierarchical_loop_run (tiles_hierarchical env)
              (Params.telescopes (params s)) s0 [])
    as (s' & Hrun & HN & _ & _ & HC); try reflexivity.
  { intros t Ht. apply (Hall t Ht). }
  exists s'. split; [ | split; [ exact HN | split ] ].
  - unfold dispatch_tiles. rewrite run_bind. simpl. rewrite Htag. simpl.
    repeat (rewrite run_bind; simpl).
    fold s0.
    rewrite Hrun. reflexivity.
  - intros t Ht. destruct (Hall t Ht) as [[cfg Hc] _]. exists cfg.
    split; [ exact Hc | ]. rewrite HC, decide_True by exact Ht. simpl.
    simpl in Hc. rewrite Hc. reflexivity.
  - intros t Ht. rewrite HC, decide_False by exact Ht. reflexivity.
Qed.

Lemma hierarchical_rebuilds_tesselation_witness :
  exists s',
    dispatch_tiles sample_env hierarchical_state =
      ([Print "Generating hierarchical struct..."; TilesHierarchical], Ok tt s') /\
    Params.Ntiles (params s') = NtilesList [2; 1].
Proof.
  destruct (hierarchical_rebuilds_tesselation sample_env hierarchical_state)
    as (s' & Hrun & HN & _).
  - reflexivity.
  - intros t Ht. apply elem_of_cons in Ht as [->|Ht];
      [ | apply elem_of_cons in Ht as [->|Ht]; [ | inversion Ht ] ];
      split; vm_compute; eauto.
  - exists s'. split; [ exact Hrun | rewrite HN; reflexivity ].
Defined.

(** * Single-exposure mode *)

Lemma float_array_mapM {St} env tokens (s : St) xs s' :
  result_of (float_array env tokens s) = Ok xs s' ->
  mapM (py_float env) tokens = Some xs /\ s' = s.
Proof.
  revert xs s'. induction tokens as [|tok rest IH]; intros xs s'; simpl.
  - intros [= <- <-]. split; reflexivity.
  - intros H. apply ok_bind_inv in H as (x & s1 & Hx & H).
    apply ok_bind_inv in H as (ys & s2 & Hys & H).
    injection H as <- <-.
    destruct (py_float env tok) as [x'|]; simpl in Hx; [ | discriminate ].
    injection Hx as <- <-.
    destruct (IH _ _ Hys) as [-> ->]. split; reflexivity.
Qed.

Lemma float_array_run {St} env tokens (s : St) xs :
  mapM (py_float env) tokens = Some xs ->
  float_array env tokens s = ([], Ok xs s).
Proof.
  revert xs. induction tokens as [|tok rest IH]; intros xs; simpl.
  - intros [= <-]. reflexivity.
  - destruct (py_float env tok) as [x|]; simpl; [ | discriminate ].
    destruct (mapM (py_float env) rest) as [ys|]; simpl; [ | discriminate ].
    intros [= <-]. rewrite run_bind. simpl. rewrite run_bind, (IH ys eq_refl).
    reflexivity.
Qed.

Lemma as_float_ok {St} v (s : St) x s' :
  result_of (as_float v s) = Ok x s' -> v = VFloat x /\ s' = s.
Proof. destruct v; simpl; try discriminate. intros [= <- <-]. auto. Qed.

Lemma of_option_ok {St A} e (o : option A) (s : St) a s' :
  result_of (of_option e o s) = Ok a s' -> o = Some a /\ s' = s.
Proof. destruct o; simpl; try discriminate. intros [= <- <-]. auto. Qed.

(** Lines 279-295 when they go through: the two look-ups found floats, and
    the new configuration is the old one with the four keys written. *)
Lemma single_exposure_ok {St} env times cfg (s : St) cfg' s' :
  result_of (single_exposure env times cfg s) = Ok cfg' s' ->
  exists first rest magnitude exposuretime,
    mapM (py_float env) (split_comma times) = Some (first :: rest) /\
    cfg !! "magnitude" = Some (VFloat magnitude) /\
    cfg !! "exposuretime" = Some (VFloat exposuretime) /\
    cfg' =
      <["exposuretime" := VFloat first]>
        (<["magnitude" := VFloat (rescaled_magnitude env magnitude exposuretime first)]>
           (<["exposuretime_orig" := VFloat exposuretime]>
              (<["magnitude_orig" := VFloat magnitude]> cfg))) /\
    s' = s.
Proof.
  unfold single_exposure. intros H.
  apply ok_bind_inv in H as (xs & s1 & Hxs & H).
  apply float_array_mapM in Hxs as [Hxs ->].
  apply ok_bind_inv in H as (first & s2 & Hfirst & H).
  apply of_option_ok in Hfirst as [Hfirst ->].
  apply ok_bind_inv in H as (m & s3 & Hm & H).
  apply of_option_ok in Hm as [Hm ->].
  apply ok_bind_inv in H as (old & s4 & Hold & H).
  apply of_option_ok in Hold as [Hold ->].
  rewrite lookup_insert_ne in Hold by discriminate.
  apply ok_bind_inv in H as (old' & s5 & Hold' & H).
  apply of_option_ok in Hold' as [Hold' ->].
  rewrite !lookup_insert_ne in Hold' by discriminate.
  apply ok_bind_inv in H as (oldf & s6 & Holdf & H).
  apply as_float_ok in Holdf as [-> ->].
  apply ok_bind_inv in H as (m' & s7 & Hm' & H).
  apply of_option_ok in Hm' as [Hm' ->].
  rewrite !lookup_insert_ne in Hm' by discriminate.
  apply ok_bind_inv in H as (mf & s8 & Hmf & H).
  apply as_float_ok in Hmf as [-> ->].
  injection H as <- <-.
  destruct xs as [|x rest]; simpl in Hfirst; [ discriminate | ].
  injection Hfirst as ->.
  rewrite Hold in Hold'. injection Hold' as ->.
  rewrite Hm in Hm'. injection Hm' as ->.
  exists first, rest, mf, oldf. repeat split; assumption.
Qed.

(** Lines 279-295 when the list parses and the two fields are floats *)
Lemma single_exposure_run {St} env times cfg (s : St) first rest magnitude exposuretime :
  mapM (py_float env) (split_comma times) = Some (first :: rest) ->
  cfg !! "magnitude" = Some (VFloat magnitude) ->
  cfg !! "exposuretime" = Some (VFloat exposuretime) ->
  single_exposure env times cfg s =
    ([], Ok (<["exposuretime" := VFloat first]>
               (<["magnitude" := VFloat (rescaled_magnitude env magnitude exposuretime first)]>
                  (<["exposuretime_orig" := VFloat exposuretime]>
                     (<["magnitude_orig" := VFloat magnitude]> cfg)))) s).
Proof.
  intros Hxs Hm Ht. unfold single_exposure.
  rewrite (run_bind_pure _ _ _ _ _ (float_array_run _ _ _ _ Hxs)).
  cbn [head]. rewrite run_of_option_bind.
  rewrite Hm, run_of_option_bind. cbv beta zeta.
  rewrite lookup_insert_ne by discriminate.
  rewrite Ht, run_of_option_bind. cbv beta zeta.
  rewrite !lookup_insert_ne by discriminate.
  rewrite Ht, run_of_option_bind, run_as_float_bind.
  rewrite ?lookup_insert_ne by discriminate.
  rewrite Hm, run_of_option_bind, run_as_float_bind. reflexivity.
Qed.

(** The later blocks of the loop body write one derived key each. *)
Lemma load_tesselation_ok {St} env opts telescope cfg (s : St) cfg' s' :
  result_of (load_tesselation env opts telescope cfg s) = Ok cfg' s' ->
  forall k, k <> "tesselation" -> cfg' !! k = cfg !! k.
Proof.
  unfold load_tesselation. destruct (cfg !! "tesselationFile") as [name|].
  - intros H k Hk.
    apply ok_bind_inv in H as (f & s1 & _ & H).
    apply ok_bind_inv in H as ([] & s2 & _ & H).
    destruct (String.eqb (Opts.tilesType opts) "galaxy").
    + injection H as <- _. apply lookup_insert_ne. congruence.
    + apply ok_bind_inv in H as ([] & s3 & _ & H).
      apply ok_bind_inv in H as (rows & s4 & _ & H).
      injection H as <- _. apply lookup_insert_ne. congruence.
  - intros [= <- _] k _. reflexivity.
Qed.

Lemma load_references_ok {St} env cfg (s : St) cfg' s' :
  result_of (load_references env cfg s) = Ok cfg' s' ->
  forall k, k <> "reference_images" -> cfg' !! k = cfg !! k.
Proof.
  unfold load_references. destruct (cfg !! "referenceFile") as [name|].
  - intros H k Hk.
    apply ok_bind_inv in H as (f & s1 & _ & H).
    apply ok_bind_inv in H as ([] & s2 & _ & H).
    injection H as <- _. apply lookup_insert_ne. congruence.
  - intros [= <- _] k _. reflexivity.
Qed.

Lemma make_observer_ok {St} cfg (s : St) cfg' s' :
  result_of (make_observer cfg s) = Ok cfg' s' ->
  forall k, k <> "observer" -> cfg' !! k = cfg !! k.
Proof.
  unfold make_observer. intros H k Hk.
  apply ok_bind_inv in H as (lon & s1 & _ & H).
  apply ok_bind_inv in H as (lat & s2 & _ & H).
  apply ok_bind_inv in H as (elev & s3 & _ & H).
  injection H as <- _. apply lookup_insert_ne. congruence.
Qed.

Lemma telescope_config_ok env opts telescope c c' :
  Opts.doSingleExposure opts = true ->
  result_of (telescope_config env opts telescope c) = Ok tt c' ->
  exists cfg first rest,
    c' = <[telescope := cfg]> c /\
    mapM (py_float env) (split_comma (Opts.exposuretimes opts)) = Some (first :: rest) /\
    single_exposure_applied env (readParamsFromFile env telescope) cfg first.
Proof.
  intros Hse H. unfold telescope_config in H. rewrite Hse in H.
  apply ok_bind_inv in H as ([] & s1 & H0 & H). injection H0 as <-.
  apply ok_bind_inv in H as (cfg1 & s2 & H1 & H).
  apply single_exposure_ok in H1
    as (first & rest & magnitude & exposuretime & Hxs & Hm & Ht & -> & ->).
  apply ok_bind_inv in H as (cfg2 & s3 & H2 & H).
  pose proof (load_tesselation_ok _ _ _ _ _ _ _ H2) as F2.
  apply ok_bind_inv in H as (cfg3 & s4 & H3 & H).
  pose proof (load_references_ok _ _ _ _ _ H3) as F3.
  apply ok_bind_inv in H as (cfg4 & s5 & H4 & H).
  pose proof (make_observer_ok _ _ _ _ H4) as F4.
  assert (Hs : s5 = c).
  { unfold load_tesselation in H2. unfold load_references in H3.
    unfold make_observer in H4.
    assert (s3 = c) as ->.
    { destruct (_ !! "tesselationFile"); [ | injection H2 as _ <-; reflexivity ].
      apply ok_bind_inv in H2 as (f & u1 & Hf & H2).
      destruct v; simpl in Hf; try discriminate. injection Hf as _ <-.
      apply ok_bind_inv in H2 as ([] & u2 & Hg & H2).
      assert (u2 = c) as ->.
      { destruct (isfile env f); [ injection Hg as <-; reflexivity | ].
        apply ok_bind_inv in Hg as (fov & u3 & Hfov & Hg).
        apply of_option_ok in Hfov as [_ ->].
        destruct (value_eq_str fov "circle"); [ injection Hg as <-; reflexivity | ].
        destruct (value_eq_str fov "square"); injection Hg as <-; reflexivity. }
      destruct (String.eqb (Opts.tilesType opts) "galaxy");
        [ injection H2 as _ <-; reflexivity | ].
      apply ok_bind_inv in H2 as ([] & u4 & He & H2). injection He as <-.
      apply ok_bind_inv in H2 as (rows & u5 & Hr & H2).
      apply of_option_ok in Hr as [_ ->]. injection H2 as _ <-. reflexivity. }
    assert (s4 = c) as ->.
    { destruct (cfg2 !! "referenceFile"); [ | injection H3 as _ <-; reflexivity ].
      apply ok_bind_inv in H3 as (f & u1 & Hf & H3).
      destruct v; simpl in Hf; try discriminate. injection Hf as _ <-.
      apply ok_bind_inv in H3 as ([] & u2 & He & H3). injection He as <-.
      injection H3 as _ <-. reflexivity. }
    apply ok_bind_inv in H4 as (lon & u1 & Hlon & H4).
    apply of_option_ok in Hlon as [_ ->].
    apply ok_bind_inv in H4 as (lat & u2 & Hlat & H4).
    apply of_option_ok in Hlat as [_ ->].
    apply ok_bind_inv in H4 as (elev & u3 & Helev & H4).
    apply of_option_ok in Helev as [_ ->].
    injection H4 as _ <-. reflexivity. }
  subst s5. injection H as <-.
  exists cfg4, first, rest. split; [ reflexivity | split; [ exact Hxs | ] ].
  rewrite lookup_insert_ne in Hm, Ht by discriminate.
  exists magnitude, exposuretime. split; [ exact Hm | split; [ exact Ht | ] ].
  assert (Hto : forall k, k ∈ single_exposure_keys -> cfg4 !! k =
            <["exposuretime" := VFloat first]>
              (<["magnitude" := VFloat (rescaled_magnitude env magnitude exposuretime first)]>
                 (<["exposuretime_orig" := VFloat exposuretime]>
                    (<["magnitude_orig" := VFloat magnitude]>
                       (<["telescope" := VStr telescope]> (readParamsFromFile env telescope)))))
              !! k).
  { intros k Hk. rewrite F4, F3, F2; [ reflexivity | | | ];
      intros ->; unfold single_exposure_keys in Hk;
      repeat (apply elem_of_cons in Hk as [Hk|Hk]; [ discriminate Hk | ]);
      inversion Hk. }
  repeat split.
  - rewrite Hto by (unfold single_exposure_keys; set_solver).
    apply lookup_insert_eq.
  - rewrite Hto by (unfold single_exposure_keys; set_solver).
    rewrite lookup_insert_ne by discriminate. apply lookup_insert_eq.
  - rewrite Hto by (unfold single_exposure_keys; set_solver).
    rewrite !lookup_insert_ne by discriminate. apply lookup_insert_eq.
  - rewrite Hto by (unfold single_exposure_keys; set_solver).
    rewrite !lookup_insert_ne by discriminate. apply lookup_insert_eq.
  - intros k Hk Hd. unfold single_exposure_keys, derived_keys in *.
    rewrite F4, F3, F2 by set_solver.
    rewrite !lookup_insert_ne by set_solver. reflexivity.
Qed.

(** A loop whose body binds its key: afterwards every key of the list is
    bound as the body binds it, the others are as before. *)
Lemma for_insert_loop {V} (body : string -> M (gmap string V) unit)
    (Q : string -> V -> Prop) ts :
  (forall x c1 c2, result_of (body x c1) = Ok tt c2 ->
     exists v, c2 = <[x := v]> c1 /\ Q x v) ->
  forall c c', result_of (for_ ts body c) = Ok tt c' ->
    (forall x, x ∈ ts -> exists v, c' !! x = Some v /\ Q x v) /\
    (forall x, x ∉ ts -> c' !! x = c !! x).
Proof.
  intros Hbody. induction ts as [|t ts IH]; intros c c' H; simpl in H.
  - injection H as <-. split; [ intros x Hx; inversion Hx | reflexivity ].
  - apply ok_bind_inv in H as ([] & c1 & H1 & H).
    destruct (Hbody _ _ _ H1) as (v & -> & Hv).
    destruct (IH _ _ H) as [Hin Hout]. split.
    + intros x Hx. destruct (decide (x ∈ ts)) as [Hts|Hts]; [ apply Hin, Hts | ].
      apply elem_of_cons in Hx as [->|Hx]; [ | contradiction ].
      exists v. rewrite Hout by exact Hts. split; [ apply lookup_insert_eq | exact Hv ].
    + intros x Hx. apply not_elem_of_cons in Hx as [Hne Hx].
      rewrite Hout by exact Hx. apply lookup_insert_ne. congruence.
Qed.

Lemma parse_time_ok {St} env d o (s : St) x s' :
  result_of (parse_time env d o s) = Ok x s' -> s' = s.
Proof.
  unfold parse_time. destruct o as [t|]; [ | intros [= _ <-]; reflexivity ].
  intros H. apply of_option_ok in H as [_ ->]. reflexivity.
Qed.

(** C10: in single-exposure mode the block of lines 279-295 goes through
    whenever the exposure-times list parses and the configuration gives a
    float magnitude and exposure time; it stores the two old values under
    [magnitude_orig] and [exposuretime_orig], sets the exposure time to the
    first entry of the list, adds [-2.5 * log10(sqrt(old / new))] to the
    magnitude and leaves every other key alone.  When [params_struct]
    returns, this holds of every configured telescope: the four keys are as
    described, from the values of the telescope's configuration file, and
    every other key of the file is in the configuration unchanged. *)
Theorem single_exposure_mode env opts :
  Opts.doSingleExposure opts = true ->
  (forall (cfg : gmap string value) (s : unit) first rest magnitude exposuretime,
     mapM (py_float env) (split_comma (Opts.exposuretimes opts)) = Some (first :: rest) ->
     cfg !! "magnitude" = Some (VFloat magnitude) ->
     cfg !! "exposuretime" = Some (VFloat exposuretime) ->
     exists cfg',
       single_exposure env (Opts.exposuretimes opts) cfg s = ([], Ok cfg' s) /\
       cfg' !! "exposuretime" = Some (VFloat first) /\
       cfg' !! "magnitude" =
         Some (VFloat (rescaled_magnitude env magnitude exposuretime first)) /\
       cfg' !! "magnitude_orig" = Some (VFloat magnitude) /\
       cfg' !! "exposuretime_orig" = Some (VFloat exposuretime) /\
       forall k, k ∉ single_exposure_keys -> cfg' !! k = cfg !! k) /\
  (forall c p c',
     result_of (params_struct env opts c) = Ok p c' ->
     exists first rest,
       Params.exposuretimes p = first :: rest /\
       forall telescope, telescope ∈ Params.telescopes p ->
         exists cfg,
           Params.config p !! telescope = Some cfg /\
           single_exposure_applied env (readParamsFromFile env telescope) cfg first).
Proof.
  intros Hse. split.
  - intros cfg s first rest magnitude exposuretime Hxs Hm Ht.
    eexists. split; [ apply (single_exposure_run _ _ _ _ _ _ _ _ Hxs Hm Ht) | ].
    unfold single_exposure_keys. repeat split.
    + apply lookup_insert_eq.
    + rewrite lookup_insert_ne by discriminate. apply lookup_insert_eq.
    + rewrite !lookup_insert_ne by discriminate. apply lookup_insert_eq.
    + rewrite !lookup_insert_ne by discriminate. apply lookup_insert_eq.
    + intros k Hk. rewrite !lookup_insert_ne by set_solver. reflexivity.
  - intros c p c' H. unfold params_struct in H.
    apply ok_bind_inv in H as ([] & s1 & Hloop & H).
    apply ok_bind_inv in H as (Tobs & s2 & H2 & H).
    apply float_array_mapM in H2 as [_ ->].
    apply ok_bind_inv in H as (raslice & s3 & H3 & H).
    apply float_array_mapM in H3 as [_ ->].
    apply ok_bind_inv in H as (times & s4 & H4 & H).
    apply float_array_mapM in H4 as [Hxs ->].
    apply ok_bind_inv in H as (nb & s5 & H5 & H).
    apply float_array_mapM in H5 as [_ ->].
    apply ok_bind_inv in H as (t0 & s6 & H6 & H).
    apply parse_time_ok in H6 as ->.
    apply ok_bind_inv in H as (t1 & s7 & H7 & H).
    apply parse_time_ok in H7 as ->.
    apply ok_bind_inv in H as (cfgs & s8 & H8 & H).
    injection H8 as <- <-. injection H as <- _. simpl.
    destruct (for_insert_loop (telescope_config env opts)
                (fun telescope cfg =>
                   exists first rest,
                     mapM (py_float env) (split_comma (Opts.exposuretimes opts))
                       = Some (first :: rest) /\
                     single_exposure_applied env (readParamsFromFile env telescope) cfg first)
                (split_comma (Opts.telescopes opts))) with (c := c) (c' := s1)
      as [Hin _].
    { intros x c1 c2 Hx. destruct (telescope_config_ok _ _ _ _ _ Hse Hx)
        as (cfg & first & rest & -> & Hm & Ha). eauto 6. }
    { exact Hloop. }
    destruct times as [|first rest].
    + exfalso. apply length_mapM in Hxs.
      destruct (Opts.exposuretimes opts) as [|a r]; simpl in Hxs; [ discriminate | ].
      unfold split_comma in Hxs. simpl in Hxs.
      destruct (Ascii.eqb a ","); [ discriminate | ].
      destruct (split_on "," r); discriminate.
    + exists first, rest. split; [ reflexivity | ].
      intros telescope Ht. destruct (Hin telescope Ht) as (cfg & Hc & f & r & Hm & Ha).
      exists cfg. split; [ exact Hc | ].
      rewrite Hxs in Hm. injection Hm as <- <-. exact Ha.
Qed.

Lemma single_exposure_mode_witness :
  exists cfg,
    single_exposure sample_env (Opts.exposuretimes single_exposure_opts)
      sample_config tt = ([], Ok cfg tt) /\
    cfg !! "exposuretime" = Some (VFloat 30%float) /\
    cfg !! "magnitude" = Some (VFloat 17.5%float) /\
    cfg !! "magnitude_orig" = Some (VFloat 20%float) /\
    cfg !! "exposuretime_orig" = Some (VFloat 3000%float).
Proof.
  destruct (single_exposure_mode sample_env single_exposure_opts eq_refl) as [Hblock _].
  destruct (Hblock sample_config tt 30%float [30%float; 30%float] 20%float 3000%float)
    as (cfg & Hrun & Ht & Hm & Hmo & Hto & _); try reflexivity.
  exists cfg. repeat split; assumption.
Defined.
(** * Time allocation and the budget *)
Module TimeAllocatorFacts.
Import TimeAllocator.
Local Open Scope Q_scope.

(** Scenario B of the specification: budget 60, a single tile of normalized
    weight 1, exposures of 30: two exposures, whichever the rounding mode. *)
Example scenario_B :
  map exposure_count (allocate Qfloor (powerlaw 1 0) sample_tiles 60 sample_params) = [2%Z] /\
  map exposure_count (allocate nearest (powerlaw 1 0) sample_tiles 60 sample_params) = [2%Z] /\
  map exposure_count (allocate Qceiling (powerlaw 1 0) sample_tiles 60 sample_params) = [2%Z].
Proof. repeat split. Qed.



Lemma ceiling_rounding : rounding Qceiling.
Proof.
  intros x. pose proof (Qle_ceiling x) as Hf. pose proof (Qceiling_lt x) as Hc.
  unfold Z.sub in Hc. rewrite inject_Z_plus in Hc.
  change (inject_Z (- (1))) with (- (1)) in Hc. split; lra.
Qed.

Lemma nearest_rounding : rounding nearest.
Proof.
  intros x. unfold nearest.
  pose proof (Qfloor_le x) as Hf. pose proof (Qlt_floor x) as Hc.
  rewrite inject_Z_plus in Hc. change (inject_Z 1) with 1 in Hc.
  destruct (x - inject_Z (Qfloor x) ?= 1 # 2) eqn:Hcmp.
  - apply Qeq_alt in Hcmp.
    destruct (Z.even (Qfloor x)); [ split; lra | ].
    rewrite inject_Z_plus. change (inject_Z 1) with 1. split; lra.
  - split; lra.
  - apply Qgt_alt in Hcmp. rewrite inject_Z_plus. change (inject_Z 1) with 1. split; lra.
Qed.

Section Bound.
Variable rnd : Q -> Z.
Variable weight : tile -> Q.
Hypothesis rnd_rounding : rounding rnd.







End Bound.




End TimeAllocatorFacts.

(** * The schedule of a telescope *)
Module SchedulerFacts.
Import Scheduler.
Local Open Scope Z_scope.

(** Scenario C of the specification: two entries, at [0,5) and [20,25), and
    no missed tile. *)
Example scenario_C_entries :
  map (fun e => (entry_tile e, start_time e, end_time e))
      (plan_entries (schedule_all [(sample_profile, scenario_C)]))
    = [(0%nat, 0, 5); (1%nat, 20, 25)] /\
  plan_missed (schedule_all [(sample_profile, scenario_C)]) = [].
Proof. split; reflexivity. Qed.

(** Scenario D: the tile is missed because its window closes. *)
Example scenario_D_missed :
  plan_entries (schedule_all [(sample_profile, scenario_D)]) = [] /\
  plan_missed (schedule_all [(sample_profile, scenario_D)]) = [(0%nat, 0%nat, WindowClosed)].
Proof. split; reflexivity. Qed.





Section OneTelescope.
Variable p : profile.
Variable tiles : list tile.
Hypothesis slew_nonneg : forall a b, 0 <= slew_time p a b.
Hypothesis duration_pos : forall t, In t tiles -> 0 < exposure_duration t.







End OneTelescope.







End SchedulerFacts.

(** * The order of the calls of a run *)

Lemma preceded_by_nil P Q : preceded_by P Q [].
Proof. intros t1 e t2 H. destruct t1; discriminate. Qed.

Lemma preceded_by_snoc P Q h e :
  preceded_by P Q h -> (P e -> Exists Q h) -> preceded_by P Q (h ++ [e]).
Proof.
  intros Hh He t1 x t2 Heq Hx.
  destruct t2 as [|y t2' _] using rev_ind.
  - apply app_inj_tail in Heq as [<- <-]. apply He, Hx.
  - change (h ++ [e] = t1 ++ (x :: t2') ++ [y]) in Heq.
    rewrite app_assoc in Heq. apply app_inj_tail in Heq as [-> _].
    eapply Hh; [ reflexivity | exact Hx ].
Qed.

Lemma preceded_by_app P Q (G : Prop) h t :
  preceded_by P Q h -> (G -> Exists Q h) ->
  Forall (fun e => P e -> G) t ->
  preceded_by P Q (h ++ t).
Proof.
  intros Hh HG Ht. revert h Hh HG. induction Ht as [|e t He _ IH]; intros h Hh HG.
  - rewrite app_nil_r. exact Hh.
  - change (h ++ e :: t) with (h ++ [e] ++ t). rewrite app_assoc. apply IH.
    + apply preceded_by_snoc; [ exact Hh | intros Hp; apply HG, He, Hp ].
    + intros g. apply Exists_app. left. apply HG, g.
Qed.

(** A part whose [P]-events all occur under the condition [G] preserves
    "ordered, and under [G] a [Q]-event has occurred". *)
Lemma triple_guarded {A} P Q (G : Prop) (m : M state A) :
  emits (fun e => P e -> G) m ->
  triple (fun h _ => preceded_by P Q h /\ (G -> Exists Q h)) m
         (fun _ h _ => preceded_by P Q h /\ (G -> Exists Q h))
         (preceded_by P Q).
Proof.
  intros He h s [H1 H2]. specialize (He s).
  destruct (m s) as [t [a s'| |e]]; simpl in *;
    try (eapply preceded_by_app; eassumption).
  split; [ eapply preceded_by_app; eassumption | ].
  intros g. apply Exists_app. left. apply H2, g.
Qed.

(** The same with the condition read off a flag of the state that the part
    sets only after a [Q]-event. *)
Lemma triple_flagged {A} P Q (f : state -> bool) (m : M state A) :
  emits (fun e => ~ P e) m ->
  keeps_or_emits f Q m ->
  triple (fun h s => preceded_by P Q h /\ (f s = true -> Exists Q h)) m
         (fun _ h s => preceded_by P Q h /\ (f s = true -> Exists Q h))
         (preceded_by P Q).
Proof.
  intros He Hk h s [H1 H2]. specialize (He s). specialize (Hk s).
  assert (Hp : preceded_by P Q (h ++ trace_of (m s))).
  { apply (preceded_by_app P Q False); [ exact H1 | contradiction | exact He ]. }
  destruct (m s) as [t [a s'| |e]]; simpl in *; try exact Hp.
  split; [ exact Hp | ]. intros Hf. apply Exists_app.
  destruct (Hk a s' eq_refl) as [Heq|Hex]; [ left | right; exact Hex ].
  apply H2. rewrite <- Heq. exact Hf.
Qed.

Lemma keeps_or_emits_keeps {A B} (f : state -> B) Q (m : M state A) :
  keeps f m -> keeps_or_emits f Q m.
Proof. intros H s a s' Hr. left. eapply H, Hr. Qed.

Lemma keeps_or_emits_some {A B} (f : state -> B) Q (m : M state A) :
  emits_some Q m -> keeps_or_emits f Q m.
Proof. intros H s a s' Hr. right. eapply H, Hr. Qed.

Lemma keeps_or_emits_bind {A B C} (f : state -> C) Q (m : M state A)
    (k : A -> M state B) :
  keeps_or_emits f Q m -> (forall a, keeps_or_emits f Q (k a)) ->
  keeps_or_emits f Q (m ≫= k).
Proof.
  intros Hm Hk s b s' H. rewrite trace_bind_eq.
  apply ok_bind_inv in H as (a & s1 & H1 & H2). rewrite H1.
  destruct (Hm s a s1 H1) as [E1|X1]; [ | right; apply Exists_app; left; exact X1 ].
  destruct (Hk a s1 b s' H2) as [E2|X2]; [ left; congruence | ].
  right. apply Exists_app. right. exact X2.
Qed.

(** The script keeps what each of its parts keeps. *)
Lemma triple_script_parts (J : list event -> state -> Prop) (E : list event -> Prop)
    env opts :
  triple J check_lengths (fun _ => J) E ->
  triple J (select_skymap env opts) (fun _ => J) E ->
  triple J (load_skymap opts) (fun _ => J) E ->
  triple J (check_observability env opts) (fun _ => J) E ->
  triple J (samples_and_split opts) (fun _ => J) E ->
  triple J (generate_tiles env opts) (fun _ => J) E ->
  triple J (schedule env opts) (fun _ => J) E ->
  triple J (summary opts) (fun _ => J) E ->
  triple J (efficiency env opts) (fun _ => J) E ->
  triple J (script env opts) (fun _ => J) E.
Proof.
  intros. unfold script.
  repeat (apply triple_bind with (R := fun _ => J); [ assumption | intros _ ]).
  assumption.
Qed.

(** From the script to the run: the prelude only adds set-up events at the
    front. *)
Lemma main_triple (J : list event -> state -> Prop)
    (Q : unit -> list event -> state -> Prop) (E : list event -> Prop) env opts :
  (forall t, Forall (from [SSetup]) t -> E t) ->
  (forall t p, Forall (from [SSetup]) t -> J t (init_state p)) ->
  (forall a h s, Q a h s -> E h) ->
  triple J (script env opts) Q E ->
  E (trace_of (main env opts)).
Proof.
  intros HE HJ HQE Hs.
  pose proof (emits_prelude env opts ∅) as Hpre.
  destruct (main_cases env opts) as [(t1 & p & c & Hp & ->)|(_ & _ & ->)];
    [ | apply HE, Hpre ].
  rewrite Hp in Hpre. simpl in *.
  specialize (Hs t1 (init_state p) (HJ t1 p Hpre)).
  destruct (script env opts (init_state p)) as [t [a s'| |e]]; simpl; try exact Hs.
  eapply HQE, Hs.
Qed.

Lemma preceded_by_setup P Q t :
  (forall e, from [SSetup] e -> ~ P e) ->
  Forall (from [SSetup]) t -> preceded_by P Q t.
Proof.
  intros HP Ht. apply (preceded_by_app P Q False []).
  - apply preceded_by_nil.
  - contradiction.
  - eapply Forall_impl; [ exact Ht | ]. exact HP.
Qed.

(** A goal [emits (fun e => P e -> G) m] from what the part [m] emits *)
Ltac quiet_stage lemma :=
  eapply emits_weaken; [ | apply lemma ];
  let e := fresh "e" in
  intros e; unfold from; destruct e; simpl;
  unfold creates_moc, makes_coverage;
  intuition (try discriminate; try congruence).

Lemma triple_schedule_coverage env opts :
  triple (fun h _ => preceded_by uses_coverage makes_coverage h /\
                     (False -> Exists makes_coverage h))
         (schedule env opts)
         (fun _ h _ => preceded_by uses_coverage makes_coverage h /\
                       (Opts.doSchedule opts || Opts.doCoverage opts = true ->
                        Exists makes_coverage h))
         (preceded_by uses_coverage makes_coverage).
Proof.
  intros h s [H1 _].
  assert (Hp : preceded_by uses_coverage makes_coverage
                 (h ++ trace_of (schedule env opts s))).
  { apply (preceded_by_app _ _ False); [ exact H1 | contradiction | ].
    eapply Forall_impl; [ apply emits_schedule | ].
    intros e; unfold from; destruct e; simpl; intuition discriminate. }
  rewrite schedule_run in *.
  destruct (Opts.doSchedule opts);
    [ destruct (Opts.doTiles opts); [ destruct (tile_structs s) | ]
    | destruct (Opts.doCoverage opts); [ destruct (moc_structs s) | ] ];
    simpl in *; try exact Hp.
  - split; [ exact Hp | ]. intros _. apply Exists_app. right.
    apply Exists_cons_tl, Exists_cons_hd. left. reflexivity.
  - split; [ exact Hp | ]. intros _. apply Exists_app. right.
    apply Exists_cons_tl, Exists_cons_hd. right. reflexivity.
  - split; [ exact Hp | ]. discriminate.
Qed.

Lemma emits_summary_guarded opts :
  emits (fun e => uses_coverage e ->
                  Opts.doSchedule opts || Opts.doCoverage opts = true)
        (summary opts).
Proof.
  unfold summary. destruct (Opts.doSchedule opts || Opts.doCoverage opts).
  - intros s. apply Forall_forall. intros; reflexivity.
  - apply emits_ret.
Qed.

Lemma emits_efficiency_guarded env opts :
  emits (fun e => uses_coverage e ->
                  Opts.doSchedule opts || Opts.doCoverage opts = true)
        (efficiency env opts).
Proof.
  unfold efficiency. destruct (Opts.doSchedule opts || Opts.doCoverage opts).
  - intros s. apply Forall_forall. intros; reflexivity.
  - emits_all.
Qed.

(** In every run the coverage summary, the coverage plot and the
    efficiency computation and plot come after the call that produced the
    coverage plan: time allocation or the reading of coverage files. *)
Theorem coverage_used_after_made env opts :
  preceded_by uses_coverage makes_coverage (trace_of (main env opts)).
Proof.
  apply main_triple with
    (J := fun h _ => preceded_by uses_coverage makes_coverage h /\
                     (False -> Exists makes_coverage h))
    (Q := fun _ h _ => preceded_by uses_coverage makes_coverage h /\
                       (Opts.doSchedule opts || Opts.doCoverage opts = true ->
                        Exists makes_coverage h)).
  - intros t Ht. apply preceded_by_setup; [ | exact Ht ].
    intros e; unfold from; destruct e; simpl; intuition discriminate.
  - intros t p Ht. split; [ | contradiction ].
    apply preceded_by_setup; [ | exact Ht ].
    intros e; unfold from; destruct e; simpl; intuition discriminate.
  - intros _ h s [H _]. exact H.
  - unfold script.
    apply triple_bind with (R := fun _ h _ => preceded_by uses_coverage makes_coverage h /\
                                  (False -> Exists makes_coverage h));
      [ apply triple_guarded; quiet_stage emits_check_lengths | intros _ ].
    apply triple_bind with (R := fun _ h _ => preceded_by uses_coverage makes_coverage h /\
                                  (False -> Exists makes_coverage h));
      [ apply triple_guarded; quiet_stage emits_select_skymap | intros _ ].
    apply triple_bind with (R := fun _ h _ => preceded_by uses_coverage makes_coverage h /\
                                  (False -> Exists makes_coverage h));
      [ apply triple_guarded; quiet_stage emits_load_skymap | intros _ ].
    apply triple_bind with (R := fun _ h _ => preceded_by uses_coverage makes_coverage h /\
                                  (False -> Exists makes_coverage h));
      [ apply triple_guarded; quiet_stage emits_check_observability | intros _ ].
    apply triple_bind with (R := fun _ h _ => preceded_by uses_coverage makes_coverage h /\
                                  (False -> Exists makes_coverage h));
      [ apply triple_guarded; quiet_stage emits_samples_and_split | intros _ ].
    apply triple_bind with (R := fun _ h _ => preceded_by uses_coverage makes_coverage h /\
                                  (False -> Exists makes_coverage h));
      [ apply triple_guarded; quiet_stage emits_generate_tiles | intros _ ].
    apply triple_bind with
      (R := fun _ h _ => preceded_by uses_coverage makes_coverage h /\
              (Opts.doSchedule opts || Opts.doCoverage opts = true ->
               Exists makes_coverage h));
      [ apply triple_schedule_coverage | intros _ ].
    apply triple_bind with
      (R := fun _ h _ => preceded_by uses_coverage makes_coverage h /\
              (Opts.doSchedule opts || Opts.doCoverage opts = true ->
               Exists makes_coverage h));
      [ apply triple_guarded, emits_summary_guarded | intros _ ].
    apply triple_guarded, emits_efficiency_guarded.
Qed.

(** * Coverage files and MOC structures *)

Lemma keeps_moc_structs env opts :
  keeps moc_structs check_lengths /\
  keeps moc_structs (select_skymap env opts) /\
  keeps moc_structs (load_skymap opts) /\
  keeps moc_structs (check_observability env opts) /\
  keeps moc_structs (samples_and_split opts) /\
  keeps moc_structs (summary opts) /\
  keeps moc_structs (efficiency env opts).
Proof.
  repeat split.
  - unfold check_lengths. keeps_all.
  - unfold select_skymap. keeps_all.
  - unfold load_skymap. keeps_all.
  - unfold check_observability, observability_exit. keeps_all.
  - unfold samples_and_split. keeps_all.
  - unfold summary. keeps_all.
  - unfold efficiency. keeps_all.
Qed.

(** The dispatch binds [moc_structs] only in the branches that create MOC
    structures. *)
Lemma dispatch_tiles_moc_structs env :
  keeps_or_emits moc_structs creates_moc (dispatch_tiles env).
Proof.
  unfold dispatch_tiles. apply keeps_or_emits_bind;
    [ apply keeps_or_emits_keeps, keeps_gets | intros p ].
  repeat match goal with
         | |- keeps_or_emits _ _ (if ?b then _ else _) => destruct b
         end;
    first
      [ solve [ apply keeps_or_emits_keeps; keeps_all ]
      | apply keeps_or_emits_some, emits_some_bind_r; intros _;
        apply emits_some_bind_l, emits_some_emit; unfold creates_moc; tauto ].
Qed.

Lemma generate_tiles_moc_structs env opts :
  keeps_or_emits moc_structs creates_moc (generate_tiles env opts).
Proof.
  unfold generate_tiles, when. destruct (Opts.doTiles opts);
    [ | apply keeps_or_emits_keeps, keeps_ret ].
  apply keeps_or_emits_bind; [ apply dispatch_tiles_moc_structs | intros _ ].
  apply keeps_or_emits_keeps. keeps_all.
Qed.

Lemma triple_schedule_moc env opts :
  triple (fun h s => preceded_by (fun e => e = ReadCoverageFiles) creates_moc h /\
                     (moc_structs s = true -> Exists creates_moc h))
         (schedule env opts)
         (fun _ h s => preceded_by (fun e => e = ReadCoverageFiles) creates_moc h /\
                       (moc_structs s = true -> Exists creates_moc h))
         (preceded_by (fun e => e = ReadCoverageFiles) creates_moc).
Proof.
  intros h s [H1 H2]. rewrite schedule_run.
  destruct (Opts.doSchedule opts);
    [ destruct (Opts.doTiles opts); [ destruct (tile_structs s) | ]
    | destruct (Opts.doCoverage opts); [ destruct (moc_structs s) eqn:Hm | ] ].
  - split.
    + apply (preceded_by_app _ _ False); [ exact H1 | contradiction | ].
      repeat constructor; discriminate.
    + simpl. intros Hm. apply Exists_app. left. apply H2, Hm.
  - apply preceded_by_snoc; [ exact H1 | discriminate ].
  - apply preceded_by_snoc; [ exact H1 | discriminate ].
  - split.
    + apply (preceded_by_app _ _ True); [ exact H1 | intros _; apply H2; reflexivity | ].
      repeat constructor.
    + simpl. intros _. apply Exists_app. left. apply H2. reflexivity.
  - apply preceded_by_snoc; [ exact H1 | discriminate ].
  - rewrite app_nil_r. split; assumption.
Qed.

Lemma main_read_after_moc env opts :
  preceded_by (fun e => e = ReadCoverageFiles) creates_moc (trace_of (main env opts)).
Proof.
  destruct (keeps_moc_structs env opts) as (K1 & K2 & K3 & K4 & K5 & K8 & K9).
  apply main_triple with
    (J := fun h s => preceded_by (fun e => e = ReadCoverageFiles) creates_moc h /\
                     (moc_structs s = true -> Exists creates_moc h))
    (Q := fun _ h s => preceded_by (fun e => e = ReadCoverageFiles) creates_moc h /\
                       (moc_structs s = true -> Exists creates_moc h)).
  - intros t Ht. apply preceded_by_setup; [ | exact Ht ].
    intros e; unfold from; destruct e; simpl; intuition discriminate.
  - intros t p Ht. split; [ | discriminate ].
    apply preceded_by_setup; [ | exact Ht ].
    intros e; unfold from; destruct e; simpl; intuition discriminate.
  - intros _ h s [H _]. exact H.
  - apply triple_script_parts.
    + apply triple_flagged; [ quiet_stage emits_check_lengths | apply keeps_or_emits_keeps, K1 ].
    + apply triple_flagged; [ quiet_stage emits_select_skymap | apply keeps_or_emits_keeps, K2 ].
    + apply triple_flagged; [ quiet_stage emits_load_skymap | apply keeps_or_emits_keeps, K3 ].
    + apply triple_flagged;
        [ quiet_stage emits_check_observability | apply keeps_or_emits_keeps, K4 ].
    + apply triple_flagged;
        [ quiet_stage emits_samples_and_split | apply keeps_or_emits_keeps, K5 ].
    + apply triple_flagged;
        [ quiet_stage emits_generate_tiles | apply generate_tiles_moc_structs ].
    + apply triple_schedule_moc.
    + apply triple_flagged; [ quiet_stage emits_summary | apply keeps_or_emits_keeps, K8 ].
    + apply triple_flagged; [ quiet_stage emits_efficiency | apply keeps_or_emits_keeps, K9 ].
Qed.

(** In every run coverage files are read only after MOC structures were
    created in the same run, by the MOC or the ranked strategy. *)
Theorem coverage_read_after_moc env opts :
  preceded_by (fun e => e = ReadCoverageFiles) creates_moc (trace_of (main env opts)).
Proof. apply main_read_after_moc. Qed.

(** * One strategy per run *)

Lemma strategy_of_tag_galaxy tag :
  strategy_of_tag tag = Some Galaxy -> tag = "galaxy"%string.
Proof.
  unfold strategy_of_tag.
  destruct (String.eqb tag "moc"); [ discriminate | ].
  destruct (String.eqb tag "ranked"); [ discriminate | ].
  destruct (String.eqb tag "hierarchical"); [ discriminate | ].
  destruct (String.eqb tag "greedy"); [ discriminate | ].
  destruct (String.eqb tag "galaxy") eqn:H; [ | discriminate ].
  intros _. apply String.eqb_eq, H.
Qed.

(** Whatever the state, the dispatch runs no strategy or the tagged one. *)
Lemma dispatch_strategies env s :
  strategies_run (trace_of (dispatch_tiles env s)) = [] \/
  exists st, strategy_of_tag (Params.tilesType (params s)) = Some st /\
             strategies_run (trace_of (dispatch_tiles env s)) = [st].
Proof.
  pose proof (dispatch_tiles_runs_tagged_strategy env s) as H.
  destruct (strategy_of_tag (Params.tilesType (params s))) as [st|] eqn:Htag.
  - destruct (catalog_struct s) eqn:Hc.
    + right. exists st. split; [ reflexivity | apply H; reflexivity ].
    + destruct st; try (right; eexists; split; [ reflexivity | apply H; discriminate ]).
      left. apply strategy_of_tag_galaxy in Htag.
      rewrite (dispatch_tiles_galaxy_unbound env s Htag Hc). reflexivity.
  - left. rewrite H. reflexivity.
Qed.

Lemma silent_trace {St A} (m : M St A) s :
  emits (fun e => starts e = None) m -> strategies_run (trace_of (m s)) = [].
Proof.
  intros H. specialize (H s). induction H as [|e t He _ IH]; [ reflexivity | ].
  unfold strategies_run in *. simpl. rewrite He. exact IH.
Qed.

Lemma strategies_bind_silent {St A B} (m : M St A) (k : A -> M St B) s :
  emits (fun e => starts e = None) m ->
  strategies_run (trace_of ((m ≫= k) s)) =
    match result_of (m s) with
    | Ok a s1 => strategies_run (trace_of (k a s1))
    | _ => []
    end.
Proof.
  intros H. rewrite trace_bind_eq, strategies_run_app, (silent_trace m s H). simpl.
  destruct (result_of (m s)); reflexivity.
Qed.

Lemma strategies_bind_last {St A B} (m : M St A) (k : A -> M St B) s :
  (forall a, emits (fun e => starts e = None) (k a)) ->
  strategies_run (trace_of ((m ≫= k) s)) = strategies_run (trace_of (m s)).
Proof.
  intros H. rewrite trace_bind_eq, strategies_run_app.
  destruct (result_of (m s)) as [a s1| |e]; rewrite ?app_nil_r; try reflexivity.
  rewrite (silent_trace (k a) s1 (H a)). apply app_nil_r.
Qed.

(** A goal [emits (fun e => starts e = None) m] from what the part emits *)
Ltac silent_stage lemma :=
  eapply emits_weaken; [ | apply lemma ];
  let e := fresh "e" in
  intros e; unfold from; destruct e; simpl; intuition discriminate.

Lemma keeps_tilesType_before_tiles env opts :
  keeps (fun s => Params.tilesType (params s)) check_lengths /\
  keeps (fun s => Params.tilesType (params s)) (select_skymap env opts) /\
  keeps (fun s => Params.tilesType (params s)) (load_skymap opts) /\
  keeps (fun s => Params.tilesType (params s)) (check_observability env opts) /\
  keeps (fun s => Params.tilesType (params s)) (samples_and_split opts).
Proof.
  repeat split.
  - unfold check_lengths. keeps_all.
  - unfold select_skymap. keeps_all.
  - unfold load_skymap. keeps_all.
  - unfold check_observability, observability_exit. keeps_all.
  - unfold samples_and_split. keeps_all.
Qed.

Lemma generate_tiles_strategies env opts s :
  strategies_run (trace_of (generate_tiles env opts s)) = [] \/
  exists st, strategy_of_tag (Params.tilesType (params s)) = Some st /\
             Opts.doTiles opts = true /\
             strategies_run (trace_of (generate_tiles env opts s)) = [st].
Proof.
  unfold generate_tiles, when. destruct (Opts.doTiles opts); [ | left; reflexivity ].
  rewrite strategies_bind_last.
  - destruct (dispatch_strategies env s) as [H|(st & H1 & H2)];
      [ left; exact H | right; exists st; auto ].
  - intros _. destruct (Opts.doPlots opts); [ | apply emits_ret ].
    apply emits_bind; [ | intros _ ]; apply emits_emit; reflexivity.
Qed.

Lemma main_strategies env opts :
  strategies_run (trace_of (main env opts)) = [] \/
  exists st, strategy_of_tag (Opts.tilesType opts) = Some st /\
             Opts.doTiles opts = true /\
             strategies_run (trace_of (main env opts)) = [st].
Proof.
  destruct (keeps_tilesType_before_tiles env opts) as (K1 & K2 & K3 & K4 & K5).
  assert (Hpre : strategies_run (trace_of (prelude env opts ∅)) = []).
  { apply silent_trace. silent_stage emits_prelude. }
  destruct (main_cases env opts) as [(t1 & p & c & Hp & ->)|(_ & _ & ->)];
    [ | left; exact Hpre ].
  rewrite Hp in Hpre. simpl in Hpre. simpl. rewrite strategies_run_app, Hpre. simpl.
  assert (Htag : Params.tilesType (params (init_state p)) = Opts.tilesType opts).
  { simpl. assert (Hp' : result_of (prelude env opts ∅) = Ok p c) by (rewrite Hp; reflexivity).
    apply prelude_fields in Hp'. tauto. }
  revert Htag. generalize (init_state p). intros s0 Htag.
  unfold script.
  rewrite strategies_bind_silent by silent_stage emits_check_lengths.
  destruct (result_of (check_lengths s0)) as [[] s1| |] eqn:H1; try (left; reflexivity).
  rewrite strategies_bind_silent by silent_stage emits_select_skymap.
  destruct (result_of (select_skymap env opts s1)) as [[] s2| |] eqn:H2;
    try (left; reflexivity).
  rewrite strategies_bind_silent by silent_stage emits_load_skymap.
  destruct (result_of (load_skymap opts s2)) as [[] s3| |] eqn:H3; try (left; reflexivity).
  rewrite strategies_bind_silent by silent_stage emits_check_observability.
  destruct (result_of (check_observability env opts s3)) as [[] s4| |] eqn:H4;
    try (left; reflexivity).
  rewrite strategies_bind_silent by silent_stage emits_samples_and_split.
  destruct (result_of (samples_and_split opts s4)) as [[] s5| |] eqn:H5;
    try (left; reflexivity).
  rewrite strategies_bind_last.
  - rewrite <- Htag, <- (K1 _ _ _ H1), <- (K2 _ _ _ H2), <- (K3 _ _ _ H3),
      <- (K4 _ _ _ H4), <- (K5 _ _ _ H5).
    apply generate_tiles_strategies.
  - intros _. apply emits_bind; [ silent_stage emits_schedule | intros _ ].
    apply emits_bind; [ silent_stage emits_summary | intros _ ].
    silent_stage emits_efficiency.
Qed.

(** In every run at most one tiling strategy runs, and only the one
    [tilesType] names, with tiling enabled. *)
Theorem at_most_the_tagged_strategy env opts :
  strategies_run (trace_of (main env opts)) = [] \/
  exists st, strategy_of_tag (Opts.tilesType opts) = Some st /\
             Opts.doTiles opts = true /\
             strategies_run (trace_of (main env opts)) = [st].
Proof. apply main_strategies. Qed.

(** * Reading coverage without MOC structures *)

Lemma strategy_of_tag_moc tag st :
  strategy_of_tag tag = Some st ->
  tag <> "moc"%string -> tag <> "ranked"%string -> st <> Moc /\ st <> Ranked.
Proof.
  unfold strategy_of_tag. intros H Hm Hr.
  apply String.eqb_neq in Hm, Hr. rewrite Hm, Hr in H.
  destruct (String.eqb tag "hierarchical"); [ injection H as <-; split; discriminate | ].
  destruct (String.eqb tag "greedy"); [ injection H as <-; split; discriminate | ].
  destruct (String.eqb tag "galaxy"); [ injection H as <-; split; discriminate | ].
  discriminate.
Qed.

Lemma no_moc_created t :
  strategies_run t = [] \/
  (exists st, strategies_run t = [st] /\ st <> Moc /\ st <> Ranked) ->
  Forall (fun e => ~ creates_moc e) t.
Proof.
  intros H. apply Forall_forall. intros e He Hc.
  assert (Hin : exists st, st ∈ strategies_run t /\ (st = Moc \/ st = Ranked)).
  { destruct Hc as [->| ->]; [ exists Moc | exists Ranked ]; (split; [ | tauto ]);
      apply list_elem_of_omap; eexists; (split; [ exact He | reflexivity ]). }
  destruct Hin as (st & Hst & Hk).
  destruct H as [H|(st' & H & Hm & Hr)]; rewrite H in Hst.
  - inversion Hst.
  - apply list_elem_of_singleton in Hst as ->. tauto.
Qed.

(** Lines 643-647: with coverage asked from files and no MOC structures in
    the run (tiling off, or a strategy other than MOC and ranked), no
    coverage file is read and the run does not return; the step itself
    stops with [NameError] on [moc_structs]. *)
Theorem coverage_files_need_moc env opts :
  Opts.doSchedule opts = false ->
  Opts.doCoverage opts = true ->
  Opts.doTiles opts = false \/
    (Opts.tilesType opts <> "moc"%string /\ Opts.tilesType opts <> "ranked"%string) ->
  returns (result_of (main env opts)) = false /\
  Forall (fun e => e <> ReadCoverageFiles /\ ~ creates_moc e) (trace_of (main env opts)) /\
  (forall s, moc_structs s = false ->
     schedule env opts s =
       ([Print "Reading coverage from file..."], Raise (NameError "moc_structs"))).
Proof.
  intros Hs Hc Hno.
  assert (Hrun : forall s, moc_structs s = false ->
     schedule env opts s =
       ([Print "Reading coverage from file..."], Raise (NameError "moc_structs"))).
  { intros s Hm. rewrite schedule_run, Hs, Hc, Hm. reflexivity. }
  assert (Hnone : Forall (fun e => ~ creates_moc e) (trace_of (main env opts))).
  { apply no_moc_created. destruct (main_strategies env opts) as [H|(st & H1 & H2 & H3)].
    - left. exact H.
    - destruct Hno as [Hno|[Hm Hr]]; [ congruence | ].
      right. exists st. split; [ exact H3 | ]. eapply strategy_of_tag_moc; eassumption. }
  split; [ | split; [ | exact Hrun ] ].
  - destruct (returns (result_of (main env opts))) eqn:Hr; [ | reflexivity ].
    apply main_returns in Hr as (p & c & Hp & Hr).
    apply returns_Ok in Hr as (a & s & Hr).
    apply script_ok_inv in Hr
      as (s1 & s2 & s3 & s4 & s5 & s6 & s7 & s8 & H1 & H2 & H3 & H4 & H5 & H6 & H7 & _).
    destruct (keeps_moc_structs env opts) as (K1 & K2 & K3 & K4 & K5 & _).
    destruct (keeps_tilesType_before_tiles env opts) as (T1 & T2 & T3 & T4 & T5).
    assert (Hm5 : moc_structs s5 = false).
    { rewrite (K5 _ _ _ H5), (K4 _ _ _ H4), (K3 _ _ _ H3), (K2 _ _ _ H2), (K1 _ _ _ H1).
      reflexivity. }
    assert (Htag : Params.tilesType (params s5) = Opts.tilesType opts).
    { rewrite (T5 _ _ _ H5), (T4 _ _ _ H4), (T3 _ _ _ H3), (T2 _ _ _ H2), (T1 _ _ _ H1).
      simpl. apply prelude_fields in Hp. tauto. }
    assert (Hm6 : moc_structs s6 = false).
    { destruct (generate_tiles_moc_structs env opts s5 tt s6 H6) as [Heq|Hex];
        [ congruence | ].
      exfalso.
      assert (Hf : Forall (fun e => ~ creates_moc e) (trace_of (generate_tiles env opts s5))).
      { apply no_moc_created.
        destruct (generate_tiles_strategies env opts s5) as [H|(st & G1 & G2 & G3)].
        - left. exact H.
        - destruct Hno as [Hno|[Hm Hr]]; [ congruence | ].
          right. exists st. split; [ exact G3 | ].
          rewrite Htag in G1. eapply strategy_of_tag_moc; eassumption. }
      apply Exists_exists in Hex as (e & He & Hce).
      rewrite Forall_forall in Hf. exact (Hf e He Hce). }
    rewrite (Hrun s6 Hm6) in H7. discriminate.
  - pose proof (main_read_after_moc env opts) as Hord.
    apply Forall_forall. intros e He. split; [ | rewrite Forall_forall in Hnone; auto ].
    intros ->. apply list_elem_of_split in He as (t1 & t2 & Heq).
    specialize (Hord t1 ReadCoverageFiles t2 Heq eq_refl).
    apply Exists_exists in Hord as (x & Hx & Hcx).
    rewrite Forall_forall in Hnone. apply (Hnone x); [ | exact Hcx ].
    rewrite Heq. apply elem_of_app. left. exact Hx.
Qed.

Lemma coverage_files_need_moc_witness :
  returns (result_of (main sample_env coverage_only_opts)) = false.
Proof.
  apply (coverage_files_need_moc sample_env coverage_only_opts).
  - reflexivity.
  - reflexivity.
  - right. split; discriminate.
Defined.

(** * The efficiency step *)

(** Lines 667-668 and 694-696: with the efficiency asked for and neither a
    schedule nor a coverage, the run does not return and makes no call of
    the schedule, summary and efficiency steps; the efficiency step prints
    its message and exits. *)
Theorem efficiency_needs_coverage env opts :
  Opts.doEfficiency opts = true ->
  Opts.doSchedule opts = false ->
  Opts.doCoverage opts = false ->
  returns (result_of (main env opts)) = false /\
  Forall (fun e => ~ from [SSchedule; SSummary; SEfficiency] e)
         (trace_of (main env opts)) /\
  (forall s, efficiency env opts s =
     ([Print "Need to enable --doSchedule or --doCoverage for --doEfficiency"], Exit)).
Proof.
  intros He Hs Hc.
  assert (Hrun : forall s, efficiency env opts s =
     ([Print "Need to enable --doSchedule or --doCoverage for --doEfficiency"], Exit)).
  { intros s. unfold efficiency. rewrite He, Hs, Hc. reflexivity. }
  split; [ | split; [ | exact Hrun ] ].
  - destruct (returns (result_of (main env opts))) eqn:Hr; [ | reflexivity ].
    apply main_returns in Hr as (p & c & Hp & Hr).
    apply returns_Ok in Hr as (a & s & Hr).
    apply script_ok_inv in Hr as (s1 & s2 & s3 & s4 & s5 & s6 & s7 & s8 & H).
    destruct H as (_ & _ & _ & _ & _ & _ & _ & _ & H9).
    rewrite Hrun in H9. discriminate.
  - apply main_trace; [ by_stage | intros p c _ ].
    apply emits_script.
    + quiet_stage emits_check_lengths.
    + quiet_stage emits_select_skymap.
    + quiet_stage emits_load_skymap.
    + quiet_stage emits_check_observability.
    + quiet_stage emits_samples_and_split.
    + quiet_stage emits_generate_tiles.
    + unfold schedule. rewrite Hs, Hc. unfold when. emits_all.
    + unfold summary. rewrite Hs, Hc. unfold when. emits_all.
    + intros s. rewrite Hrun. apply Forall_singleton. unfold from. simpl.
      intuition discriminate.
Qed.

Lemma efficiency_needs_coverage_witness :
  returns (result_of (main sample_env (efficiency_opts false false "Tophat"))) = false.
Proof.
  apply (efficiency_needs_coverage sample_env (efficiency_opts false false "Tophat"));
    reflexivity.
Defined.

(** Lines 670-679: with a model type other than "file" and "Tophat" the
    efficiency step stops with [NameError] on [lightcurve_structs] after its
    message; the run does not return and computes no efficiency. *)
Theorem efficiency_needs_known_model env opts :
  Opts.doEfficiency opts = true ->
  Opts.doSchedule opts || Opts.doCoverage opts = true ->
  Opts.modelType opts <> "file"%string ->
  Opts.modelType opts <> "Tophat"%string ->
  returns (result_of (main env opts)) = false /\
  Forall (fun e => ~ from [SEfficiency] e) (trace_of (main env opts)) /\
  (forall s, efficiency env opts s =
     ([Print "Computing efficiency..."], Raise (NameError "lightcurve_structs"))).
Proof.
  intros He Hs Hf Ht. apply String.eqb_neq in Hf, Ht.
  assert (Hrun : forall s, efficiency env opts s =
     ([Print "Computing efficiency..."], Raise (NameError "lightcurve_structs"))).
  { intros s. unfold efficiency. rewrite He, Hs, Hf, Ht. reflexivity. }
  split; [ | split; [ | exact Hrun ] ].
  - destruct (returns (result_of (main env opts))) eqn:Hr; [ | reflexivity ].
    apply main_returns in Hr as (p & c & Hp & Hr).
    apply returns_Ok in Hr as (a & s & Hr).
    apply script_ok_inv in Hr as (s1 & s2 & s3 & s4 & s5 & s6 & s7 & s8 & H).
    destruct H as (_ & _ & _ & _ & _ & _ & _ & _ & H9).
    rewrite Hrun in H9. discriminate.
  - apply main_trace; [ by_stage | intros p c _ ].
    apply emits_script.
    + quiet_stage emits_check_lengths.
    + quiet_stage emits_select_skymap.
    + quiet_stage emits_load_skymap.
    + quiet_stage emits_check_observability.
    + quiet_stage emits_samples_and_split.
    + quiet_stage emits_generate_tiles.
    + quiet_stage emits_schedule.
    + quiet_stage emits_summary.
    + intros s. rewrite Hrun. apply Forall_singleton. unfold from. simpl.
      intuition discriminate.
Qed.

Lemma efficiency_needs_known_model_witness :
  returns (result_of (main sample_env (efficiency_opts true false "Bulla"))) = false.
Proof.
  apply (efficiency_needs_known_model sample_env (efficiency_opts true false "Bulla"));
    [ reflexivity | reflexivity | discriminate | discriminate ].
Defined.

(** * Plots *)

(** Lines 518-520, 526-528, 629-631, 658-665 and 691-693: a run without
    [doPlots] makes no plotting call. *)
Theorem no_plot_unless_asked env opts :
  Opts.doPlots opts = false ->
  Forall (fun e => plotting_event e = false) (trace_of (main env opts)).
Proof.
  intros Hp. apply main_trace.
  { intros e; unfold from; destruct e; simpl; intuition discriminate. }
  intros p c _. apply emits_script.
  - unfold check_lengths. emits_all.
  - unfold select_skymap. emits_all.
  - unfold load_skymap. rewrite Hp. unfold when. emits_all.
  - unfold check_observability, observability_exit. rewrite Hp. unfold when. emits_all.
  - unfold samples_and_split. emits_all.
  - unfold generate_tiles. rewrite Hp. unfold when.
    destruct (Opts.doTiles opts); [ | apply emits_ret ].
    apply emits_bind; [ | intros _; apply emits_ret ].
    unfold dispatch_tiles. emits_all.
  - unfold schedule. emits_all.
  - unfold summary. rewrite Hp. unfold when. emits_all.
  - unfold efficiency. rewrite Hp. unfold when. emits_all.
Qed.

Lemma no_plot_unless_asked_witness :
  Forall (fun e => plotting_event e = false)
         (trace_of (main sample_env (efficiency_opts true false "Tophat"))).
Proof.
  apply (no_plot_unless_asked sample_env (efficiency_opts true false "Tophat")).
  reflexivity.
Defined.

(** * [params_struct] *)

Section NeverExits.
Context {St : Type}.

Lemma never_exits_ret {A} (a : A) : never_exits (ret a : M St A).
Proof. intros s. discriminate. Qed.

Lemma never_exits_raise {A} e : never_exits (raise e : M St A).
Proof. intros s. discriminate. Qed.

Lemma never_exits_emit e : never_exits (emit e : M St unit).
Proof. intros s. discriminate. Qed.

Lemma never_exits_get : never_exits (get : M St St).
Proof. intros s. discriminate. Qed.

Lemma never_exits_modify f : never_exits (modify f : M St unit).
Proof. intros s. discriminate. Qed.

Lemma never_exits_of_option {A} e (o : option A) : never_exits (of_option e o : M St A).
Proof. intros s. destruct o; discriminate. Qed.

Lemma never_exits_as_str v : never_exits (as_str v : M St string).
Proof. intros s. destruct v; discriminate. Qed.

Lemma never_exits_as_float v : never_exits (as_float v : M St float).
Proof. intros s. destruct v; discriminate. Qed.

Lemma never_exits_bind {A B} (m : M St A) (k : A -> M St B) :
  never_exits m -> (forall a, never_exits (k a)) -> never_exits (m ≫= k).
Proof.
  intros Hm Hk s. rewrite run_bind. specialize (Hm s).
  destruct (m s) as [t [a s1| |e]]; simpl in *;
    [ apply Hk | exfalso; apply Hm; reflexivity | discriminate ].
Qed.

Lemma never_exits_for {A} (xs : list A) (body : A -> M St unit) :
  (forall x, never_exits (body x)) -> never_exits (for_ xs body).
Proof.
  intros Hb. induction xs as [|x xs IH]; simpl.
  - apply never_exits_ret.
  - apply never_exits_bind; [ apply Hb | intros _; exact IH ].
Qed.

Lemma never_exits_float_array env tokens :
  never_exits (float_array env tokens : M St (list float)).
Proof.
  induction tokens as [|tok rest IH]; simpl.
  - apply never_exits_ret.
  - apply never_exits_bind; [ apply never_exits_of_option | intros x ].
    apply never_exits_bind; [ exact IH | intros xs; apply never_exits_ret ].
Qed.
End NeverExits.

Ltac never_exits_step :=
  first
    [ apply never_exits_ret | apply never_exits_raise | apply never_exits_emit
    | apply never_exits_get | apply never_exits_modify | apply never_exits_of_option
    | apply never_exits_as_str | apply never_exits_as_float
    | apply never_exits_float_array
    | apply never_exits_for; intros ?
    | apply never_exits_bind; [ | intros ? ]
    | match goal with
      | |- never_exits (if ?b then _ else _) => destruct b
      | |- never_exits (match ?o with Some _ => _ | None => _ end) => destruct o
      end ].

(** The set-up fails by an exception only: it has no [exit(0)]. *)
Lemma prelude_never_exits env opts : never_exits (prelude env opts).
Proof.
  unfold prelude, params_struct, telescope_config, single_exposure, load_tesselation,
    load_references, make_observer, parse_time, when.
  repeat never_exits_step.
Qed.

(** A set-up that does not return ends the run by its exception, after
    set-up calls only. *)
Lemma main_setup_fails env opts :
  returns (result_of (prelude env opts ∅)) = false ->
  (exists e, result_of (main env opts) = Raise e) /\
  returns (result_of (main env opts)) = false /\
  Forall (from [SSetup]) (trace_of (main env opts)).
Proof.
  intros Hr. pose proof (prelude_never_exits env opts ∅) as Hx.
  pose proof (emits_prelude env opts ∅) as He.
  unfold main. destruct (prelude env opts ∅) as [t [p c| |e]]; simpl in *.
  - discriminate.
  - contradiction.
  - split; [ exists e; reflexivity | split; [ reflexivity | exact He ] ].
Qed.

Lemma prelude_ok env opts c p c' :
  result_of (prelude env opts c) = Ok p c' ->
  result_of (params_struct env opts c) = Ok p c'.
Proof.
  unfold prelude. intros H. apply ok_bind_inv in H as ([] & s1 & H1 & H).
  assert (s1 = c) as ->; [ | exact H ].
  unfold when in H1. destruct (negb _); simpl in H1; injection H1 as <-; reflexivity.
Qed.

Lemma parse_time_inv {St} env d o (s : St) x s' :
  result_of (parse_time env d o s) = Ok x s' ->
  match o with
  | None => x = d
  | Some t => isot env t = Some x
  end.
Proof.
  unfold parse_time. destruct o as [t|]; [ | intros [= <- _]; reflexivity ].
  intros H. apply of_option_ok in H as [H _]. exact H.
Qed.

(** What [params_struct] has done when it returns: the loop over the
    telescopes returned the configurations, the four number lists and the
    two times parsed. *)
Lemma params_struct_inv env opts c p c' :
  result_of (params_struct env opts c) = Ok p c' ->
  result_of (for_ (split_comma (Opts.telescopes opts)) (telescope_config env opts) c)
    = Ok tt (Params.config p) /\
  Params.telescopes p = split_comma (Opts.telescopes opts) /\
  mapM (py_float env) (split_comma (Opts.Tobs opts)) = Some (Params.Tobs p) /\
  mapM (py_float env) (split_comma (Opts.raslice opts)) = Some (Params.raslice p) /\
  mapM (py_float env) (split_comma (Opts.exposuretimes opts))
    = Some (Params.exposuretimes p) /\
  mapM (py_float env) (split_comma (Opts.max_nb_tiles opts))
    = Some (Params.max_nb_tiles p) /\
  match Opts.start_time opts with
  | None => Params.start_time p = yesterday env
  | Some t => isot env t = Some (Params.start_time p)
  end /\
  match Opts.end_time opts with
  | None => Params.end_time p = now env
  | Some t => isot env t = Some (Params.end_time p)
  end.
Proof.
  unfold params_struct. intros H.
  apply ok_bind_inv in H as ([] & s1 & Hloop & H).
  apply ok_bind_inv in H as (Tobs & s2 & H2 & H).
  apply float_array_mapM in H2 as [H2 ->].
  apply ok_bind_inv in H as (raslice & s3 & H3 & H).
  apply float_array_mapM in H3 as [H3 ->].
  apply ok_bind_inv in H as (times & s4 & H4 & H).
  apply float_array_mapM in H4 as [H4 ->].
  apply ok_bind_inv in H as (nb & s5 & H5 & H).
  apply float_array_mapM in H5 as [H5 ->].
  apply ok_bind_inv in H as (t0 & s6 & H6 & H).
  pose proof (parse_time_inv _ _ _ _ _ _ H6) as T6.
  apply parse_time_ok in H6 as ->.
  apply ok_bind_inv in H as (t1 & s7 & H7 & H).
  pose proof (parse_time_inv _ _ _ _ _ _ H7) as T7.
  apply parse_time_ok in H7 as ->.
  apply ok_bind_inv in H as (cfgs & s8 & H8 & H).
  injection H8 as <- <-. injection H as <- _. simpl.
  repeat split; assumption.
Qed.

Lemma keeps_as_str {St B} (f : St -> B) v : keeps f (as_str v : M St string).
Proof. intros s a s'. destruct v; simpl; try discriminate. intros [= _ <-]. reflexivity. Qed.

Lemma load_tesselation_state {St} env opts telescope cfg (s : St) cfg' s' :
  result_of (load_tesselation env opts telescope cfg s) = Ok cfg' s' -> s' = s.
Proof.
  revert s cfg' s'.
  change (keeps (fun x : St => x) (load_tesselation env opts telescope cfg)).
  unfold load_tesselation. destruct (cfg !! "tesselationFile"); [ | apply keeps_ret ].
  apply keeps_bind; [ apply keeps_as_str | intros f ].
  keeps_all.
Qed.

Lemma load_references_state {St} env cfg (s : St) cfg' s' :
  result_of (load_references env cfg s) = Ok cfg' s' -> s' = s.
Proof.
  revert s cfg' s'.
  change (keeps (fun x : St => x) (load_references env cfg)).
  unfold load_references. destruct (cfg !! "referenceFile"); [ | apply keeps_ret ].
  apply keeps_bind; [ apply keeps_as_str | intros f ].
  keeps_all.
Qed.

Lemma as_str_ok {St} v (s : St) x s' :
  result_of (as_str v s) = Ok x s' -> v = VStr x /\ s' = s.
Proof. destruct v; simpl; try discriminate. intros [= <- <-]. auto. Qed.

Lemma value_eq_str_true v text : value_eq_str v text = true -> v = VStr text.
Proof.
  destruct v; simpl; try discriminate. intros H. apply String.eqb_eq in H as ->.
  reflexivity.
Qed.

(** Lines 296-311 when they go through *)
Lemma load_tesselation_inv {St} env opts telescope cfg (s : St) cfg' s' :
  result_of (load_tesselation env opts telescope cfg s) = Ok cfg' s' ->
  match cfg !! "tesselationFile" with
  | None => cfg' = cfg
  | Some v =>
      exists f, v = VStr f /\
        if String.eqb (Opts.tilesType opts) "galaxy"
        then cfg' = <["tesselation" := VUninit 3]> cfg
        else exists rows, loadtxt env f = Some rows /\
                          cfg' = <["tesselation" := VTess rows]> cfg
  end.
Proof.
  unfold load_tesselation. destruct (cfg !! "tesselationFile") as [v|].
  - intros H. apply ok_bind_inv in H as (f & s1 & Hf & H).
    apply as_str_ok in Hf as [-> _]. exists f. split; [ reflexivity | ].
    apply ok_bind_inv in H as ([] & s2 & _ & H).
    destruct (String.eqb (Opts.tilesType opts) "galaxy").
    + injection H as <- _. reflexivity.
    + apply ok_bind_inv in H as ([] & s3 & _ & H).
      apply ok_bind_inv in H as (rows & s4 & Hr & H).
      apply of_option_ok in Hr as [Hr _]. injection H as <- _.
      exists rows. split; [ exact Hr | reflexivity ].
  - intros [= <- _]. reflexivity.
Qed.

(** Lines 333-339 when they go through *)
Lemma make_observer_inv {St} cfg (s : St) cfg' s' :
  result_of (make_observer cfg s) = Ok cfg' s' ->
  exists lon lat elev,
    cfg !! "longitude" = Some lon /\ cfg !! "latitude" = Some lat /\
    cfg !! "elevation" = Some elev /\
    cfg' = <["observer" := VObserver lon lat elev]> cfg /\ s' = s.
Proof.
  unfold make_observer. intros H.
  apply ok_bind_inv in H as (lon & s1 & H1 & H). apply of_option_ok in H1 as [H1 ->].
  apply ok_bind_inv in H as (lat & s2 & H2 & H). apply of_option_ok in H2 as [H2 ->].
  apply ok_bind_inv in H as (elev & s3 & H3 & H). apply of_option_ok in H3 as [H3 ->].
  injection H as <- <-. exists lon, lat, elev. auto.
Qed.

(** A key is none of the listed ones *)
Ltac other_key :=
  let H := fresh "H" in
  unfold single_exposure_keys, derived_keys; intros H;
  repeat (apply elem_of_cons in H as [H|H]; [ discriminate H | ]);
  inversion H.

(** The body of the loop over the telescopes, block by block *)
Lemma telescope_config_stages env opts telescope c c' :
  result_of (telescope_config env opts telescope c) = Ok tt c' ->
  exists cfg1 cfg2 cfg3 lon lat elev,
    c' = <[telescope := <["observer" := VObserver lon lat elev]> cfg3]> c /\
    (forall k, k ∉ single_exposure_keys ->
       cfg1 !! k = <["telescope" := VStr telescope]> (readParamsFromFile env telescope) !! k) /\
    (Opts.doSingleExposure opts = false ->
       cfg1 = <["telescope" := VStr telescope]> (readParamsFromFile env telescope)) /\
    result_of (load_tesselation env opts telescope cfg1 c) = Ok cfg2 c /\
    result_of (load_references env cfg2 c) = Ok cfg3 c /\
    cfg3 !! "longitude" = Some lon /\ cfg3 !! "latitude" = Some lat /\
    cfg3 !! "elevation" = Some elev.
Proof.
  intros H. unfold telescope_config in H.
  apply ok_bind_inv in H as ([] & s1 & H0 & H). injection H0 as <-.
  apply ok_bind_inv in H as (cfg1 & s2 & H1 & H).
  assert (Hc1 : s2 = c /\
            (forall k, k ∉ single_exposure_keys ->
               cfg1 !! k = <["telescope" := VStr telescope]>
                             (readParamsFromFile env telescope) !! k) /\
            (Opts.doSingleExposure opts = false ->
               cfg1 = <["telescope" := VStr telescope]> (readParamsFromFile env telescope))).
  { destruct (Opts.doSingleExposure opts).
    - apply single_exposure_ok in H1
        as (first & rest & magnitude & exposuretime & _ & _ & _ & -> & ->).
      split; [ reflexivity | split; [ | discriminate ] ].
      intros k Hk. unfold single_exposure_keys in Hk.
      rewrite !lookup_insert_ne by set_solver. reflexivity.
    - injection H1 as <- <-. auto. }
  destruct Hc1 as (-> & Hk1 & He1).
  apply ok_bind_inv in H as (cfg2 & s3 & H2 & H).
  pose proof (load_tesselation_state _ _ _ _ _ _ _ H2) as ->.
  apply ok_bind_inv in H as (cfg3 & s4 & H3 & H).
  pose proof (load_references_state _ _ _ _ _ H3) as ->.
  apply ok_bind_inv in H as (cfg4 & s5 & H4 & H).
  apply make_observer_inv in H4 as (lon & lat & elev & Hlon & Hlat & Helev & -> & ->).
  injection H as <-.
  exists cfg1, cfg2, cfg3, lon, lat, elev. auto 10.
Qed.

(** What the loop body leaves for its telescope *)
Lemma telescope_config_inv env opts telescope c c' :
  result_of (telescope_config env opts telescope c) = Ok tt c' ->
  exists cfg lon lat elev,
    c' = <[telescope := cfg]> c /\
    cfg !! "telescope" = Some (VStr telescope) /\
    readParamsFromFile env telescope !! "longitude" = Some lon /\
    readParamsFromFile env telescope !! "latitude" = Some lat /\
    readParamsFromFile env telescope !! "elevation" = Some elev /\
    cfg !! "observer" = Some (VObserver lon lat elev) /\
    tesselation_loaded env opts (readParamsFromFile env telescope) cfg /\
    (Opts.doSingleExposure opts = false ->
     forall k, k ∉ derived_keys -> cfg !! k = readParamsFromFile env telescope !! k).
Proof.
  intros H. apply telescope_config_stages in H
    as (cfg1 & cfg2 & cfg3 & lon & lat & elev & -> & Hk1 & He1 & H2 & H3 & Hlon & Hlat & Helev).
  pose proof (load_tesselation_ok _ _ _ _ _ _ _ H2) as F2.
  pose proof (load_references_ok _ _ _ _ _ H3) as F3.
  assert (Hfile : forall k, k ∉ single_exposure_keys -> k ∉ derived_keys ->
            cfg3 !! k = readParamsFromFile env telescope !! k).
  { intros k Hs Hd. unfold derived_keys in Hd.
    rewrite F3, F2, Hk1 by set_solver. apply lookup_insert_ne. set_solver. }
  exists (<["observer" := VObserver lon lat elev]> cfg3), lon, lat, elev.
  split; [ reflexivity | ]. repeat split.
  - rewrite lookup_insert_ne by discriminate.
    rewrite F3, F2 by discriminate. rewrite Hk1 by other_key. apply lookup_insert_eq.
  - rewrite <- Hlon. symmetry. apply Hfile; other_key.
  - rewrite <- Hlat. symmetry. apply Hfile; other_key.
  - rewrite <- Helev. symmetry. apply Hfile; other_key.
  - apply lookup_insert_eq.
  - unfold tesselation_loaded. rewrite lookup_insert_ne by discriminate.
    rewrite F3 by discriminate.
    apply load_tesselation_inv in H2.
    assert (Hf : cfg1 !! "tesselationFile" =
                 readParamsFromFile env telescope !! "tesselationFile").
    { rewrite Hk1 by other_key. apply lookup_insert_ne. discriminate. }
    rewrite Hf in H2.
    destruct (readParamsFromFile env telescope !! "tesselationFile") as [v|].
    + destruct H2 as (f & -> & H2). exists f. split; [ reflexivity | ].
      destruct (String.eqb (Opts.tilesType opts) "galaxy").
      * rewrite H2. apply lookup_insert_eq.
      * destruct H2 as (rows & Hr & ->). exists rows.
        split; [ exact Hr | apply lookup_insert_eq ].
    + rewrite H2. rewrite Hk1 by other_key. apply lookup_insert_ne. discriminate.
  - intros Hse k Hk. unfold derived_keys in Hk.
    rewrite lookup_insert_ne by set_solver. rewrite F3, F2 by set_solver.
    rewrite (He1 Hse). apply lookup_insert_ne. set_solver.
Qed.

(** When [params_struct] returns, [params["config"]] has for each telescope
    of the list what the loop body leaves, and nothing else beside what it
    had. *)
Lemma params_struct_configs env opts c p c' :
  result_of (params_struct env opts c) = Ok p c' ->
  (forall t, t ∈ split_comma (Opts.telescopes opts) ->
     exists cfg lon lat elev,
       Params.config p !! t = Some cfg /\
       cfg !! "telescope" = Some (VStr t) /\
       readParamsFromFile env t !! "longitude" = Some lon /\
       readParamsFromFile env t !! "latitude" = Some lat /\
       readParamsFromFile env t !! "elevation" = Some elev /\
       cfg !! "observer" = Some (VObserver lon lat elev) /\
       tesselation_loaded env opts (readParamsFromFile env t) cfg /\
       (Opts.doSingleExposure opts = false ->
        forall k, k ∉ derived_keys -> cfg !! k = readParamsFromFile env t !! k)) /\
  (forall t, t ∉ split_comma (Opts.telescopes opts) -> Params.config p !! t = c !! t).
Proof.
  intros H. apply params_struct_inv in H as (Hloop & _).
  destruct (for_insert_loop (telescope_config env opts)
              (fun t cfg =>
                 exists lon lat elev,
                   cfg !! "telescope" = Some (VStr t) /\
                   readParamsFromFile env t !! "longitude" = Some lon /\
                   readParamsFromFile env t !! "latitude" = Some lat /\
                   readParamsFromFile env t !! "elevation" = Some elev /\
                   cfg !! "observer" = Some (VObserver lon lat elev) /\
                   tesselation_loaded env opts (readParamsFromFile env t) cfg /\
                   (Opts.doSingleExposure opts = false ->
                    forall k, k ∉ derived_keys ->
                      cfg !! k = readParamsFromFile env t !! k))
              (split_comma (Opts.telescopes opts))) with (c := c) (c' := Params.config p)
    as [Hin Hout].
  { intros x c1 c2 Hx. apply telescope_config_inv in Hx
      as (cfg & lon & lat & elev & -> & Hx). exists cfg. split; [ reflexivity | ].
    exists lon, lat, elev. exact Hx. }
  { exact Hloop. }
  split; [ | exact Hout ].
  intros t Ht. destruct (Hin t Ht) as (cfg & Hc & lon & lat & elev & Hq).
  exists cfg, lon, lat, elev. split; [ exact Hc | exact Hq ].
Qed.

(** Lines 271-278 and 333-339: when [params_struct] returns,
    [params["config"]] has exactly the telescopes of the option as keys;
    each configuration carries its telescope's name and an observer built
    from the longitude, latitude and elevation of its configuration file. *)
Theorem every_telescope_configured env opts p c :
  result_of (params_struct env opts ∅) = Ok p c ->
  Params.telescopes p = split_comma (Opts.telescopes opts) /\
  (forall t, is_Some (Params.config p !! t) <-> t ∈ Params.telescopes p) /\
  (forall t, t ∈ Params.telescopes p ->
     exists cfg lon lat elev,
       Params.config p !! t = Some cfg /\
       cfg !! "telescope" = Some (VStr t) /\
       readParamsFromFile env t !! "longitude" = Some lon /\
       readParamsFromFile env t !! "latitude" = Some lat /\
       readParamsFromFile env t !! "elevation" = Some elev /\
       cfg !! "observer" = Some (VObserver lon lat elev)).
Proof.
  intros H. pose proof (params_struct_configs _ _ _ _ _ H) as [Hin Hout].
  apply params_struct_inv in H as (_ & Htel & _). rewrite Htel.
  split; [ reflexivity | split ].
  - intros t. split.
    + intros Hs. destruct (decide (t ∈ split_comma (Opts.telescopes opts))) as [|Hn];
        [ assumption | ].
      rewrite (Hout t Hn), lookup_empty in Hs. destruct Hs; discriminate.
    + intros Ht. destruct (Hin t Ht) as (cfg & _ & _ & _ & Hc & _). eauto.
  - intros t Ht.
    destruct (Hin t Ht) as (cfg & lon & lat & elev & Hc & Hn & Hlon & Hlat & Helev & Ho & _).
    exists cfg, lon, lat, elev. auto 10.
Qed.

Lemma every_telescope_configured_witness :
  exists p, is_Some (Params.config p !! "B") /\ ~ is_Some (Params.config p !! "C").
Proof.
  assert (H : exists p c, result_of (params_struct sample_env plain_opts ∅) = Ok p c).
  { apply returns_Ok. vm_compute. reflexivity. }
  destruct H as (p & c & H). exists p.
  destruct (every_telescope_configured sample_env plain_opts p c H) as (Ht & Hd & _).
  rewrite !Hd, Ht. split; [ vm_compute; right; left | ].
  vm_compute. intros Hc.
  repeat (apply elem_of_cons in Hc as [Hc|Hc]; [ discriminate Hc | ]). inversion Hc.
Defined.

(** Lines 296-311: when [params_struct] returns, a telescope whose file
    names no tessellation file keeps the file's tessellation entry; one
    whose file names a tessellation file has the uninitialised array under
    galaxy tiling and the rows read from that file otherwise. *)
Theorem tesselation_of_each_telescope env opts c p c' :
  result_of (params_struct env opts c) = Ok p c' ->
  forall t, t ∈ Params.telescopes p ->
    exists cfg, Params.config p !! t = Some cfg /\
                tesselation_loaded env opts (readParamsFromFile env t) cfg.
Proof.
  intros H. pose proof (params_struct_configs _ _ _ _ _ H) as [Hin _].
  apply params_struct_inv in H as (_ & Htel & _). rewrite Htel.
  intros t Ht. destruct (Hin t Ht) as (cfg & _ & _ & _ & Hc & _ & _ & _ & _ & _ & Hl & _).
  exists cfg. split; assumption.
Qed.

Lemma tesselation_of_each_telescope_witness :
  exists p cfg, Params.config p !! "A" = Some cfg /\
                cfg !! "tesselation" = Some (VTess []).
Proof.
  assert (H : exists p c, result_of (params_struct tesselation_env plain_opts ∅) = Ok p c).
  { apply returns_Ok. vm_compute. reflexivity. }
  destruct H as (p & c & H). exists p.
  destruct (tesselation_of_each_telescope tesselation_env plain_opts ∅ p c H "A")
    as (cfg & Hc & Hl).
  - apply params_struct_inv in H as (_ & -> & _). vm_compute. left.
  - exists cfg. split; [ exact Hc | ].
    destruct Hl as (f & _ & rows & Hr & Hl). injection Hr as <-. exact Hl.
Defined.

(** Lines 275-339 without single-exposure mode: when [params_struct]
    returns, every key of a telescope's configuration other than
    [telescope], [tesselation], [reference_images] and [observer] is as the
    configuration file gives it; keys the file lacks stay absent. *)
Theorem file_keys_kept_without_single_exposure env opts c p c' :
  Opts.doSingleExposure opts = false ->
  result_of (params_struct env opts c) = Ok p c' ->
  forall t, t ∈ Params.telescopes p ->
    exists cfg, Params.config p !! t = Some cfg /\
      forall k, k ∉ derived_keys -> cfg !! k = readParamsFromFile env t !! k.
Proof.
  intros Hse H. pose proof (params_struct_configs _ _ _ _ _ H) as [Hin _].
  apply params_struct_inv in H as (_ & Htel & _). rewrite Htel.
  intros t Ht. destruct (Hin t Ht) as (cfg & _ & _ & _ & Hc & _ & _ & _ & _ & _ & _ & Hk).
  exists cfg. split; [ exact Hc | exact (Hk Hse) ].
Qed.

Lemma file_keys_kept_without_single_exposure_witness :
  exists p cfg, Params.config p !! "A" = Some cfg /\
                cfg !! "magnitude" = Some (VFloat 20%float) /\
                cfg !! "magnitude_orig" = None.
Proof.
  assert (H : exists p c, result_of (params_struct sample_env plain_opts ∅) = Ok p c).
  { apply returns_Ok. vm_compute. reflexivity. }
  destruct H as (p & c & H). exists p.
  destruct (file_keys_kept_without_single_exposure sample_env plain_opts ∅ p c eq_refl H "A")
    as (cfg & Hc & Hk).
  - apply params_struct_inv in H as (_ & -> & _). vm_compute. left.
  - exists cfg. split; [ exact Hc | ].
    split; (rewrite Hk; [ reflexivity | other_key ]).
Defined.

(** Lines 333-337: a telescope of the list whose configuration file lacks
    the longitude, the latitude or the elevation ends the run by an
    exception, not by [exit(0)], after set-up calls only. *)
Theorem missing_site_stops_run env opts t :
  t ∈ split_comma (Opts.telescopes opts) ->
  readParamsFromFile env t !! "longitude" = None \/
  readParamsFromFile env t !! "latitude" = None \/
  readParamsFromFile env t !! "elevation" = None ->
  (exists e, result_of (main env opts) = Raise e) /\
  returns (result_of (main env opts)) = false /\
  Forall (from [SSetup]) (trace_of (main env opts)).
Proof.
  intros Ht Hmiss. apply main_setup_fails.
  destruct (result_of (prelude env opts ∅)) as [p c| |e] eqn:Hp; try reflexivity.
  exfalso. apply prelude_ok in Hp.
  apply params_struct_configs in Hp as [Hin _].
  destruct (Hin t Ht) as (cfg & lon & lat & elev & _ & _ & Hlon & Hlat & Helev & _).
  destruct Hmiss as [H|[H|H]]; congruence.
Qed.

Lemma missing_site_stops_run_witness :
  exists e, result_of (main no_elevation_env plain_opts) = Raise e.
Proof.
  apply (missing_site_stops_run no_elevation_env plain_opts "B").
  - vm_compute. right. left.
  - right. right. vm_compute. reflexivity.
Defined.

Lemma mapM_parses {A B} (f : A -> option B) xs ys x :
  mapM f xs = Some ys -> x ∈ xs -> is_Some (f x).
Proof.
  intros H Hx.
  assert (Hs : is_Some (mapM f xs)) by (rewrite H; eauto).
  apply mapM_is_Some in Hs. rewrite Forall_forall in Hs. apply (Hs x Hx).
Qed.

(** Lines 369, 393, 403, 408 and 462-470: a token of [Tobs], [raslice],
    [exposuretimes] or [max_nb_tiles] that [float()] rejects, or a start or
    end time that is no ISO time, ends the run by an exception after set-up
    calls only. *)
Theorem unparsable_option_stops_run env opts :
  (exists tok,
     tok ∈ split_comma (Opts.Tobs opts) ++ split_comma (Opts.raslice opts) ++
           split_comma (Opts.exposuretimes opts) ++
           split_comma (Opts.max_nb_tiles opts) /\
     py_float env tok = None) \/
  (exists t, (Opts.start_time opts = Some t \/ Opts.end_time opts = Some t) /\
             isot env t = None) ->
  (exists e, result_of (main env opts) = Raise e) /\
  returns (result_of (main env opts)) = false /\
  Forall (from [SSetup]) (trace_of (main env opts)).
Proof.
  intros Hbad. apply main_setup_fails.
  destruct (result_of (prelude env opts ∅)) as [p c| |e] eqn:Hp; try reflexivity.
  exfalso. apply prelude_ok in Hp.
  apply params_struct_inv in Hp as (_ & _ & H1 & H2 & H3 & H4 & H5 & H6).
  destruct Hbad as [(tok & Hin & Hnone)|(t & [Ht|Ht] & Hnone)].
  - assert (Hs : is_Some (py_float env tok)); [ | rewrite Hnone in Hs; destruct Hs; discriminate ].
    rewrite !elem_of_app in Hin.
    destruct Hin as [Hin|[Hin|[Hin|Hin]]].
    + exact (mapM_parses _ _ _ _ H1 Hin).
    + exact (mapM_parses _ _ _ _ H2 Hin).
    + exact (mapM_parses _ _ _ _ H3 Hin).
    + exact (mapM_parses _ _ _ _ H4 Hin).
  - rewrite Ht in H5. congruence.
  - rewrite Ht in H6. congruence.
Qed.

Lemma unparsable_option_stops_run_witness :
  exists e, result_of (main sample_env (with_Tobs "0.0,one" plain_opts)) = Raise e.
Proof.
  apply (unparsable_option_stops_run sample_env (with_Tobs "0.0,one" plain_opts)).
  left. exists "one"%string. split; [ | reflexivity ].
  vm_compute. right. left.
Defined.

(** ** The tessellation calls *)

Lemma load_tesselation_justified {St} env opts t cfg (s : St) :
  cfg !! "tesselationFile" = readParamsFromFile env t !! "tesselationFile" ->
  cfg !! "FOV_type" = readParamsFromFile env t !! "FOV_type" ->
  Forall (tesselation_call_justified env opts)
         (trace_of (load_tesselation env opts t cfg s)).
Proof.
  intros Hf Hv. unfold load_tesselation.
  destruct (cfg !! "tesselationFile") as [v|] eqn:Hfile; [ | constructor ].
  apply trace_bind; [ apply emits_as_str | intros f s1 Hs ].
  apply as_str_ok in Hs as [-> _].
  apply trace_bind.
  - destruct (isfile env f) eqn:Hi; [ constructor | ].
    apply trace_bind; [ apply emits_of_option | intros fov s2 Hfov ].
    apply of_option_ok in Hfov as [Hfov _].
    destruct (value_eq_str fov "circle") eqn:Hc;
      [ | destruct (value_eq_str fov "square") eqn:Hq; [ | constructor ] ].
    + apply value_eq_str_true in Hc as ->. apply Forall_singleton. simpl.
      exists f. rewrite <- Hf, <- Hv. auto.
    + apply value_eq_str_true in Hq as ->. apply Forall_singleton. simpl.
      exists f. rewrite <- Hf, <- Hv. auto.
  - intros [] s2 _.
    destruct (String.eqb (Opts.tilesType opts) "galaxy") eqn:Hg; [ constructor | ].
    apply trace_bind.
    + apply Forall_singleton. simpl. split; [ apply String.eqb_neq, Hg | ].
      exists t. rewrite <- Hf. reflexivity.
    + intros [] s3 _. apply trace_bind; [ apply emits_of_option | intros rows s4 _ ].
      constructor.
Qed.

Lemma telescope_config_justified env opts t :
  emits (tesselation_call_justified env opts) (telescope_config env opts t).
Proof.
  intros c. unfold telescope_config.
  apply trace_bind; [ apply Forall_singleton; exact I | intros [] s1 _ ].
  apply trace_bind.
  { destruct (Opts.doSingleExposure opts); [ | constructor ].
    eapply Forall_impl; [ apply emits_single_exposure | ]. intros e []. }
  intros cfg1 s2 H1.
  assert (Hk1 : forall k, k ∉ single_exposure_keys -> k <> "telescope"%string ->
             cfg1 !! k = readParamsFromFile env t !! k).
  { intros k Hk Hn. destruct (Opts.doSingleExposure opts).
    - apply single_exposure_ok in H1
        as (first & rest & magnitude & exposuretime & _ & _ & _ & -> & _).
      unfold single_exposure_keys in Hk.
      rewrite !lookup_insert_ne by set_solver. reflexivity.
    - injection H1 as <- _. apply lookup_insert_ne. congruence. }
  apply trace_bind.
  { apply load_tesselation_justified; apply Hk1; (other_key || discriminate). }
  intros cfg2 s3 _.
  apply trace_bind.
  { unfold load_references. destruct (cfg2 !! "referenceFile"); [ | constructor ].
    apply trace_bind; [ apply emits_as_str | intros f s4 _ ].
    apply trace_bind; [ apply Forall_singleton; exact I | intros [] s5 _ ].
    constructor. }
  intros cfg3 s4 _.
  apply trace_bind.
  { eapply Forall_impl; [ apply emits_make_observer | ]. intros e []. }
  intros cfg4 s5 _. constructor.
Qed.

(** Lines 296-311, over the whole run: a tessellation is generated only
    for a telescope whose configuration file names a tessellation file that
    does not exist, by the spiral when the file's [FOV_type] is "circle" and
    by the packing when it is "square"; a tessellation file is read only
    when named by a configuration file and under a tiling other than the
    galaxy one. *)
Theorem tesselation_calls_justified env opts :
  Forall (tesselation_call_justified env opts) (trace_of (main env opts)).
Proof.
  assert (Hpre : Forall (tesselation_call_justified env opts)
                        (trace_of (prelude env opts ∅))).
  { unfold prelude, params_struct. apply trace_bind.
    { unfold when. destruct (negb _); [ apply Forall_singleton; exact I | constructor ]. }
    intros [] s1 _.
    apply trace_bind;
      [ apply emits_for; intros t; apply telescope_config_justified | intros [] s2 _ ].
    revert s2.
    change (emits (tesselation_call_justified env opts)
      (Tobs ← float_array env (split_comma (Opts.Tobs opts));
       raslice ← float_array env (split_comma (Opts.raslice opts));
       exposuretimes ← float_array env (split_comma (Opts.exposuretimes opts));
       max_nb_tiles ← float_array env (split_comma (Opts.max_nb_tiles opts));
       start_time ← parse_time env (yesterday env) (Opts.start_time opts);
       end_time ← parse_time env (now env) (Opts.end_time opts);
       config ← get;
       ret {| Params.config := config;
              Params.skymap := Opts.skymap opts;
              Params.gpstime := Opts.gpstime opts;
              Params.outputDir := Opts.outputDir opts;
              Params.telescopes := split_comma (Opts.telescopes opts);
              Params.lightcurveFiles := split_comma (Opts.lightcurveFiles opts);
              Params.tilesType := Opts.tilesType opts;
              Params.Ntiles := NtilesInt (Opts.Ntiles opts);
              Params.Tobs := Tobs;
              Params.raslice := raslice;
              Params.doTrueLocation := Opts.doTrueLocation opts;
              Params.filters := split_comma (Opts.filters opts);
              Params.exposuretimes := exposuretimes;
              Params.max_nb_tiles := max_nb_tiles;
              Params.start_time := start_time;
              Params.end_time := end_time |})).
    unfold parse_time. emits_all. }
  destruct (main_cases env opts) as [(t1 & p & c & Hp & ->)|(_ & _ & ->)];
    [ | exact Hpre ].
  rewrite Hp in Hpre. simpl in *. apply Forall_app. split; [ exact Hpre | ].
  apply emits_script.
  - quiet_stage emits_check_lengths.
  - quiet_stage emits_select_skymap.
  - quiet_stage emits_load_skymap.
  - quiet_stage emits_check_observability.
  - quiet_stage emits_samples_and_split.
  - quiet_stage emits_generate_tiles.
  - quiet_stage emits_schedule.
  - quiet_stage emits_summary.
  - quiet_stage emits_efficiency.
Qed.

(** * The greedy and the galaxy branch *)

(** The loop of lines 601-610 over a list of telescopes *)
Lemma rebuild_loop_run (structs : gmap string (list tile)) ts :
  forall s,
  tile_structs s = Some structs ->
  (forall t, t ∈ ts ->
     is_Some (Params.config (params s) !! t) /\ is_Some (structs !! t)) ->
  exists s',
    for_ ts (fun telescope => rebuild_tesselation telescope;; ret tt) s
      = ([], Ok tt s') /\
    Params.Ntiles (params s') = Params.Ntiles (params s) /\
    Params.telescopes (params s') = Params.telescopes (params s) /\
    tile_structs s' = tile_structs s /\
    forall t,
      Params.config (params s') !! t =
        if decide (t ∈ ts)
        then <["tesselation" := tesselation_of (tiles_for structs t)]>
               <$> Params.config (params s) !! t
        else Params.config (params s) !! t.
Proof.
  induction ts as [|x ts IH]; intros s Hs Hall.
  - exists s. simpl. repeat split.
  - destruct (Hall x ltac:(left)) as [Hcx [tiles Htx]].
    pose (s1 := put_tesselation x (tesselation_of tiles) s).
    assert (Hbody : (rebuild_tesselation x;; ret tt) s = ([], Ok tt s1)).
    { rewrite run_bind, (rebuild_tesselation_run x structs tiles) by assumption.
      reflexivity. }
    destruct (put_tesselation_frame x (tesselation_of tiles) s) as (F1 & _ & F3 & F4).
    assert (Hcfg1 : forall t, Params.config (params s1) !! t =
              if decide (t = x)
              then <["tesselation" := tesselation_of tiles]> <$> Params.config (params s) !! t
              else Params.config (params s) !! t).
    { intros t. apply put_tesselation_config. }
    destruct (IH s1) as (s' & Hrun & HN & HT & HS & HC).
    + unfold s1. rewrite F1. exact Hs.
    + intros t Ht. destruct (Hall t ltac:(right; exact Ht)) as [[cfg Hc] Hst].
      split; [ | exact Hst ]. rewrite Hcfg1. rewrite Hc.
      destruct (decide (t = x)); simpl; eauto.
    + exists s'. simpl. rewrite run_bind, Hbody. simpl. rewrite Hrun. simpl.
      split; [ reflexivity | ]. split; [ | split; [ | split ] ].
      * rewrite HN. exact F4.
      * rewrite HT. exact F3.
      * rewrite HS. exact F1.
      * intros t. rewrite HC, Hcfg1. unfold tiles_for.
        destruct (decide (t = x)) as [->|Hne].
        -- rewrite (decide_True (P := x ∈ x :: ts)) by left.
           rewrite Htx. simpl.
           destruct (decide (x ∈ ts)); [ | reflexivity ].
           destruct (Params.config (params s) !! x); simpl; [ | reflexivity ].
           rewrite insert_insert_eq. reflexivity.
        -- destruct (decide (t ∈ ts)) as [Hin|Hnin].
           ++ rewrite (decide_True (P := t ∈ x :: ts)) by (right; exact Hin). reflexivity.
           ++ rewrite (decide_False (P := t ∈ x :: ts)); [ reflexivity | ].
              intros Hin. apply elem_of_cons in Hin as [?|?]; contradiction.
Qed.

(** The loop from the state in which the strategy has just bound
    [tile_structs] *)
Lemma rebuild_loop_rebuilt (structs : gmap string (list tile)) s :
  (forall t, t ∈ Params.telescopes (params s) ->
     is_Some (Params.config (params s) !! t) /\ is_Some (structs !! t)) ->
  exists s',
    for_ (Params.telescopes (params s))
      (fun telescope => rebuild_tesselation telescope;; ret tt)
      (bind_tile_structs structs s) = ([], Ok tt s') /\
    rebuilt_from structs s s'.
Proof.
  intros Hall.
  destruct (rebuild_loop_run structs (Params.telescopes (params s))
              (bind_tile_structs structs s))
    as (s' & Hrun & HN & _ & HS & HC); [ reflexivity | exact Hall | ].
  exists s'. split; [ exact Hrun | ]. split; [ exact HS | split; [ exact HN | split ] ].
  - intros t Ht. destruct (Hall t Ht) as [[cfg Hc] _]. exists cfg.
    split; [ exact Hc | ]. rewrite HC, decide_True by exact Ht. simpl.
    simpl in Hc. rewrite Hc. reflexivity.
  - intros t Ht. rewrite HC, decide_False by exact Ht. reflexivity.
Qed.

(** Lines 598-610: the greedy branch returns whenever every telescope has
    a configuration and a tile dictionary.  It makes one call, to the greedy
    tiler; afterwards every telescope's tessellation is the array of the
    centers of its own tiles and [params["Ntiles"]] is what it was. *)
Theorem greedy_rebuilds_tesselation env s :
  Params.tilesType (params s) = "greedy" ->
  (forall t, t ∈ Params.telescopes (params s) ->
     is_Some (Params.config (params s) !! t) /\
     is_Some (tiles_greedy env !! t)) ->
  exists s',
    dispatch_tiles env s =
      ([Print "Generating greedy struct..."; TilesGreedy], Ok tt s') /\
    rebuilt_from (tiles_greedy env) s s'.
Proof.
  intros Htag Hall.
  destruct (rebuild_loop_rebuilt (tiles_greedy env) s Hall) as (s' & Hrun & Hre).
  exists s'. split; [ | exact Hre ].
  unfold dispatch_tiles. rewrite run_bind. simpl. rewrite Htag. simpl.
  repeat (rewrite run_bind; simpl).
  rewrite Hrun. reflexivity.
Qed.

Lemma greedy_rebuilds_tesselation_witness :
  exists s',
    dispatch_tiles sample_env (tagged_state "greedy") =
      ([Print "Generating greedy struct..."; TilesGreedy], Ok tt s') /\
    Params.Ntiles (params s') = NtilesInt 10.
Proof.
  destruct (greedy_rebuilds_tesselation sample_env (tagged_state "greedy"))
    as (s' & Hrun & _ & HN & _).
  - reflexivity.
  - intros t Ht. apply elem_of_cons in Ht as [->|Ht];
      [ | apply elem_of_cons in Ht as [->|Ht]; [ | inversion Ht ] ];
      split; vm_compute; eauto.
  - exists s'. split; [ exact Hrun | rewrite HN; reflexivity ].
Defined.

(** Lines 612-624: with the catalog bound the galaxy branch returns
    whenever every telescope has a configuration and a tile dictionary.  It
    makes one call, to the galaxy tiler; afterwards every telescope's
    tessellation is the array of the centers of its own tiles and
    [params["Ntiles"]] is what it was. *)
Theorem galaxy_rebuilds_tesselation env s :
  Params.tilesType (params s) = "galaxy" ->
  catalog_struct s = true ->
  (forall t, t ∈ Params.telescopes (params s) ->
     is_Some (Params.config (params s) !! t) /\
     is_Some (tiles_galaxy env !! t)) ->
  exists s',
    dispatch_tiles env s =
      ([Print "Generating galaxy struct..."; TilesGalaxy], Ok tt s') /\
    rebuilt_from (tiles_galaxy env) s s'.
Proof.
  intros Htag Hcat Hall.
  destruct (rebuild_loop_rebuilt (tiles_galaxy env) s Hall) as (s' & Hrun & Hre).
  exists s'. split; [ | exact Hre ].
  unfold dispatch_tiles. rewrite run_bind. simpl. rewrite Htag. simpl.
  rewrite run_bind. simpl. rewrite run_bind. unfold bound, gets, bind at 1. simpl.
  rewrite Hcat. simpl.
  repeat (rewrite run_bind; simpl).
  rewrite Hrun. reflexivity.
Qed.

Lemma galaxy_rebuilds_tesselation_witness :
  exists s',
    dispatch_tiles sample_env (tagged_state "galaxy") =
      ([Print "Generating galaxy struct..."; TilesGalaxy], Ok tt s') /\
    Params.Ntiles (params s') = NtilesInt 10.
Proof.
  destruct (galaxy_rebuilds_tesselation sample_env (tagged_state "galaxy"))
    as (s' & Hrun & _ & HN & _).
  - reflexivity.
  - reflexivity.
  - intros t Ht. apply elem_of_cons in Ht as [->|Ht];
      [ | apply elem_of_cons in Ht as [->|Ht]; [ | inversion Ht ] ];
      split; vm_compute; eauto.
  - exists s'. split; [ exact Hrun | rewrite HN; reflexivity ].
Defined.

(** * [params["Ntiles"]] over the run *)

Lemma keeps_set_tesselation {B} (f : state -> B) telescope v :
  (forall c s, f (set_params (Params.set_config c) s) = f s) ->
  keeps f (set_tesselation telescope v).
Proof.
  intros Hf. unfold set_tesselation.
  apply keeps_bind; [ apply keeps_gets | intros p ].
  apply keeps_bind; [ apply keeps_of_option | intros cfg ].
  apply keeps_modify. intros s. apply Hf.
Qed.

Lemma keeps_rebuild_tesselation {B} (f : state -> B) telescope :
  (forall c s, f (set_params (Params.set_config c) s) = f s) ->
  keeps f (rebuild_tesselation telescope).
Proof.
  intros Hf. unfold rebuild_tesselation, append_row.
  repeat first [ apply keeps_set_tesselation; exact Hf | keeps_step ].
Qed.

Lemma rebuild_tesselation_inv telescope s tiles s' :
  result_of (rebuild_tesselation telescope s) = Ok tiles s' ->
  exists structs, tile_structs s = Some structs /\ structs !! telescope = Some tiles.
Proof.
  unfold rebuild_tesselation. intros H.
  apply ok_bind_inv in H as ([] & s1 & H1 & H).
  apply (keeps_set_tesselation tile_structs) in H1; [ | reflexivity ].
  apply ok_bind_inv in H as (o & s2 & Hg & H). injection Hg as <- <-.
  apply ok_bind_inv in H as (structs & s3 & Ho & H). apply of_option_ok in Ho as [Ho ->].
  apply ok_bind_inv in H as (tiles' & s4 & Ht & H). apply of_option_ok in Ht as [Ht ->].
  apply ok_bind_inv in H as ([] & s5 & _ & H). injection H as <- _.
  exists structs. rewrite <- H1. split; assumption.
Qed.

Lemma append_Ntiles_inv n s a s' :
  result_of (append_Ntiles n s) = Ok a s' ->
  exists counts,
    Params.Ntiles (params s) = NtilesList counts /\
    Params.Ntiles (params s') = NtilesList (counts ++ [n]) /\
    tile_structs s' = tile_structs s.
Proof.
  unfold append_Ntiles. rewrite run_bind. simpl.
  destruct (Params.Ntiles (params s)) as [k|counts]; simpl; [ discriminate | ].
  intros [= _ <-]. exists counts. repeat split.
Qed.

(** The loop of lines 586-596 when it returns *)
Lemma hierarchical_loop_inv (structs : gmap string (list tile)) ts :
  forall s counts s',
  tile_structs s = Some structs ->
  Params.Ntiles (params s) = NtilesList counts ->
  result_of (for_ ts (fun telescope =>
                        tiles_struct ← rebuild_tesselation telescope;
                        append_Ntiles (length tiles_struct)) s) = Ok tt s' ->
  Params.Ntiles (params s') =
    NtilesList (counts ++ map (fun t => length (tiles_for structs t)) ts).
Proof.
  induction ts as [|x ts IH]; intros s counts s' Hs Hn H; simpl in H.
  - injection H as <-. rewrite app_nil_r. exact Hn.
  - apply ok_bind_inv in H as ([] & s2 & Hb & H).
    apply ok_bind_inv in Hb as (tiles & s1 & Hr & Ha).
    pose proof (keeps_rebuild_tesselation tile_structs x
                  ltac:(reflexivity) _ _ _ Hr) as K1.
    pose proof (keeps_rebuild_tesselation (fun s => Params.Ntiles (params s)) x
                  ltac:(reflexivity) _ _ _ Hr) as K2.
    simpl in K1, K2.
    apply rebuild_tesselation_inv in Hr as (structs' & Hs' & Hx).
    rewrite Hs in Hs'. injection Hs' as <-.
    apply append_Ntiles_inv in Ha as (counts' & Hc & Hn2 & Hs2).
    rewrite K2, Hn in Hc. injection Hc as <-.
    rewrite (IH s2 (counts ++ [length tiles]) s'); [ | congruence | exact Hn2 | exact H ].
    simpl. unfold tiles_for at 2. rewrite Hx. simpl. rewrite <- app_assoc. reflexivity.
Qed.

(** What the dispatch leaves in [params["Ntiles"]] when it returns *)
Lemma dispatch_tiles_Ntiles env s a s' :
  result_of (dispatch_tiles env s) = Ok a s' ->
  Params.Ntiles (params s') =
    if String.eqb (Params.tilesType (params s)) "hierarchical"
    then NtilesList (map (fun t => length (tiles_for (tiles_hierarchical env) t))
                         (Params.telescopes (params s)))
    else Params.Ntiles (params s).
Proof.
  unfold dispatch_tiles. intros H.
  apply ok_bind_inv in H as (p & s0 & Hg & H). injection Hg as <- <-.
  destruct (String.eqb (Params.tilesType (params s)) "hierarchical") eqn:Hh.
  - apply String.eqb_eq in Hh. rewrite Hh in H. simpl in H.
    apply ok_bind_inv in H as ([] & s1 & H1 & H). injection H1 as <-.
    apply ok_bind_inv in H as ([] & s2 & H2 & H). injection H2 as <-.
    apply ok_bind_inv in H as ([] & s3 & H3 & H). injection H3 as <-.
    apply ok_bind_inv in H as ([] & s4 & H4 & H). injection H4 as <-.
    apply ok_bind_inv in H as (p & s5 & H5 & H). injection H5 as <- <-.
    destruct a.
    apply (hierarchical_loop_inv (tiles_hierarchical env) _ _ []) in H;
      [ exact H | reflexivity | reflexivity ].
  - revert H.
    assert (K : keeps (fun s => Params.Ntiles (params s))
                  (if String.eqb (Params.tilesType (params s)) "moc" then
    emit (Print "Generating MOC struct...");;
    emit CreateMoc;;
    modify bind_moc_structs;;
    emit TilesMoc;;
    modify (bind_tile_structs (tiles_moc env))
  else if String.eqb (Params.tilesType (params s)) "ranked" then
    emit (Print "Generating ranked struct...");;
    emit CreateRanked;;
    modify bind_moc_structs;;
    emit TilesMoc;;
    modify (bind_tile_structs (tiles_ranked env))
  else if false then
    emit (Print "Generating hierarchical struct...");;
    emit TilesHierarchical;;
    modify (bind_tile_structs (tiles_hierarchical env));;
    modify (set_params (Params.set_Ntiles (NtilesList [])));;
    p ← gets params;
    for_ (Params.telescopes p)
      (fun telescope =>
         tiles_struct ← rebuild_tesselation telescope;
         append_Ntiles (length tiles_struct))
  else if String.eqb (Params.tilesType (params s)) "greedy" then
    emit (Print "Generating greedy struct...");;
    emit TilesGreedy;;
    modify (bind_tile_structs (tiles_greedy env));;
    p ← gets params;
    for_ (Params.telescopes p)
      (fun telescope => rebuild_tesselation telescope;; ret tt)
  else if String.eqb (Params.tilesType (params s)) "galaxy" then
    emit (Print "Generating galaxy struct...");;
    bound "catalog_struct" catalog_struct;;
    emit TilesGalaxy;;
    modify (bind_tile_structs (tiles_galaxy env));;
    p ← gets params;
    for_ (Params.telescopes p)
      (fun telescope => rebuild_tesselation telescope;; ret tt)
  else
    emit (Print "Need tilesType to be moc, greedy, hierarchical, ranked or galaxy");;
    exit0)).
    { destruct (String.eqb (Params.tilesType (params s)) "moc"); [ keeps_all | ].
      destruct (String.eqb (Params.tilesType (params s)) "ranked"); [ keeps_all | ].
      cbv iota.
      destruct (String.eqb (Params.tilesType (params s)) "greedy").
      { repeat first [ apply keeps_rebuild_tesselation; reflexivity | keeps_step ]. }
      destruct (String.eqb (Params.tilesType (params s)) "galaxy").
      { repeat first [ apply keeps_rebuild_tesselation; reflexivity | keeps_step ]. }
      keeps_all. }
    intros H. exact (K _ _ _ H).
Qed.

Lemma generate_tiles_Ntiles env opts s a s' :
  result_of (generate_tiles env opts s) = Ok a s' ->
  Params.Ntiles (params s') =
    if Opts.doTiles opts && String.eqb (Params.tilesType (params s)) "hierarchical"
    then NtilesList (map (fun t => length (tiles_for (tiles_hierarchical env) t))
                         (Params.telescopes (params s)))
    else Params.Ntiles (params s).
Proof.
  unfold generate_tiles, when. destruct (Opts.doTiles opts); simpl.
  - intros H. apply ok_bind_inv in H as ([] & s1 & H1 & H).
    apply dispatch_tiles_Ntiles in H1. rewrite <- H1.
    match type of H with
    | result_of (?m _) = _ =>
        assert (K : keeps (fun s => Params.Ntiles (params s)) m) by keeps_all
    end.
    exact (K _ _ _ H).
  - intros [= _ <-]. reflexivity.
Qed.

Lemma keeps_params_before_tiles {B} (f : Params.t -> B) env opts :
  (forall x p, f (Params.set_skymap x p) = f p) ->
  (forall x p, f (Params.set_gpstime x p) = f p) ->
  keeps (fun s => f (params s)) check_lengths /\
  keeps (fun s => f (params s)) (select_skymap env opts) /\
  keeps (fun s => f (params s)) (load_skymap opts) /\
  keeps (fun s => f (params s)) (check_observability env opts) /\
  keeps (fun s => f (params s)) (samples_and_split opts).
Proof.
  intros F1 F2. repeat split.
  - unfold check_lengths. keeps_all.
  - unfold select_skymap.
    repeat first [ apply keeps_modify; intros ?; simpl; solve [ apply F1 | apply F2 ]
                 | keeps_step ].
  - unfold load_skymap. keeps_all.
  - unfold check_observability, observability_exit. keeps_all.
  - unfold samples_and_split. keeps_all.
Qed.

Lemma keeps_params_after_tiles env opts :
  keeps params (schedule env opts) /\
  keeps params (summary opts) /\
  keeps params (efficiency env opts).
Proof.
  repeat split.
  - unfold schedule. keeps_all.
  - unfold summary. keeps_all.
  - unfold efficiency. keeps_all.
Qed.

(** Lines 365 and 585-596, over the whole run: when the run returns,
    [params["Ntiles"]] is the option's integer, unless the hierarchical
    tiling ran; then it is the list of the telescopes' tile counts, one per
    telescope of the option, in order. *)
Theorem Ntiles_after_run env opts a s :
  result_of (main env opts) = Ok a s ->
  Params.Ntiles (params s) = final_Ntiles env opts.
Proof.
  intros H.
  destruct (main_cases env opts) as [(t1 & p & c & Hp & Hm)|(_ & Hr & _)];
    [ | rewrite H in Hr; discriminate ].
  rewrite Hm in H. simpl in H.
  assert (Hp' : result_of (prelude env opts ∅) = Ok p c) by (rewrite Hp; reflexivity).
  apply prelude_fields in Hp' as (Htel & _ & _ & Htag & _ & _ & Hn).
  apply script_ok_inv in H
    as (s1 & s2 & s3 & s4 & s5 & s6 & s7 & s8 & H1 & H2 & H3 & H4 & H5 & H6 & H7 & H8 & H9).
  destruct (keeps_params_before_tiles Params.Ntiles env opts) as (N1 & N2 & N3 & N4 & N5);
    try reflexivity.
  destruct (keeps_params_before_tiles Params.telescopes env opts) as (T1 & T2 & T3 & T4 & T5);
    try reflexivity.
  destruct (keeps_params_before_tiles Params.tilesType env opts) as (G1 & G2 & G3 & G4 & G5);
    try reflexivity.
  destruct (keeps_params_after_tiles env opts) as (K7 & K8 & K9).
  rewrite (K9 _ _ _ H9), (K8 _ _ _ H8), (K7 _ _ _ H7).
  rewrite (generate_tiles_Ntiles _ _ _ _ _ H6).
  rewrite (N5 _ _ _ H5), (N4 _ _ _ H4), (N3 _ _ _ H3), (N2 _ _ _ H2), (N1 _ _ _ H1).
  rewrite (T5 _ _ _ H5), (T4 _ _ _ H4), (T3 _ _ _ H3), (T2 _ _ _ H2), (T1 _ _ _ H1).
  rewrite (G5 _ _ _ H5), (G4 _ _ _ H4), (G3 _ _ _ H3), (G2 _ _ _ H2), (G1 _ _ _ H1).
  simpl. rewrite Htel, Htag, Hn. reflexivity.
Qed.

Lemma Ntiles_after_run_witness :
  exists s, result_of (main sample_env hierarchical_opts) = Ok tt s /\
            Params.Ntiles (params s) = NtilesList [2; 1].
Proof.
  assert (H : exists a s, result_of (main sample_env hierarchical_opts) = Ok a s).
  { apply returns_Ok. vm_compute. reflexivity. }
  destruct H as ([] & s & H). exists s. split; [ exact H | ].
  rewrite (Ntiles_after_run sample_env hierarchical_opts tt s H). vm_compute. reflexivity.
Defined.

(** * The observability check, call by call *)

Lemma observability_exit_above env opts telescope s :
  visible_enough env opts telescope ->
  observability_exit env opts telescope s = ([], Ok tt s).
Proof.
  intros (prob & Hl & Hlt). unfold observability_exit. rewrite Hl.
  unfold of_option. rewrite run_bind. simpl. rewrite Hlt. reflexivity.
Qed.

Lemma write_files_run (dir : string) (lcs : list lightcurve) (s : state) :
  for_ lcs (fun lc => emit (WriteFile dir ("efficiency_true_" +:+ lc_name lc +:+ ".txt") "0")) s
  = (map (fun lc => WriteFile dir ("efficiency_true_" +:+ lc_name lc +:+ ".txt") "0") lcs,
     Ok tt s).
Proof.
  induction lcs as [|lc lcs IH]; simpl; [ reflexivity | ].
  rewrite run_bind. simpl. rewrite IH. reflexivity.
Qed.

Lemma observability_exit_run env opts telescope prob s :
  observability env !! telescope = Some prob ->
  PrimFloat.ltb (np_sum env prob) (Opts.observability_thresh opts) = true ->
  observability_exit env opts telescope s =
    (PrintObservabilityExit telescope (np_sum env prob) (Opts.observability_thresh opts)
       :: true_location_files env (params s),
     Exit).
Proof.
  intros Hl Hlt. unfold observability_exit, true_location_files. rewrite Hl.
  unfold of_option. rewrite run_bind. simpl. rewrite Hlt.
  rewrite run_bind. simpl. rewrite run_bind. simpl. rewrite run_bind.
  destruct (Params.doTrueLocation (params s)); simpl; [ | reflexivity ].
  rewrite run_bind. simpl. rewrite write_files_run.
  unfold prepend. simpl. rewrite ?app_nil_r. reflexivity.
Qed.

Lemma observability_loop_passes env opts ts s :
  (forall t, t ∈ ts -> visible_enough env opts t) ->
  for_ ts (observability_exit env opts) s = ([], Ok tt s).
Proof.
  induction ts as [|x ts IH]; intros Hall; simpl; [ reflexivity | ].
  rewrite run_bind, observability_exit_above by (apply Hall; left). simpl.
  rewrite IH; [ reflexivity | ]. intros t Ht. apply Hall. right. exact Ht.
Qed.

Lemma observability_loop_run env opts pre t post prob s :
  (forall x, x ∈ pre -> visible_enough env opts x) ->
  observability env !! t = Some prob ->
  PrimFloat.ltb (np_sum env prob) (Opts.observability_thresh opts) = true ->
  for_ (pre ++ t :: post) (observability_exit env opts) s =
    (PrintObservabilityExit t (np_sum env prob) (Opts.observability_thresh opts)
       :: true_location_files env (params s),
     Exit).
Proof.
  intros Hpre Hl Hlt. induction pre as [|x pre IH]; simpl.
  - rewrite run_bind, (observability_exit_run env opts t prob s Hl Hlt). reflexivity.
  - rewrite run_bind, observability_exit_above by (apply Hpre; left). simpl.
    rewrite IH; [ reflexivity | ]. intros y Hy. apply Hpre. right. exact Hy.
Qed.

Lemma check_observability_loop env opts s :
  Opts.doObservability opts = true ->
  Opts.doObservabilityExit opts = true ->
  check_observability env opts s =
    prepend (observability_calls opts)
      (for_ (Params.telescopes (params s)) (observability_exit env opts) s).
Proof.
  intros Ho He. unfold check_observability, observability_calls. rewrite Ho, He. simpl.
  rewrite run_bind. simpl. rewrite run_bind. simpl. rewrite run_bind.
  destruct (Opts.doPlots opts); simpl.
  - rewrite run_bind. simpl. destruct (for_ _ _ s) as [t r]; reflexivity.
  - rewrite run_bind. simpl. destruct (for_ _ _ s) as [t r]; reflexivity.
Qed.

(** Lines 522-558: the check returns with the state as it was, after the
    observability call and its plot only, when the early exit is off or
    every telescope has an entry whose summed probability is not below the
    threshold; a sum that is not a number does not stop the run. *)
Theorem observability_check_passes env opts s :
  (Opts.doObservability opts = true -> Opts.doObservabilityExit opts = true ->
   forall t, t ∈ Params.telescopes (params s) -> visible_enough env opts t) ->
  check_observability env opts s = (observability_calls opts, Ok tt s).
Proof.
  intros Hall. destruct (Opts.doObservability opts) eqn:Ho.
  - destruct (Opts.doObservabilityExit opts) eqn:He.
    + rewrite check_observability_loop by assumption.
      rewrite observability_loop_passes by (apply Hall; reflexivity).
      unfold prepend. simpl. rewrite app_nil_r. reflexivity.
    + unfold check_observability, observability_calls. rewrite Ho, He.
      destruct (Opts.doPlots opts); reflexivity.
  - unfold check_observability, observability_calls. rewrite Ho. reflexivity.
Qed.

Lemma observability_check_passes_witness :
  check_observability sample_env low_visibility_opts (sample_state ["A"] "moc") =
    ([Print "Generating observability"; Observability], Ok tt (sample_state ["A"] "moc")).
Proof.
  apply (observability_check_passes sample_env low_visibility_opts (sample_state ["A"] "moc")).
  intros _ _ t Ht. apply elem_of_cons in Ht as [->|Ht]; [ | inversion Ht ].
  exists [0.25%float; 0.5%float]. split; vm_compute; reflexivity.
Defined.

(** Lines 529-558: with the early exit on, the run stops at the first
    telescope of the list whose summed probability is below the threshold.
    The check prints the message for that telescope, with
    [doTrueLocation] writes one file [efficiency_true_<name>.txt] holding
    "0" per light curve, and exits; later telescopes are not looked at. *)
Theorem observability_exit_reports_first env opts s pre t post prob :
  Opts.doObservability opts = true ->
  Opts.doObservabilityExit opts = true ->
  Params.telescopes (params s) = pre ++ t :: post ->
  (forall x, x ∈ pre -> visible_enough env opts x) ->
  observability env !! t = Some prob ->
  PrimFloat.ltb (np_sum env prob) (Opts.observability_thresh opts) = true ->
  check_observability env opts s =
    (observability_calls opts ++
     PrintObservabilityExit t (np_sum env prob) (Opts.observability_thresh opts)
       :: true_location_files env (params s),
     Exit).
Proof.
  intros Ho He Hts Hpre Hl Hlt.
  rewrite check_observability_loop by assumption. rewrite Hts.
  rewrite (observability_loop_run env opts pre t post prob s Hpre Hl Hlt).
  reflexivity.
Qed.

Lemma observability_exit_reports_first_witness :
  check_observability sample_env low_visibility_opts (sample_state ["A"; "B"; "C"] "moc") =
    ([Print "Generating observability"; Observability;
      PrintObservabilityExit "B" 0.015625%float 0.0625%float;
      LightcurveReadFiles;
      WriteFile "output" "efficiency_true_Me2017_H4M050V20.dat.txt" "0"],
     Exit).
Proof.
  apply (observability_exit_reports_first sample_env low_visibility_opts
           (sample_state ["A"; "B"; "C"] "moc") ["A"] "B" ["C"] [0.015625%float]).
  - reflexivity.
  - reflexivity.
  - reflexivity.
  - intros t Ht. apply elem_of_cons in Ht as [->|Ht]; [ | inversion Ht ].
    exists [0.25%float; 0.5%float]. split; vm_compute; reflexivity.
  - reflexivity.
  - vm_compute. reflexivity.
Defined.

(** * The parts of the script run in order *)

Lemma call_order_app h t : call_order (h ++ t) = call_order h ++ call_order t.
Proof. apply omap_app. Qed.

Lemma sorted_app (l1 l2 : list nat) k :
  StronglySorted le l1 -> Forall (fun x => x <= k) l1 ->
  StronglySorted le l2 -> Forall (fun x => k <= x) l2 ->
  StronglySorted le (l1 ++ l2).
Proof.
  intros H1 B1 H2 B2. induction H1 as [|x l1 Hs IH Hx]; simpl; [ exact H2 | ].
  inversion B1 as [|? ? Bx B1']; subst.
  constructor; [ apply IH, B1' | ].
  apply Forall_app. split; [ exact Hx | ].
  eapply Forall_impl; [ exact B2 | ]. intros y Hy. simpl in Hy. lia.
Qed.

(** The calls of one part all have its place. *)
Lemma stage_calls k t :
  Forall (fun e => stage_rank (stage_of e) = None \/ stage_rank (stage_of e) = Some k) t ->
  StronglySorted le (call_order t) /\ Forall (fun x => x = k) (call_order t).
Proof.
  induction 1 as [|e t He _ [IH1 IH2]]; [ split; constructor | ].
  unfold call_order in *. simpl.
  destruct He as [He|He]; rewrite He; simpl; [ split; assumption | ].
  split; [ | constructor; [ reflexivity | exact IH2 ] ].
  constructor; [ exact IH1 | ].
  eapply Forall_impl; [ exact IH2 | ]. intros y Hy. simpl in Hy. lia.
Qed.

Lemma triple_stage {A} k' k (m : M state A) :
  k' <= k ->
  emits (fun e => stage_rank (stage_of e) = None \/ stage_rank (stage_of e) = Some k) m ->
  triple (fun h _ => StronglySorted le (call_order h) /\
                     Forall (fun x => x <= k') (call_order h))
         m
         (fun _ h _ => StronglySorted le (call_order h) /\
                       Forall (fun x => x <= k) (call_order h))
         (fun h => StronglySorted le (call_order h)).
Proof.
  intros Hk He h s [H1 H2]. specialize (He s).
  apply stage_calls in He as [S1 S2].
  assert (Hs : StronglySorted le (call_order (h ++ trace_of (m s)))).
  { rewrite call_order_app. apply (sorted_app _ _ k'); try assumption.
    eapply Forall_impl; [ exact S2 | ]. intros y Hy. simpl in Hy. lia. }
  assert (Hb : Forall (fun x => x <= k) (call_order (h ++ trace_of (m s)))).
  { rewrite call_order_app. apply Forall_app. split.
    - eapply Forall_impl; [ exact H2 | ]. intros y Hy. simpl in Hy. lia.
    - eapply Forall_impl; [ exact S2 | ]. intros y Hy. simpl in Hy. lia. }
  destruct (m s) as [t [a s'| |e]]; simpl in *; auto.
Qed.

(** A goal [emits (fun e => rank e = None \/ rank e = Some k) m] from what
    the part [m] emits *)
Ltac ranked_stage lemma :=
  eapply emits_weaken; [ | apply lemma ];
  let e := fresh "e" in
  intros e; unfold from; destruct e; simpl;
  intuition (try discriminate; try congruence).

(** Lines 484-696, over the whole run: the calls appear in the order of the
    parts of the script.  No call of the set-up, the skymap source, the
    skymap loading, the observability check, the sampling, the tiling, the
    scheduling, the summary or the efficiency comes after a call of a later
    one of these parts. *)
Theorem calls_follow_script env opts :
  StronglySorted le (call_order (trace_of (main env opts))).
Proof.
  assert (Hsetup : forall t, Forall (from [SSetup]) t ->
            StronglySorted le (call_order t) /\
            Forall (fun x => x <= 0) (call_order t)).
  { intros t Ht.
    destruct (stage_calls 0 t) as [S1 S2].
    - eapply Forall_impl; [ exact Ht | ].
      intros e; unfold from; destruct e; simpl; intuition (try discriminate; try congruence).
    - split; [ exact S1 | ].
      eapply Forall_impl; [ exact S2 | ]. intros y Hy. simpl in Hy. lia. }
  apply main_triple with
    (J := fun h _ => StronglySorted le (call_order h) /\
                     Forall (fun x => x <= 0) (call_order h))
    (Q := fun _ h _ => StronglySorted le (call_order h) /\
                       Forall (fun x => x <= 8) (call_order h)).
  - intros t Ht. apply Hsetup, Ht.
  - intros t p Ht. apply Hsetup, Ht.
  - intros _ h s [H _]. exact H.
  - unfold script.
    eapply triple_bind;
      [ apply (triple_stage 0 0); [ lia | ranked_stage emits_check_lengths ] | intros ?; cbv beta ].
    eapply triple_bind;
      [ apply (triple_stage 0 1); [ lia | ranked_stage emits_select_skymap ] | intros ?; cbv beta ].
    eapply triple_bind;
      [ apply (triple_stage 1 2); [ lia | ranked_stage emits_load_skymap ] | intros ?; cbv beta ].
    eapply triple_bind;
      [ apply (triple_stage 2 3); [ lia | ranked_stage emits_check_observability ]
      | intros ?; cbv beta ].
    eapply triple_bind;
      [ apply (triple_stage 3 4); [ lia | ranked_stage emits_samples_and_split ]
      | intros ?; cbv beta ].
    eapply triple_bind;
      [ apply (triple_stage 4 5); [ lia | ranked_stage emits_generate_tiles ] | intros ?; cbv beta ].
    eapply triple_bind;
      [ apply (triple_stage 5 6); [ lia | ranked_stage emits_schedule ] | intros ?; cbv beta ].
    eapply triple_bind;
      [ apply (triple_stage 6 7); [ lia | ranked_stage emits_summary ] | intros ?; cbv beta ].
    apply (triple_stage 7 8); [ lia | ranked_stage emits_efficiency ].
Qed.

(** * The exceptions of a run *)

Section Wp.
Context {St : Type}.
Implicit Types (P : exn -> Prop) (s : St).

Lemma wp_ret {A} (a : A) (Q : A -> St -> Prop) P s : Q a s -> wp (ret a) Q P s.
Proof. intros H. exact H. Qed.

Lemma wp_bind {A B} (m : M St A) (k : A -> M St B) (Q : B -> St -> Prop) P s :
  wp m (fun a s' => wp (k a) Q P s') P s -> wp (m ≫= k) Q P s.
Proof.
  unfold wp. rewrite run_bind. destruct (m s) as [t [a s1| |e]]; simpl; auto.
Qed.

Lemma wp_conseq {A} (m : M St A) (Q Q' : A -> St -> Prop) P s :
  wp m Q P s -> (forall a s', Q a s' -> Q' a s') -> wp m Q' P s.
Proof. unfold wp. destruct (result_of (m s)); auto. Qed.

Lemma wp_emit e (Q : unit -> St -> Prop) P s : Q tt s -> wp (emit e) Q P s.
Proof. intros H. exact H. Qed.

Lemma wp_exit {A} (Q : A -> St -> Prop) P s : wp (exit0 : M St A) Q P s.
Proof. exact I. Qed.

Lemma wp_raise {A} e (Q : A -> St -> Prop) P s : P e -> wp (raise e : M St A) Q P s.
Proof. intros H. exact H. Qed.

Lemma wp_get (Q : St -> St -> Prop) P s : Q s s -> wp get Q P s.
Proof. intros H. exact H. Qed.

Lemma wp_modify f (Q : unit -> St -> Prop) P s : Q tt (f s) -> wp (modify f) Q P s.
Proof. intros H. exact H. Qed.

Lemma wp_of_option {A} e (o : option A) (Q : A -> St -> Prop) P s :
  match o with Some a => Q a s | None => P e end -> wp (of_option e o) Q P s.
Proof. destruct o; intros H; exact H. Qed.

Lemma wp_as_str v (Q : string -> St -> Prop) P s :
  P TypeError -> (forall x, Q x s) -> wp (as_str v) Q P s.
Proof. intros HP HQ. destruct v; simpl; try exact HP. apply HQ. Qed.

Lemma wp_as_float v (Q : float -> St -> Prop) P s :
  P TypeError -> (forall x, Q x s) -> wp (as_float v) Q P s.
Proof. intros HP HQ. destruct v; simpl; try exact HP. apply HQ. Qed.

Lemma wp_for {A} (I : St -> Prop) (xs : list A) (body : A -> M St unit) P :
  (forall x s, I s -> wp (body x) (fun _ s' => I s') P s) ->
  forall s, I s -> wp (for_ xs body) (fun _ s' => I s') P s.
Proof.
  intros Hb. induction xs as [|x xs IH]; intros s Hs; simpl.
  - apply wp_ret, Hs.
  - apply wp_bind. eapply wp_conseq; [ apply Hb, Hs | ].
    intros ? s' Hs'. apply IH, Hs'.
Qed.

(** [np.array(tokens, dtype=float)] has as many entries as tokens. *)
Lemma wp_float_array env tokens P s :
  (forall tok, P (ValueError tok)) ->
  wp (float_array env tokens) (fun xs s' => length xs = length tokens /\ s' = s) P s.
Proof.
  intros HP. induction tokens as [|tok rest IH]; simpl.
  - apply wp_ret. auto.
  - apply wp_bind, wp_of_option. destruct (py_float env tok) as [x|]; [ | apply HP ].
    apply wp_bind. eapply wp_conseq; [ exact IH | ].
    intros xs s' [Hl ->]. apply wp_ret. simpl. auto.
Qed.
End Wp.

Lemma wp_gets {A} (f : state -> A) (Q : A -> state -> Prop) P s :
  Q (f s) s -> wp (gets f) Q P s.
Proof. intros H. exact H. Qed.

Lemma wp_bound name (f : state -> bool) (Q : unit -> state -> Prop) P s :
  (if f s then Q tt s else P (NameError name)) -> wp (bound name f) Q P s.
Proof. unfold wp, bound, bind, gets. simpl. destruct (f s); intros H; exact H. Qed.

(** One step of a goal [wp m Q P s] along [m] *)
Ltac wp_step :=
  lazymatch goal with
  | |- wp (_ ≫= _) _ _ _ => apply wp_bind
  | |- wp (ret _) _ _ _ => apply wp_ret
  | |- wp (emit _) _ _ _ => apply wp_emit
  | |- wp exit0 _ _ _ => apply wp_exit
  | |- wp get _ _ _ => apply wp_get
  | |- wp (gets _) _ _ _ => apply wp_gets
  | |- wp (modify _) _ _ _ => apply wp_modify
  | |- wp (raise _) _ _ _ => apply wp_raise
  | |- wp (of_option _ _) _ _ _ => apply wp_of_option
  | |- wp (bound _ _) _ _ _ => apply wp_bound
  | |- wp (as_float _) _ _ _ => apply wp_as_float; [ try exact I | intros ? ]
  | |- wp (as_str _) _ _ _ => apply wp_as_str; [ try exact I | intros ? ]
  | |- wp (when _ _) _ _ _ => unfold when
  | |- wp (if ?b then _ else _) _ _ _ => destruct b eqn:?
  | |- wp (match ?o with Some _ => _ | None => _ end) _ _ _ => destruct o eqn:?
  | |- match ?o with Some _ => _ | None => _ end => destruct o eqn:?
  | |- if ?b then _ else _ => destruct b eqn:?
  end;
  cbv beta.

Ltac wp_run := repeat wp_step.

Lemma split_on_nonempty c s : split_on c s <> [].
Proof.
  destruct s as [|a r]; simpl; [ discriminate | ].
  destruct (Ascii.eqb a c); [ discriminate | ].
  destruct (split_on c r); discriminate.
Qed.

(** The set-up raises no [NameError], [AttributeError] or [IndexError]:
    the first exposure time always exists. *)
Lemma wp_prelude env opts c :
  wp (prelude env opts) (fun _ _ => True) (expected_exn opts) c.
Proof.
  assert (Hfa : forall tokens (Q : list float -> gmap string (gmap string value) -> Prop) s,
            (forall xs, Q xs s) ->
            wp (float_array env tokens) Q (expected_exn opts) s).
  { intros tokens Q s HQ. eapply wp_conseq;
      [ apply wp_float_array; intros tok; exact I | ].
    intros xs s' [_ ->]. apply HQ. }
  assert (Hpt : forall d o (Q : string -> gmap string (gmap string value) -> Prop) s,
            (forall x, Q x s) ->
            wp (parse_time env d o) Q (expected_exn opts) s).
  { intros d o Q s HQ. unfold parse_time. destruct o as [t|]; [ | apply wp_ret, HQ ].
    apply wp_of_option. destruct (isot env t); [ apply HQ | exact I ]. }
  unfold prelude. apply wp_bind.
  eapply wp_conseq with (Q := fun _ _ => True); [ unfold when; wp_run; exact I | ].
  intros _ s0 _. unfold params_struct. apply wp_bind.
  eapply wp_conseq;
    [ apply (wp_for (fun _ => True)); [ | exact I ]
    | intros _ s1 _; repeat (apply wp_bind; first [ apply Hfa | apply Hpt ]; intros ?);
      wp_run; exact I ].
  intros t s _. unfold telescope_config. apply wp_bind, wp_emit. apply wp_bind.
  eapply wp_conseq with (Q := fun _ _ => True).
  { destruct (Opts.doSingleExposure opts); [ | apply wp_ret; exact I ].
    unfold single_exposure. apply wp_bind.
    eapply wp_conseq; [ apply wp_float_array; intros tok; exact I | ].
    intros times s' [Hl ->]. apply wp_bind, wp_of_option.
    destruct times as [|x times]; simpl.
    { exfalso. simpl in Hl. symmetry in Hl. apply length_zero_iff_nil in Hl.
      exact (split_on_nonempty _ _ Hl). }
    wp_run; exact I. }
  intros cfg1 s2 _. apply wp_bind.
  eapply wp_conseq with (Q := fun _ _ => True).
  { unfold load_tesselation. destruct (cfg1 !! "tesselationFile"); [ | apply wp_ret; exact I ].
    apply wp_bind, wp_as_str; [ exact I | intros f ].
    apply wp_bind. eapply wp_conseq with (Q := fun _ _ => True).
    { destruct (isfile env f); [ apply wp_ret; exact I | ].
      apply wp_bind, wp_of_option. destruct (cfg1 !! "FOV_type"); [ | exact I ].
      wp_run; exact I. }
    intros _ s3 _. wp_run; exact I. }
  intros cfg2 s3 _. apply wp_bind.
  eapply wp_conseq with (Q := fun _ _ => True).
  { unfold load_references. destruct (cfg2 !! "referenceFile"); [ | apply wp_ret; exact I ].
    apply wp_bind, wp_as_str; [ exact I | intros f ]. wp_run; exact I. }
  intros cfg3 s4 _. apply wp_bind.
  eapply wp_conseq with (Q := fun _ _ => True).
  { unfold make_observer. wp_run; exact I. }
  intros cfg4 s5 _. apply wp_modify. exact I.
Qed.

Lemma same_bindings_refl s : same_bindings s s.
Proof. repeat split. Qed.

Lemma same_bindings_trans s1 s2 s3 :
  same_bindings s1 s2 -> same_bindings s2 s3 -> same_bindings s1 s3.
Proof.
  unfold same_bindings. intros (A1 & A2 & A3 & A4 & A5 & A6) (B1 & B2 & B3 & B4 & B5 & B6).
  repeat split; congruence.
Qed.

Lemma wp_set_tesselation opts telescope v s :
  wp (set_tesselation telescope v) (fun _ s' => same_bindings s s') (expected_exn opts) s.
Proof. unfold set_tesselation. wp_run; [ repeat split | exact I ]. Qed.

Lemma wp_append_row opts telescope t s :
  wp (append_row telescope t) (fun _ s' => same_bindings s s') (expected_exn opts) s.
Proof.
  unfold append_row. apply wp_bind, wp_gets. apply wp_bind, wp_of_option.
  destruct (Params.config (params s) !! telescope) as [cfg|]; [ | exact I ].
  apply wp_bind, wp_of_option. destruct (cfg !! "tesselation") as [tess|]; [ | exact I ].
  destruct tess; try exact I. apply wp_set_tesselation.
Qed.

(** With [tile_structs] bound, the loop body of lines 587-595 leaves the
    variables of the script bound as they were and raises no [NameError]. *)
Lemma wp_rebuild_tesselation opts telescope s :
  is_Some (tile_structs s) ->
  wp (rebuild_tesselation telescope) (fun _ s' => same_bindings s s') (expected_exn opts) s.
Proof.
  intros Hs. unfold rebuild_tesselation. apply wp_bind.
  eapply wp_conseq; [ apply wp_set_tesselation | ].
  intros ? s1 H1. apply wp_bind, wp_gets. apply wp_bind, wp_of_option.
  destruct Hs as [structs Hst]. destruct H1 as (E1 & H1'). rewrite E1, Hst.
  apply wp_bind, wp_of_option. destruct (structs !! telescope) as [tiles|]; [ | exact I ].
  apply wp_bind.
  eapply wp_conseq;
    [ apply (wp_for (same_bindings s1)); [ | apply same_bindings_refl ] | ].
  - intros t s2 H2. eapply wp_conseq; [ apply wp_append_row | ].
    intros ? s3 H3. eapply same_bindings_trans; eassumption.
  - intros ? s2 H2. apply wp_ret.
    eapply same_bindings_trans; [ | exact H2 ]. split; assumption.
Qed.

Lemma wp_rebuild_loop opts ts s :
  is_Some (tile_structs s) ->
  wp (for_ ts (fun telescope => rebuild_tesselation telescope;; ret tt))
     (fun _ s' => same_bindings s s') (expected_exn opts) s.
Proof.
  intros Hs.
  apply (wp_for (fun s' => same_bindings s s')); [ | apply same_bindings_refl ].
  intros t s1 H1. apply wp_bind.
  eapply wp_conseq; [ apply wp_rebuild_tesselation | ].
  - destruct H1 as (-> & _). exact Hs.
  - intros ? s2 H2. apply wp_ret. eapply same_bindings_trans; eassumption.
Qed.

Lemma wp_hierarchical_loop opts ts s counts :
  is_Some (tile_structs s) ->
  Params.Ntiles (params s) = NtilesList counts ->
  wp (for_ ts (fun telescope =>
                 tiles_struct ← rebuild_tesselation telescope;
                 append_Ntiles (length tiles_struct)))
     (fun _ s' => tile_structs s' = tile_structs s /\
                  catalog_struct s' = catalog_struct s /\
                  moc_structs s' = moc_structs s)
     (expected_exn opts) s.
Proof.
  intros Hs Hn.
  eapply wp_conseq;
    [ apply (wp_for (fun s' => tile_structs s' = tile_structs s /\
                               catalog_struct s' = catalog_struct s /\
                               moc_structs s' = moc_structs s /\
                               exists c, Params.Ntiles (params s') = NtilesList c))
    | intros ? s' (A & B & C & _); auto ].
  - intros t s1 (A1 & B1 & C1 & c & N1). apply wp_bind.
    eapply wp_conseq; [ apply wp_rebuild_tesselation; rewrite A1; exact Hs | ].
    intros tiles s2 (A2 & B2 & C2 & _ & _ & N2).
    unfold append_Ntiles. apply wp_bind, wp_gets.
    rewrite N2, N1. apply wp_modify. simpl.
    repeat split; try congruence. eexists. reflexivity.
  - repeat split. eauto.
Qed.

(** The tiling: with the catalog bound whenever it was asked for, the
    tiling binds [tile_structs], and [moc_structs] under the MOC and the
    ranked tag; the only unbound variable it can read is the catalog. *)
Lemma wp_generate_tiles env opts s :
  loaded opts s ->
  wp (generate_tiles env opts) (fun _ s' => tiled opts s') (expected_exn opts) s.
Proof.
  intros [Htag Hcat]. unfold tagged in Htag.
  unfold generate_tiles, when. destruct (Opts.doTiles opts) eqn:Hd.
  2:{ apply wp_ret. split; [ exact Hcat | split; intros; congruence ]. }
  apply wp_bind.
  eapply wp_conseq with (Q := fun _ s' => tiled opts s');
    [ | intros ? s1 H1; wp_run; exact H1 ].
  unfold dispatch_tiles. apply wp_bind, wp_gets. rewrite Htag.
  destruct (String.eqb (Opts.tilesType opts) "moc") eqn:Hm.
  { wp_run. unfold tiled. simpl. rewrite Hd. eauto. }
  destruct (String.eqb (Opts.tilesType opts) "ranked") eqn:Hr.
  { wp_run. unfold tiled. simpl. rewrite Hd. eauto. }
  assert (Hnot : Opts.tilesType opts = "moc"%string \/
                 Opts.tilesType opts = "ranked"%string -> False).
  { apply String.eqb_neq in Hm, Hr. tauto. }
  destruct (String.eqb (Opts.tilesType opts) "hierarchical") eqn:Hh.
  { apply wp_bind, wp_emit. apply wp_bind, wp_emit. apply wp_bind, wp_modify.
    apply wp_bind, wp_modify. apply wp_bind, wp_gets.
    eapply wp_conseq; [ apply (wp_hierarchical_loop opts _ _ []); simpl; eauto | ].
    intros ? s' (A & B & C). unfold tiled. simpl in *.
    split; [ rewrite B; exact Hcat | ]. split; [ rewrite A; eauto | ].
    intros _ Hmr. destruct (Hnot Hmr). }
  destruct (String.eqb (Opts.tilesType opts) "greedy") eqn:Hg.
  { apply wp_bind, wp_emit. apply wp_bind, wp_emit. apply wp_bind, wp_modify.
    apply wp_bind, wp_gets.
    eapply wp_conseq; [ apply wp_rebuild_loop; simpl; eauto | ].
    intros ? s' (A & B & _). unfold tiled. simpl in *.
    split; [ rewrite B; exact Hcat | ]. split; [ rewrite A; eauto | ].
    intros _ Hmr. destruct (Hnot Hmr). }
  destruct (String.eqb (Opts.tilesType opts) "galaxy") eqn:Hx.
  { apply wp_bind, wp_emit. apply wp_bind, wp_bound.
    destruct (catalog_struct s) eqn:Hc.
    - apply wp_bind, wp_emit. apply wp_bind, wp_modify. apply wp_bind, wp_gets.
      eapply wp_conseq; [ apply wp_rebuild_loop; simpl; eauto | ].
      intros ? s' (A & B & _). unfold tiled. simpl in *.
      split; [ rewrite B, Hc; reflexivity | ]. split; [ rewrite A; eauto | ].
      intros _ Hmr. destruct (Hnot Hmr).
    - simpl. left.
      split; [ reflexivity | split; [ exact Hd | split; [ apply String.eqb_eq, Hx | ] ] ].
      destruct (Opts.doCatalog opts); [ | reflexivity ].
      specialize (Hcat eq_refl). discriminate. }
  apply wp_bind, wp_emit. apply wp_exit.
Qed.

(** The scheduling: after the tiling it finds [tile_structs] bound, and
    [moc_structs] unless the tiling was off or neither MOC nor ranked. *)
Lemma wp_schedule env opts s :
  tiled opts s ->
  wp (schedule env opts) (fun _ s' => planned opts s') (expected_exn opts) s.
Proof.
  intros (Hcat & Hts & Hmoc). unfold wp. rewrite schedule_run.
  destruct (Opts.doSchedule opts) eqn:Hs.
  - destruct (Opts.doTiles opts) eqn:Hd; [ | exact I ].
    destruct (Hts eq_refl) as [structs ->]. simpl. split; [ exact Hcat | reflexivity ].
  - destruct (Opts.doCoverage opts) eqn:Hc.
    + destruct (moc_structs s) eqn:Hm; simpl.
      * split; [ exact Hcat | reflexivity ].
      * right. left.
        split; [ reflexivity | split; [ exact Hs | split; [ exact Hc | ] ] ].
        destruct (Opts.doTiles opts); [ right | left; reflexivity ].
        split; intros Ht;
          [ discriminate (Hmoc eq_refl (or_introl Ht))
          | discriminate (Hmoc eq_refl (or_intror Ht)) ].
    + simpl. split; [ exact Hcat | ]. intros H. rewrite Hs, Hc in H. discriminate.
Qed.

Lemma wp_summary opts s :
  planned opts s ->
  wp (summary opts) (fun _ s' => planned opts s') (expected_exn opts) s.
Proof.
  intros [Hcat Hcov]. unfold summary, when.
  destruct (Opts.doSchedule opts || Opts.doCoverage opts) eqn:Hsc;
    [ | apply wp_ret; split; [ exact Hcat | intros H; rewrite Hsc in H; discriminate ] ].
  specialize (Hcov eq_refl).
  destruct (Opts.doCatalog opts) eqn:Hc; [ specialize (Hcat eq_refl) | ];
    wp_run; try (split; [ auto | auto ]); congruence.
Qed.

Lemma wp_efficiency env opts s :
  planned opts s ->
  wp (efficiency env opts) (fun _ _ => True) (expected_exn opts) s.
Proof.
  intros [Hcat Hcov]. unfold efficiency, when.
  destruct (Opts.doEfficiency opts) eqn:He; [ | apply wp_ret; exact I ].
  destruct (Opts.doSchedule opts || Opts.doCoverage opts) eqn:Hsc;
    [ | wp_run; exact I ].
  specialize (Hcov eq_refl).
  assert (Hloop : forall lcs,
            wp (for_ lcs
                  (fun lc =>
                     bound "coverage_struct" coverage_struct;;
                     emit (ComputeEfficiency (lc_key lc));;
                     (if Opts.do3D opts
                      then if efficiency_has_3D env then emit (PrintPercent (lc_key lc))
                           else raise (KeyError "3D")
                      else ret tt)))
               (fun _ s' => coverage_struct s' = true) (expected_exn opts) s).
  { intros lcs. apply (wp_for (fun s' => coverage_struct s' = true)); [ | exact Hcov ].
    intros lc s1 H1. apply wp_bind, wp_bound. rewrite H1.
    wp_run; first [ exact H1 | exact I ]. }
  apply wp_bind, wp_emit. apply wp_bind, wp_gets. apply wp_bind.
  destruct (String.eqb (Opts.modelType opts) "file") eqn:Hf.
  { apply wp_bind, wp_emit. apply wp_ret. apply wp_bind, wp_of_option.
    apply wp_bind. eapply wp_conseq; [ apply Hloop | ].
    intros ? s1 _. wp_run; exact I. }
  destruct (String.eqb (Opts.modelType opts) "Tophat") eqn:Ht.
  { apply wp_bind, wp_emit. apply wp_ret. apply wp_bind, wp_of_option.
    apply wp_bind. eapply wp_conseq; [ apply Hloop | ].
    intros ? s1 _. wp_run; exact I. }
  apply wp_ret. apply wp_bind, wp_of_option. simpl. right. right.
  apply String.eqb_neq in Hf, Ht. auto 6.
Qed.

Lemma wp_script env opts s :
  tagged opts s ->
  wp (script env opts) (fun _ _ => True) (expected_exn opts) s.
Proof.
  intros Htag. unfold script.
  apply wp_bind. eapply wp_conseq with (Q := fun _ s' => tagged opts s').
  { unfold check_lengths. wp_run; first [ exact Htag | exact I ]. }
  intros ? s1 H1. apply wp_bind.
  eapply wp_conseq with (Q := fun _ s' => tagged opts s').
  { unfold select_skymap. wp_run; first [ exact H1 | exact I ]. }
  intros ? s2 H2. apply wp_bind.
  eapply wp_conseq with (Q := fun _ s' => loaded opts s').
  { unfold load_skymap, loaded, tagged in *.
    destruct (Opts.doCatalog opts); wp_run; simpl; auto; split; auto; discriminate. }
  intros ? s3 H3. apply wp_bind.
  eapply wp_conseq with (Q := fun _ s' => loaded opts s').
  { unfold check_observability, when.
    destruct (Opts.doObservability opts); [ | apply wp_ret; exact H3 ].
    apply wp_bind, wp_emit. apply wp_bind, wp_emit. apply wp_bind.
    eapply wp_conseq with (Q := fun _ s' => loaded opts s');
      [ destruct (Opts.doPlots opts); wp_run; exact H3 | ].
    intros ? s' H'. destruct (Opts.doObservabilityExit opts); [ | apply wp_ret; exact H' ].
    apply wp_bind, wp_gets. apply (wp_for (loaded opts)); [ | exact H' ].
    intros t u Hu. unfold observability_exit. apply wp_bind, wp_of_option.
    destruct (observability env !! t) as [prob|]; [ | exact I ].
    destruct (PrimFloat.ltb _ _); [ | apply wp_ret; exact Hu ].
    apply wp_bind, wp_emit. apply wp_bind, wp_gets. apply wp_bind.
    eapply wp_conseq with (Q := fun _ _ => True); [ | intros; apply wp_exit ].
    destruct (Params.doTrueLocation (params u)); [ | apply wp_ret; exact I ].
    apply wp_bind, wp_emit.
    apply (wp_for (fun _ => True)); [ intros; apply wp_emit; exact I | exact I ]. }
  intros ? s4 H4. apply wp_bind.
  eapply wp_conseq with (Q := fun _ s' => loaded opts s').
  { unfold samples_and_split. wp_run; first [ exact H4 | exact I ]. }
  intros ? s5 H5. apply wp_bind.
  eapply wp_conseq; [ apply wp_generate_tiles, H5 | ].
  intros ? s6 H6. apply wp_bind.
  eapply wp_conseq; [ apply wp_schedule, H6 | ].
  intros ? s7 H7. apply wp_bind.
  eapply wp_conseq; [ apply wp_summary, H7 | ].
  intros ? s8 H8. apply wp_efficiency, H8.
Qed.

(** Over the whole run: an unbound variable is read, and [NameError]
    raised, in three situations only: [catalog_struct] under galaxy tiling
    without the catalog, [moc_structs] when coverage files are to be read
    and no MOC or ranked tiling ran, and [lightcurve_structs] for a model
    type that is neither "file" nor "Tophat".  [tile_structs] and
    [coverage_struct] are bound wherever they are read.  A run raises no
    [AttributeError] on [params["Ntiles"]] and no [IndexError] on the first
    exposure time. *)
Theorem exceptions_of_a_run env opts e :
  result_of (main env opts) = Raise e -> expected_exn opts e.
Proof.
  intros H. pose proof (wp_prelude env opts ∅) as Hpre. unfold wp in Hpre.
  unfold main in H.
  destruct (prelude env opts ∅) as [t1 [p c| |e']] eqn:Hp; simpl in *.
  - assert (Hp' : result_of (prelude env opts ∅) = Ok p c) by (rewrite Hp; reflexivity).
    apply prelude_fields in Hp' as (_ & _ & _ & Htag & _).
    pose proof (wp_script env opts (init_state p) Htag) as Hs. unfold wp in Hs.
    destruct (script env opts (init_state p)) as [t2 r]. simpl in *.
    subst r. exact Hs.
  - discriminate.
  - injection H as <-. exact Hpre.
Qed.

Lemma exceptions_of_a_run_witness :
  name_error_cause galaxy_opts "catalog_struct".
Proof.
  apply (exceptions_of_a_run sample_env galaxy_opts (NameError "catalog_struct")).
  vm_compute. reflexivity.
Defined.

(** * The efficiency, light curve by light curve *)

Lemma efficiency_loop_run env opts lcs s :
  coverage_struct s = true ->
  (Opts.do3D opts = true -> efficiency_has_3D env = true) ->
  for_ lcs
    (fun lc =>
       bound "coverage_struct" coverage_struct;;
       emit (ComputeEfficiency (lc_key lc));;
       when (Opts.do3D opts)
         (if efficiency_has_3D env then emit (PrintPercent (lc_key lc))
          else raise (KeyError "3D"))) s
  = (flat_map (efficiency_of opts) lcs, Ok tt s).
Proof.
  intros Hc H3. induction lcs as [|lc lcs IH]; simpl; [ reflexivity | ].
  rewrite run_bind.
  assert (Hbody : (bound "coverage_struct" coverage_struct;;
                   emit (ComputeEfficiency (lc_key lc));;
                   when (Opts.do3D opts)
                     (if efficiency_has_3D env then emit (PrintPercent (lc_key lc))
                      else raise (KeyError "3D"))) s
                  = (efficiency_of opts lc, Ok tt s)).
  { unfold efficiency_of, when, bound, gets. unfold mbind, M_bind, bind. simpl.
    rewrite Hc. simpl. destruct (Opts.do3D opts); [ | reflexivity ].
    rewrite H3 by reflexivity. reflexivity. }
  rewrite Hbody. unfold prepend. rewrite IH. reflexivity.
Qed.

(** Lines 667-693: with a coverage plan and a known model type the
    efficiency step returns with the state as it was, having computed the
    efficiency once per light curve, in the order of the light curves, after
    the one call that gives them and before the plot; without light curves
    it computes nothing and still plots. *)
Theorem efficiency_once_per_lightcurve env opts s lcs :
  Opts.doEfficiency opts = true ->
  Opts.doSchedule opts || Opts.doCoverage opts = true ->
  coverage_struct s = true ->
  (Opts.do3D opts = true -> efficiency_has_3D env = true) ->
  lightcurves env opts (params s) = Some lcs ->
  efficiency env opts s =
    (Print "Computing efficiency..." :: lightcurve_call opts ++
     flat_map (efficiency_of opts) lcs ++ efficiency_plot opts,
     Ok tt s).
Proof.
  intros He Hsc Hc H3 Hl. unfold efficiency, lightcurves, lightcurve_call in *.
  rewrite He, Hsc. unfold when at 1.
  rewrite run_bind. simpl. rewrite run_bind. simpl. rewrite run_bind.
  assert (Hrest : forall t,
    prepend t
      ((lightcurve_structs ← of_option (NameError "lightcurve_structs") (Some lcs);
        for_ lightcurve_structs
          (fun lc =>
             bound "coverage_struct" coverage_struct;;
             emit (ComputeEfficiency (lc_key lc));;
             when (Opts.do3D opts)
               (if efficiency_has_3D env then emit (PrintPercent (lc_key lc))
                else raise (KeyError "3D")));;
        when (Opts.doPlots opts)
          (emit (Print "Plotting efficiency...");; emit PlotEfficiency)) s)
    = (t ++ flat_map (efficiency_of opts) lcs ++ efficiency_plot opts, Ok tt s)).
  { intros t. rewrite run_of_option_bind, run_bind, efficiency_loop_run by assumption.
    unfold efficiency_plot, when, prepend. simpl.
    destruct (Opts.doPlots opts); reflexivity. }
  destruct (String.eqb (Opts.modelType opts) "file").
  - injection Hl as <-. rewrite run_bind. simpl. rewrite Hrest. reflexivity.
  - destruct (String.eqb (Opts.modelType opts) "Tophat"); [ | discriminate ].
    injection Hl as <-. rewrite run_bind. simpl. rewrite Hrest. reflexivity.
Qed.

Lemma efficiency_once_per_lightcurve_witness :
  efficiency sample_env (efficiency_opts true false "file")
    (bind_coverage_struct (sample_state ["A"; "B"] "moc")) =
    ([Print "Computing efficiency..."; LightcurveReadFiles;
      ComputeEfficiency "Me2017_H4M050V20.dat"],
     Ok tt (bind_coverage_struct (sample_state ["A"; "B"] "moc"))).
Proof.
  apply (efficiency_once_per_lightcurve sample_env (efficiency_opts true false "file")
           (bind_coverage_struct (sample_state ["A"; "B"] "moc"))
           [ {| lc_key := "Me2017_H4M050V20.dat"; lc_name := "Me2017_H4M050V20.dat";
                lc_legend_label := "Me2017_H4M050V20.dat" |} ]).
  - reflexivity.
  - reflexivity.
  - reflexivity.
  - discriminate.
  - reflexivity.
Defined.

(** * What the script leaves of [params] *)

Lemma keeps_params_tiles {B} (f : Params.t -> B) env opts :
  (forall c p, f (Params.set_config c p) = f p) ->
  (forall n p, f (Params.set_Ntiles n p) = f p) ->
  keeps (fun s => f (params s)) (generate_tiles env opts).
Proof.
  intros F1 F2. unfold generate_tiles, dispatch_tiles, append_Ntiles.
  repeat first
    [ apply (keeps_rebuild_tesselation (fun s => f (params s))); intros; simpl; apply F1
    | apply keeps_modify; intros ?; simpl; solve [ reflexivity | apply F1 | apply F2 ]
    | keeps_step ].
Qed.

Lemma params_struct_gpstime env opts c p c' :
  result_of (params_struct env opts c) = Ok p c' ->
  Params.gpstime p = Opts.gpstime opts.
Proof.
  unfold params_struct. intros H.
  apply ok_bind_inv in H as (? & s1 & _ & H).
  apply ok_bind_inv in H as (Tobs & s2 & _ & H).
  apply ok_bind_inv in H as (raslice & s3 & _ & H).
  apply ok_bind_inv in H as (times & s4 & _ & H).
  apply ok_bind_inv in H as (nb & s5 & _ & H).
  apply ok_bind_inv in H as (t0 & s6 & _ & H).
  apply ok_bind_inv in H as (t1 & s7 & _ & H).
  apply ok_bind_inv in H as (cfg & s8 & _ & H).
  injection H as <- _. reflexivity.
Qed.

Lemma select_skymap_gpstime env opts s s' :
  result_of (select_skymap env opts s) = Ok tt s' ->
  Params.gpstime (params s') =
    if Opts.doEvent opts then snd (get_event env) else Params.gpstime (params s).
Proof.
  rewrite select_skymap_run.
  destruct (Opts.doEvent opts); [ intros [= <-]; reflexivity | ].
  destruct (Opts.doFootprint opts); [ intros [= <-]; reflexivity | ].
  destruct (Opts.doSkymap opts); [ intros [= <-]; trivial | discriminate ].
Qed.

(** Over the whole run (lines 358, 360, 402-403, 490-496): when the run
    returns, [params] still has the telescopes, the filters and the tiling
    type of the options, the exposure times are as many as the filters, and
    the GPS time is the event's with [doEvent] and the option's otherwise. *)
Theorem params_after_run env opts a s :
  result_of (main env opts) = Ok a s ->
  Params.telescopes (params s) = split_comma (Opts.telescopes opts) /\
  Params.filters (params s) = split_comma (Opts.filters opts) /\
  length (Params.exposuretimes (params s)) = length (Params.filters (params s)) /\
  Params.tilesType (params s) = Opts.tilesType opts /\
  Params.gpstime (params s) = gpstime_by_source env opts.
Proof.
  intros H.
  destruct (main_cases env opts) as [(t1 & p & c & Hp & Hm)|(_ & Hr & _)];
    [ | rewrite H in Hr; discriminate ].
  rewrite Hm in H. simpl in H.
  assert (Hp' : result_of (prelude env opts ∅) = Ok p c) by (rewrite Hp; reflexivity).
  pose proof (params_struct_gpstime _ _ _ _ _ (prelude_ok _ _ _ _ _ Hp')) as Hgps.
  apply prelude_fields in Hp' as (Htel & Hfil & _ & Htag & _).
  apply script_ok_inv in H
    as (s1 & s2 & s3 & s4 & s5 & s6 & s7 & s8 & H1 & H2 & H3 & H4 & H5 & H6 & H7 & H8 & H9).
  destruct (keeps_params_after_tiles env opts) as (K7 & K8 & K9).
  rewrite (K9 _ _ _ H9), (K8 _ _ _ H8), (K7 _ _ _ H7).
  assert (Hkeep : forall {B} (f : Params.t -> B),
            (forall x p, f (Params.set_skymap x p) = f p) ->
            (forall c p, f (Params.set_config c p) = f p) ->
            (forall n p, f (Params.set_Ntiles n p) = f p) ->
            (forall s s', result_of (select_skymap env opts s) = Ok tt s' ->
                          f (params s') = f (params s)) ->
            f (params s6) = f (params s1)).
  { intros B f F1 F2 F3 F4.
    assert (N3 : keeps (fun s => f (params s)) (load_skymap opts))
      by (unfold load_skymap; keeps_all).
    assert (N4 : keeps (fun s => f (params s)) (check_observability env opts))
      by (unfold check_observability, observability_exit; keeps_all).
    assert (N5 : keeps (fun s => f (params s)) (samples_and_split opts))
      by (unfold samples_and_split; keeps_all).
    rewrite (keeps_params_tiles f env opts F2 F3 _ _ _ H6).
    rewrite (N5 _ _ _ H5), (N4 _ _ _ H4), (N3 _ _ _ H3). apply (F4 _ _ H2). }
  assert (Hsel : forall {B} (f : Params.t -> B),
            (forall x p, f (Params.set_skymap x p) = f p) ->
            (forall x p, f (Params.set_gpstime x p) = f p) ->
            forall s s', result_of (select_skymap env opts s) = Ok tt s' ->
                         f (params s') = f (params s)).
  { intros B f F1 F2 u u'. rewrite select_skymap_run.
    destruct (Opts.doEvent opts); [ intros [= <-]; simpl; rewrite F2; apply F1 | ].
    destruct (Opts.doFootprint opts); [ intros [= <-]; simpl; apply F1 | ].
    destruct (Opts.doSkymap opts); [ intros [= <-]; reflexivity | discriminate ]. }
  apply check_lengths_ok in H1 as (-> & _ & Hlen).
  repeat split.
  - rewrite (Hkeep _ Params.telescopes); try reflexivity; [ exact Htel | ].
    apply Hsel; reflexivity.
  - rewrite (Hkeep _ Params.filters); try reflexivity; [ exact Hfil | ].
    apply Hsel; reflexivity.
  - rewrite (Hkeep _ Params.exposuretimes), (Hkeep _ Params.filters); try reflexivity;
      [ symmetry; exact Hlen | | ]; apply Hsel; reflexivity.
  - rewrite (Hkeep _ Params.tilesType); try reflexivity; [ exact Htag | ].
    apply Hsel; reflexivity.
  - assert (G : Params.gpstime (params s6) = Params.gpstime (params s2)).
    { assert (N3 : keeps (fun s => Params.gpstime (params s)) (load_skymap opts))
        by (unfold load_skymap; keeps_all).
      assert (N4 : keeps (fun s => Params.gpstime (params s)) (check_observability env opts))
        by (unfold check_observability, observability_exit; keeps_all).
      assert (N5 : keeps (fun s => Params.gpstime (params s)) (samples_and_split opts))
        by (unfold samples_and_split; keeps_all).
      rewrite (keeps_params_tiles Params.gpstime env opts
                 ltac:(reflexivity) ltac:(reflexivity) _ _ _ H6).
      rewrite (N5 _ _ _ H5), (N4 _ _ _ H4), (N3 _ _ _ H3). reflexivity. }
    rewrite G, (select_skymap_gpstime _ _ _ _ H2). unfold gpstime_by_source.
    simpl. rewrite Hgps. reflexivity.
Qed.

Lemma params_after_run_witness :
  exists s, result_of (main sample_env plain_opts) = Ok tt s /\
            Params.telescopes (params s) = ["A"; "B"]%string /\
            length (Params.exposuretimes (params s)) = 3.
Proof.
  assert (H : exists a s, result_of (main sample_env plain_opts) = Ok a s).
  { apply returns_Ok. vm_compute. reflexivity. }
  destruct H as ([] & s & H). exists s. split; [ exact H | ].
  destruct (params_after_run sample_env plain_opts tt s H) as (Ht & Hf & Hl & _).
  rewrite Hl, Hf, Ht. split; vm_compute; reflexivity.
Defined.
